(** * Audio decoding pipeline of geminiService: [decodeBase64] and [decodeAudioData]

    A shallow embedding of the two decoding functions of the service module
    (the file that [components/AudioControl.tsx] imports as
    [../geminiService]) together with the platform primitives they call:
    [atob], [Uint8Array], [ArrayBuffer.slice], [Int16Array],
    [AudioContext.createBuffer] and [AudioBuffer.getChannelData].

    Conventions of the embedding.
    - A JavaScript exception (and the rejection of the promise returned by
      the [async] function) is the [Throw] case of [result].
    - [null] and [undefined] are the [None] case of an [option] argument.
    - Bytes are [Byte.byte]; 16-bit samples, sample rates and other integers
      are [Z]; indices and lengths are [nat].
    - A JavaScript number that may be fractional is a rational [Q] or [NaN].
      Every quotient [v / 32768.0] with [v] a 16-bit integer is a dyadic
      rational with at most 16 significant bits, so it is represented
      exactly both as a binary64 number and as the binary32 element of a
      [Float32Array] (see [pcm_quotient_binary32]); no rounding is lost by
      the rational model.
    - Typed arrays are read in little-endian byte order, as on every
      platform the application runs on. *)

From Stdlib Require Import ZArith QArith Qround Qabs String Ascii Strings.Byte List Lia ZifyNat.
From stdpp Require Import base option list.

Close Scope Q_scope.
Open Scope nat_scope.

(** ** Exceptions *)

Inductive error : Type :=
  | InvalidCharacterError   (* atob: malformed base64 *)
  | RangeError              (* typed array constructor: bad offset or length *)
  | IndexSizeError          (* getChannelData: channel out of range *)
  | NotSupportedError       (* createBuffer: an argument out of range *)
  | TypeError.              (* an object used as what it is not *)

Inductive result (A : Type) : Type :=
  | Ok (a : A)
  | Throw (e : error).
Arguments Ok {A} a.
Arguments Throw {A} e.

#[global] Instance result_ret : MRet result := λ A a, Ok a.
#[global] Instance result_bind : MBind result :=
  λ A B f m, match m with Ok a => f a | Throw e => Throw e end.

(** ** Loops

    [for (let i = i0; cond(i); i++) body(i)] over a state [St]. The model
    recurses on [fuel]; [for_loop_seq] below shows that the loops of this
    program leave by their guard, never by the fuel. *)

Fixpoint for_loop {St : Type} (fuel : nat) (cond : nat → bool)
    (body : nat → St → St) (i : nat) (s : St) : St :=
  match fuel with
  | O => s
  | S fuel' => if cond i then for_loop fuel' cond body (S i) (body i s) else s
  end.

(** ** Bytes, array buffers and typed arrays *)

Definition byte_to_Z (b : byte) : Z := Z.of_N (Byte.to_N b).

(** An [ArrayBuffer] is its sequence of bytes. *)
Abbreviation ArrayBuffer := (list byte).

(** [buf.slice(begin, end)]: a copy of the bytes in [begin, end), both ends
    clamped to the buffer. *)
Definition ArrayBuffer_slice (buf : ArrayBuffer) (begin_ end_ : nat) : ArrayBuffer :=
  take (end_ - begin_) (drop begin_ buf).

(** A [Uint8Array] is a view of [u8_byteLength] bytes starting at
    [u8_byteOffset] in its [u8_buffer]. *)
Record Uint8Array : Type := {
  u8_buffer : ArrayBuffer;
  u8_byteOffset : nat;
  u8_byteLength : nat
}.

(** [data.length]: for 8-bit elements, the byte length. *)
Definition u8_length (a : Uint8Array) : nat := u8_byteLength a.

(** [new Uint8Array(n)]: a fresh zero-filled buffer of [n] bytes, viewed
    whole. *)
Definition Uint8Array_new (n : nat) : Uint8Array :=
  {| u8_buffer := replicate n x00; u8_byteOffset := 0; u8_byteLength := n |}.

(** [a[i] = b]: ignored when [i] is outside the view. *)
Definition Uint8Array_set (a : Uint8Array) (i : nat) (b : byte) : Uint8Array :=
  if decide (i < u8_byteLength a)
  then {| u8_buffer := <[u8_byteOffset a + i := b]> (u8_buffer a);
          u8_byteOffset := u8_byteOffset a;
          u8_byteLength := u8_byteLength a |}
  else a.

(** The array that holds exactly the bytes [bs]: what [decodeBase64] returns
    (see [decodeBase64_whole]). *)
Definition Uint8Array_of (bs : list byte) : Uint8Array :=
  {| u8_buffer := bs; u8_byteOffset := 0; u8_byteLength := length bs |}.

(** Two bytes, low byte first, as a signed 16-bit integer. *)
Definition int16_le (lo hi : byte) : Z :=
  let u := Z.lor (byte_to_Z lo) (Z.shiftl (byte_to_Z hi) 8) in
  if Z.testbit u 15 then u - 65536 else u.

Record Int16Array : Type := {
  i16_buffer : ArrayBuffer;
  i16_byteOffset : nat;
  i16_length : nat
}.

(** [new Int16Array(buffer, byteOffset, length)]: the offset must be a
    multiple of the element size and the view must fit in the buffer. *)
Definition Int16Array_new (buf : ArrayBuffer) (byteOffset len : nat) : result Int16Array :=
  if negb (byteOffset mod 2 =? 0) then Throw RangeError
  else if length buf <? byteOffset + len * 2 then Throw RangeError
  else Ok {| i16_buffer := buf; i16_byteOffset := byteOffset; i16_length := len |}.

(** [a[k]]: [None] is [undefined], the value of an index outside the view. *)
Definition Int16Array_get (a : Int16Array) (k : nat) : option Z :=
  if decide (k < i16_length a) then
    lo ← i16_buffer a !! (i16_byteOffset a + 2 * k);
    hi ← i16_buffer a !! (i16_byteOffset a + 2 * k + 1);
    Some (int16_le lo hi)
  else None.

(** ** Numbers and audio buffers *)

Inductive number : Type :=
  | NaN
  | Num (q : Q).

(** [x / 32768.0], where [x] is an element read from an [Int16Array];
    [undefined / 32768.0] is [NaN]. *)
Definition div_32768 (x : option Z) : number :=
  match x with
  | Some v => Num (v # 32768)
  | None => NaN
  end.

(** An audio context: its sample rate, and the arguments its
    [createBuffer] supports. The Web Audio API leaves the largest channel
    count and the range of sample rates to the implementation, which must
    support at least 32 channels and the rates from 8000 to 96000. *)
Record AudioContext : Type := {
  ctx_sampleRate : Z;
  ctx_maxChannels : nat;
  ctx_minSampleRate : Z;
  ctx_maxSampleRate : Z
}.

Record AudioBuffer : Type := {
  numberOfChannels : nat;
  ab_length : nat;
  ab_sampleRate : Z;
  ab_channels : list (list number)
}.

(** One zero-filled [Float32Array] of [len] frames per channel. *)
Definition zero_filled (channels len : nat) (sampleRate : Z) : AudioBuffer :=
  {| numberOfChannels := channels;
     ab_length := len;
     ab_sampleRate := sampleRate;
     ab_channels := replicate channels (replicate len (Num 0)) |}.

(** The arguments [createBuffer] takes: none of them zero or negative, the
    channel count and the sample rate within what the context supports.
    The length has no upper bound here: an implementation's bound is that of
    its memory, far above the length of any payload at hand. *)
Definition createBuffer_supports (ctx : AudioContext) (channels len : nat)
    (sampleRate : Z) : bool :=
  (1 <=? channels) && (channels <=? ctx_maxChannels ctx)
  && (1 <=? len)
  && (0 <? sampleRate)%Z
  && (ctx_minSampleRate ctx <=? sampleRate)%Z
  && (sampleRate <=? ctx_maxSampleRate ctx)%Z.

(** [ctx.createBuffer(numberOfChannels, length, sampleRate)]: a
    [NotSupportedError] when an argument is zero, negative or outside its
    range, otherwise a zero-filled buffer. *)
Definition createBuffer (ctx : AudioContext) (channels len : nat) (sampleRate : Z)
    : result AudioBuffer :=
  if createBuffer_supports ctx channels len sampleRate
  then Ok (zero_filled channels len sampleRate)
  else Throw NotSupportedError.

(** [buffer.getChannelData(channel)]. *)
Definition getChannelData (buffer : AudioBuffer) (channel : nat) : result (list number) :=
  match ab_channels buffer !! channel with
  | Some channelData => Ok channelData
  | None => Throw IndexSizeError
  end.

(** The array returned by [getChannelData] is the buffer's own storage:
    once the writes to it are done the buffer holds the written array. *)
Definition setChannelData (buffer : AudioBuffer) (channel : nat)
    (channelData : list number) : AudioBuffer :=
  {| numberOfChannels := numberOfChannels buffer;
     ab_length := ab_length buffer;
     ab_sampleRate := ab_sampleRate buffer;
     ab_channels := <[channel := channelData]> (ab_channels buffer) |}.

(** ** decodeAudioData *)

(** [const bufferToUse = byteLength % 2 === 0 ? data.buffer
                                              : data.buffer.slice(0, byteLength - 1)] *)
Definition bufferToUse (data : Uint8Array) : ArrayBuffer :=
  let byteLength := u8_byteLength data in
  if byteLength mod 2 =? 0 then u8_buffer data
  else ArrayBuffer_slice (u8_buffer data) 0 (byteLength - 1).

(** [new Int16Array(bufferToUse, data.byteOffset, Math.floor(byteLength / 2))] *)
Definition dataInt16_of (data : Uint8Array) : result Int16Array :=
  Int16Array_new (bufferToUse data) (u8_byteOffset data) (u8_byteLength data / 2).

(** [dataInt16.length / numChannels], a quotient that is not rounded. The
    lengths at hand are far below [2 ^ 53], where the binary64 quotient and
    the rational one have the same floor and compare alike with every
    integer. With [numChannels = 0] the JavaScript quotient is [Infinity] or
    [NaN]; the loops then do not run and the quotient is only floored and
    passed to [createBuffer] as an [unsigned long], a conversion that sends
    both to 0, the value of the rational quotient by zero. *)
Definition frameCount_of (dataInt16 : Int16Array) (numChannels : nat) : Q :=
  (inject_Z (Z.of_nat (i16_length dataInt16)) / inject_Z (Z.of_nat numChannels))%Q.

(** [i < frameCount] *)
Definition lt_frameCount (frameCount : Q) (i : nat) : bool :=
  if Qlt_le_dec (inject_Z (Z.of_nat i)) frameCount then true else false.

(** The inner loop: [channelData[i] = dataInt16[i * numChannels + channel] / 32768.0]
    for [i = 0; i < frameCount; i++]. A write past the end of
    [channelData] is ignored, as typed arrays do. *)
Definition fill_channel (dataInt16 : Int16Array) (frameCount : Q)
    (numChannels channel : nat) (channelData : list number) : list number :=
  for_loop (S (i16_length dataInt16)) (lt_frameCount frameCount)
    (λ i channelData,
       <[i := div_32768 (Int16Array_get dataInt16 (i * numChannels + channel))]> channelData)
    0 channelData.

(** The outer loop over [channel = 0; channel < numChannels; channel++]. *)
Definition fill_buffer (dataInt16 : Int16Array) (frameCount : Q)
    (numChannels : nat) (buffer : AudioBuffer) : result AudioBuffer :=
  for_loop (S numChannels) (λ channel, channel <? numChannels)
    (λ channel state,
       buffer ← state;
       channelData ← getChannelData buffer channel;
       Ok (setChannelData buffer channel
             (fill_channel dataInt16 frameCount numChannels channel channelData)))
    0 (Ok buffer).

Definition decodeAudioData (data : option Uint8Array) (ctx : AudioContext)
    (sampleRate : Z) (numChannels : nat) : result AudioBuffer :=
  match data with
  | None => createBuffer ctx numChannels 1 sampleRate
  | Some data =>
    if u8_length data =? 0 then createBuffer ctx numChannels 1 sampleRate
    else
      dataInt16 ← dataInt16_of data;
      let frameCount := frameCount_of dataInt16 numChannels in
      buffer ← createBuffer ctx numChannels (Z.to_nat (Qfloor frameCount))
                 sampleRate;
      fill_buffer dataInt16 frameCount numChannels buffer
  end.

(** The default arguments [sampleRate = 24000] and [numChannels = 1]. *)
Definition default_sampleRate : Z := 24000.
Definition default_numChannels : nat := 1.

(** ** atob

    [atob] is the platform's base64 decoder. It is modelled step by step
    after the algorithm the HTML and Infra standards give for it
    (forgiving-base64 decode); the step numbers below are the standard's.
    Strings are sequences of 8-bit characters: a code unit above 255 is
    neither in the alphabet nor white space, so [atob] rejects every string
    this type leaves out. *)

(** U+0009 TAB, U+000A LF, U+000C FF, U+000D CR, U+0020 SPACE *)
Definition is_ascii_whitespace (c : ascii) : bool :=
  let n := nat_of_ascii c in
  (n =? 9) || (n =? 10) || (n =? 12) || (n =? 13) || (n =? 32).

(** U+002B (+), U+002F (/), or an ASCII alphanumeric *)
Definition is_base64_char (c : ascii) : bool :=
  let n := nat_of_ascii c in
  (n =? 43) || (n =? 47)
  || ((48 <=? n) && (n <=? 57))
  || ((65 <=? n) && (n <=? 90))
  || ((97 <=? n) && (n <=? 122)).

(** Table 1 of RFC 4648, the base 64 alphabet: value [i] is encoded by the
    [i]-th character. *)
Definition base64_alphabet : list ascii :=
  list_ascii_of_string
    "ABCDEFGHIJKLMNOPQRSTUVWXYZabcdefghijklmnopqrstuvwxyz0123456789+/"%string.

Fixpoint index_of (c : ascii) (table : list ascii) (i : nat) : option nat :=
  match table with
  | [] => None
  | x :: table' => if Ascii.eqb c x then Some i else index_of c table' (S i)
  end.

Definition base64_index (c : ascii) : option nat := index_of c base64_alphabet 0.

(** [data] without its last character, when that character is [=]. *)
Definition remove_final_equals (data : list ascii) : option (list ascii) :=
  match rev data with
  | c :: r => if Ascii.eqb c "="%char then Some (rev r) else None
  | [] => None
  end.

(** Step 2: when the length is a multiple of 4, one or two final [=] are
    removed. *)
Definition strip_padding (data : list ascii) : list ascii :=
  if length data mod 4 =? 0 then
    match remove_final_equals data with
    | Some data1 =>
      match remove_final_equals data1 with
      | Some data2 => data2
      | None => data1
      end
    | None => data
    end
  else data.

(** The eight low bits of [n] as a character of the output. *)
Definition char_of_Z (n : Z) : ascii := ascii_of_N (Z.to_N (n mod 256)).

(** Step 8: append the six bits of the character's table position to the
    bit buffer; three bytes leave the buffer when it holds 24 bits. *)
Definition decode_step (st : Z * nat * list ascii) (c : ascii) : Z * nat * list ascii :=
  let '(buffer, bits, output) := st in
  let n := Z.of_nat (default 0 (base64_index c)) in
  let buffer := (buffer * 64 + n)%Z in
  let bits := bits + 6 in
  if bits =? 24 then
    (0%Z, 0,
     output ++ [char_of_Z (buffer / 65536); char_of_Z (buffer / 256); char_of_Z buffer])
  else (buffer, bits, output).

(** Step 9: 12 left-over bits give one byte, 18 give two; the last four
    or two bits are discarded. *)
Definition decode_flush (st : Z * nat * list ascii) : list ascii :=
  let '(buffer, bits, output) := st in
  if bits =? 12 then output ++ [char_of_Z (buffer / 16)]
  else if bits =? 18 then
    output ++ [char_of_Z (buffer / 4 / 256); char_of_Z (buffer / 4)]
  else output.

(** Step 1: ASCII white space is removed. *)
Definition remove_ascii_whitespace (data : string) : list ascii :=
  List.filter (λ c, negb (is_ascii_whitespace c)) (list_ascii_of_string data).

(** Steps 3 to 10, on the data left by steps 1 and 2. *)
Definition decode_sextets (data : list ascii) : option string :=
  (* 3 *) if length data mod 4 =? 1 then None else
  (* 4 *) if negb (forallb is_base64_char data) then None else
  (* 5-10 *) Some (string_of_list_ascii
                     (decode_flush (foldl decode_step (0%Z, 0, []) data))).

Definition forgiving_base64_decode (data : string) : option string :=
  decode_sextets (strip_padding (remove_ascii_whitespace data)).

Definition atob (data : string) : result string :=
  match forgiving_base64_decode data with
  | Some decodedData => Ok decodedData
  | None => Throw InvalidCharacterError
  end.

(** ** decodeBase64 *)

(** [s.charCodeAt(i)]: [None] is [NaN], the value at an index outside the
    string. *)
Definition charCodeAt (s : string) (i : nat) : option N :=
  N_of_ascii <$> String.get i s.

(** The conversion a [Uint8Array] applies to a stored number: modulo 256,
    and 0 for [NaN]. *)
Definition ToUint8 (x : option N) : byte :=
  match x with
  | Some n => default x00 (Byte.of_N (n mod 256))
  | None => x00
  end.

Definition decodeBase64 (base64 : option string) : result Uint8Array :=
  match base64 with
  | None => Ok (Uint8Array_new 0)
  | Some base64 =>
    if String.eqb base64 ""%string then Ok (Uint8Array_new 0)
    else
      binaryString ← atob base64;
      let bytes := Uint8Array_new (String.length binaryString) in
      Ok (for_loop (S (String.length binaryString))
            (λ i, i <? String.length binaryString)
            (λ i bytes, Uint8Array_set bytes i (ToUint8 (charCodeAt binaryString i)))
            0 bytes)
  end.

(** The two calls as the audio control makes them:
    [decodeAudioData(decodeBase64(base64Audio), ctx, sampleRate, numChannels)]. *)
Definition decode_pipeline (base64 : option string) (ctx : AudioContext)
    (sampleRate : Z) (numChannels : nat) : result AudioBuffer :=
  bytes ← decodeBase64 base64;
  decodeAudioData (Some bytes) ctx sampleRate numChannels.

(** ** The same two functions over an explicit store

    Above, an array is a value and a write returns the new value. Here the
    objects the functions allocate and mutate ([ArrayBuffer]s and the
    [Float32Array]s of an [AudioBuffer]) live in a store; typed arrays and
    audio buffers are references into it, and [getChannelData] returns the
    location of the buffer's own storage. This is the model against which
    purity is stated; [Store_decode_pipeline_refines] relates it to the
    functions above. *)

Module Store.

Inductive object : Type :=
  | ArrayBufferObj (bytes : list byte)
  | Float32ArrayObj (elements : list number).

Abbreviation loc := nat.
Abbreviation heap := (list object).

(** A computation: from a store to an outcome and a store. *)
Definition M (A : Type) : Type := heap → result A * heap.

Definition ret {A : Type} (a : A) : M A := λ h, (Ok a, h).
Definition bind {A B : Type} (m : M A) (k : A → M B) : M B :=
  λ h, match m h with
       | (Ok a, h') => k a h'
       | (Throw e, h') => (Throw e, h')
       end.
Definition throw {A : Type} (e : error) : M A := λ h, (Throw e, h).

#[global] Instance M_ret : MRet M := @ret.
#[global] Instance M_bind : MBind M := λ A B k m, bind m k.

(** [new]: the object goes to the next free location. *)
Definition alloc (o : object) : M loc := λ h, (Ok (length h), h ++ [o]).

Definition load_bytes (l : loc) : M (list byte) :=
  λ h, match h !! l with
       | Some (ArrayBufferObj bytes) => (Ok bytes, h)
       | _ => (Throw TypeError, h)
       end.

Definition load_elements (l : loc) : M (list number) :=
  λ h, match h !! l with
       | Some (Float32ArrayObj elements) => (Ok elements, h)
       | _ => (Throw TypeError, h)
       end.

Definition store (l : loc) (o : object) : M unit :=
  λ h, (Ok tt, <[l := o]> h).

Fixpoint for_loop (fuel : nat) (cond : nat → bool) (body : nat → M unit)
    (i : nat) : M unit :=
  match fuel with
  | O => ret tt
  | S fuel' =>
    if cond i then body i;; for_loop fuel' cond body (S i) else ret tt
  end.

Record Uint8Array : Type := {
  buffer : loc;
  byteOffset : nat;
  byteLength : nat
}.

Definition Uint8Array_new (n : nat) : M Uint8Array :=
  l ← alloc (ArrayBufferObj (replicate n x00));
  ret {| buffer := l; byteOffset := 0; byteLength := n |}.

Definition Uint8Array_set (a : Uint8Array) (i : nat) (b : byte) : M unit :=
  if decide (i < byteLength a) then
    bytes ← load_bytes (buffer a);
    store (buffer a) (ArrayBufferObj (<[byteOffset a + i := b]> bytes))
  else ret tt.

Definition ArrayBuffer_slice (buf : loc) (begin_ end_ : nat) : M loc :=
  bytes ← load_bytes buf;
  alloc (ArrayBufferObj (take (end_ - begin_) (drop begin_ bytes))).

Record Int16Array : Type := {
  i16_buffer : loc;
  i16_byteOffset : nat;
  i16_length : nat
}.

Definition Int16Array_new (buf : loc) (byteOffset len : nat) : M Int16Array :=
  bytes ← load_bytes buf;
  if negb (byteOffset mod 2 =? 0) then throw RangeError
  else if length bytes <? byteOffset + len * 2 then throw RangeError
  else ret {| i16_buffer := buf; i16_byteOffset := byteOffset; i16_length := len |}.

Definition Int16Array_get (a : Int16Array) (k : nat) : M (option Z) :=
  if decide (k < i16_length a) then
    bytes ← load_bytes (i16_buffer a);
    ret (lo ← bytes !! (i16_byteOffset a + 2 * k);
         hi ← bytes !! (i16_byteOffset a + 2 * k + 1);
         Some (int16_le lo hi))
  else ret None.

Record AudioBuffer : Type := {
  numberOfChannels : nat;
  ab_length : nat;
  ab_sampleRate : Z;
  ab_channels : list loc
}.

Fixpoint alloc_channels (channels len : nat) : M (list loc) :=
  match channels with
  | O => ret []
  | S channels' =>
    l ← alloc (Float32ArrayObj (replicate len (Num 0)));
    ls ← alloc_channels channels' len;
    ret (l :: ls)
  end.

Definition createBuffer (ctx : AudioContext) (channels len : nat) (sampleRate : Z)
    : M AudioBuffer :=
  if createBuffer_supports ctx channels len sampleRate then
    ls ← alloc_channels channels len;
    ret {| numberOfChannels := channels;
           ab_length := len;
           ab_sampleRate := sampleRate;
           ab_channels := ls |}
  else throw NotSupportedError.

Definition getChannelData (buffer : AudioBuffer) (channel : nat) : M loc :=
  match ab_channels buffer !! channel with
  | Some channelData => ret channelData
  | None => throw IndexSizeError
  end.

Definition Float32Array_set (a : loc) (i : nat) (x : number) : M unit :=
  elements ← load_elements a;
  store a (Float32ArrayObj (<[i := x]> elements)).

Definition decodeBase64 (base64 : option string) : M Uint8Array :=
  match base64 with
  | None => Uint8Array_new 0
  | Some base64 =>
    if String.eqb base64 ""%string then Uint8Array_new 0
    else
      match atob base64 with
      | Throw e => throw e
      | Ok binaryString =>
        bytes ← Uint8Array_new (String.length binaryString);
        for_loop (S (String.length binaryString))
              (λ i, i <? String.length binaryString)
              (λ i, Uint8Array_set bytes i (ToUint8 (charCodeAt binaryString i)))
              0;;
        ret bytes
      end
  end.

(** The inner loop, writing through the location [channelData]. *)
Definition fill_channel (dataInt16 : Int16Array) (frameCount : Q)
    (numChannels channel : nat) (channelData : loc) : M unit :=
  for_loop (S (i16_length dataInt16)) (lt_frameCount frameCount)
    (λ i,
       x ← Int16Array_get dataInt16 (i * numChannels + channel);
       Float32Array_set channelData i (div_32768 x))
    0.

(** The outer loop. *)
Definition fill_buffer (dataInt16 : Int16Array) (frameCount : Q)
    (numChannels : nat) (buffer : AudioBuffer) : M unit :=
  for_loop (S numChannels) (λ channel, channel <? numChannels)
    (λ channel,
       channelData ← getChannelData buffer channel;
       fill_channel dataInt16 frameCount numChannels channel channelData)
    0.

Definition decodeAudioData (data : option Uint8Array) (ctx : AudioContext)
    (sampleRate : Z) (numChannels : nat) : M AudioBuffer :=
  match data with
  | None => createBuffer ctx numChannels 1 sampleRate
  | Some data =>
    if byteLength data =? 0 then createBuffer ctx numChannels 1 sampleRate
    else
      let byteLength := byteLength data in
      bufferToUse ←
        (if byteLength mod 2 =? 0 then ret (buffer data)
         else ArrayBuffer_slice (buffer data) 0 (byteLength - 1));
      dataInt16 ← Int16Array_new bufferToUse (byteOffset data) (byteLength / 2);
      let frameCount := (inject_Z (Z.of_nat (i16_length dataInt16))
                         / inject_Z (Z.of_nat numChannels))%Q in
      buffer ← createBuffer ctx numChannels (Z.to_nat (Qfloor frameCount)) sampleRate;
      fill_buffer dataInt16 frameCount numChannels buffer;;
      ret buffer
  end.

Definition decode_pipeline (base64 : option string) (ctx : AudioContext)
    (sampleRate : Z) (numChannels : nat) : M AudioBuffer :=
  bytes ← decodeBase64 base64;
  decodeAudioData (Some bytes) ctx sampleRate numChannels.

(** What a caller can observe of an outcome: the audio buffer with the
    contents of its channels, read from the final store. *)
Definition read_channel (h : heap) (l : loc) : option (list number) :=
  match h !! l with
  | Some (Float32ArrayObj elements) => Some elements
  | _ => None
  end.

End Store.

Definition read_AudioBuffer (h : Store.heap) (b : Store.AudioBuffer)
    : option AudioBuffer :=
  channels ← mapM (Store.read_channel h) (Store.ab_channels b);
  Some {| numberOfChannels := Store.numberOfChannels b;
          ab_length := Store.ab_length b;
          ab_sampleRate := Store.ab_sampleRate b;
          ab_channels := channels |}.

(** The outcome of a run, with the buffer read from the final store. *)
Definition observe (run : result Store.AudioBuffer * Store.heap)
    : result (option AudioBuffer) :=
  match run with
  | (Ok b, h) => Ok (read_AudioBuffer h b)
  | (Throw e, _) => Throw e
  end.

(** The outcome of the functions on values, in the same form. *)
Definition outcome (r : result AudioBuffer) : result (option AudioBuffer) :=
  match r with
  | Ok b => Ok (Some b)
  | Throw e => Throw e
  end.

(** The channel arrays of [b] were allocated after the store [h] was
    taken, and are distinct objects. *)
Definition fresh_channels (h : Store.heap) (b : Store.AudioBuffer) : Prop :=
  Forall (λ l, length h ≤ l) (Store.ab_channels b)
  ∧ NoDup (Store.ab_channels b).

(** ** The buffer the specification describes

    Definitions that follow the words of the specification, to compare with
    the code: the PCM sample buffer (pairs of bytes, an odd trailing byte
    dropped), and the de-interleaved buffer of [frames] frames. *)

Fixpoint spec_PCMSampleBuffer (bs : list byte) : list Z :=
  match bs with
  | lo :: hi :: rest => int16_le lo hi :: spec_PCMSampleBuffer rest
  | _ => []
  end.

Definition spec_channel (samples : list Z) (numChannels frames channel : nat)
    : list number :=
  map (λ i, div_32768 (samples !! (i * numChannels + channel))) (seq 0 frames).

Definition spec_deinterleave (samples : list Z) (numChannels frames : nat)
    (sampleRate : Z) : AudioBuffer :=
  {| numberOfChannels := numChannels;
     ab_length := frames;
     ab_sampleRate := sampleRate;
     ab_channels :=
       map (spec_channel samples numChannels frames) (seq 0 numChannels) |}.

(** The test vector of the round-trip property, as the specification
    words it: signed 16-bit integers as little-endian bytes, then base64
    (RFC 4648, with padding). *)

Definition byte_of_Z (n : Z) : byte :=
  default x00 (Byte.of_N (Z.to_N (n mod 256))).

Definition spec_int16_bytes (v : Z) : list byte :=
  [byte_of_Z v; byte_of_Z (v / 256)].

Definition spec_le_bytes (V : list Z) : list byte :=
  concat (map spec_int16_bytes V).

Definition base64_char (i : Z) : ascii :=
  nth (Z.to_nat i) base64_alphabet "="%char.

Fixpoint spec_base64_encode (bs : list byte) : list ascii :=
  match bs with
  | [] => []
  | [x] =>
    let n := (byte_to_Z x * 16)%Z in
    [base64_char (n / 64); base64_char (n mod 64); "="%char; "="%char]
  | [x; y] =>
    let n := ((byte_to_Z x * 256 + byte_to_Z y) * 4)%Z in
    [base64_char (n / 4096); base64_char (n / 64 mod 64); base64_char (n mod 64);
     "="%char]
  | x :: y :: z :: rest =>
    let n := (byte_to_Z x * 65536 + byte_to_Z y * 256 + byte_to_Z z)%Z in
    base64_char (n / 262144) :: base64_char (n / 4096 mod 64)
    :: base64_char (n / 64 mod 64) :: base64_char (n mod 64)
    :: spec_base64_encode rest
  end.

Definition spec_base64 (bs : list byte) : string :=
  string_of_list_ascii (spec_base64_encode bs).

(** ** Vocabulary of the statements *)

(** The characters of an encoding that carry bits, without the padding. *)
Fixpoint encode_body (bs : list byte) : list ascii :=
  match bs with
  | [] => []
  | [x] =>
    let n := (byte_to_Z x * 16)%Z in
    [base64_char (n / 64); base64_char (n mod 64)]
  | [x; y] =>
    let n := ((byte_to_Z x * 256 + byte_to_Z y) * 4)%Z in
    [base64_char (n / 4096); base64_char (n / 64 mod 64); base64_char (n mod 64)]
  | x :: y :: z :: rest =>
    let n := (byte_to_Z x * 65536 + byte_to_Z y * 256 + byte_to_Z z)%Z in
    base64_char (n / 262144) :: base64_char (n / 4096 mod 64)
    :: base64_char (n / 64 mod 64) :: base64_char (n mod 64)
    :: encode_body rest
  end.

Definition encode_pad (bs : list byte) : list ascii :=
  match length bs mod 3 with
  | 0 => []
  | 1 => ["="%char; "="%char]
  | _ => ["="%char]
  end.

Definition sextet_char (c : ascii) : Prop :=
  ∃ i, (0 ≤ i < 64)%Z ∧ c = base64_char i.

(** Padding as [atob] accepts it: one or two [=] that end data whose
    length is a multiple of 4, and no [=] before them. *)
Definition well_padded (data : list ascii) : Prop :=
  ∃ body pad,
    data = body ++ pad
    ∧ (pad = ["="%char] ∨ pad = ["="%char; "="%char])
    ∧ ¬ In "="%char body
    ∧ length data mod 4 = 0.



(** The context the audio control creates:
    [new AudioContext({ sampleRate: 24000 })], on an implementation that
    supports what the Web Audio API requires and no more. *)
Definition audioCtx : AudioContext :=
  {| ctx_sampleRate := 24000;
     ctx_maxChannels := 32;
     ctx_minSampleRate := 8000;
     ctx_maxSampleRate := 96000 |}.

(** The context's [createBuffer] accepts the channel count and the sample
    rate. *)
Definition accepts (ctx : AudioContext) (numChannels : nat) (sampleRate : Z)
    : Prop :=
  1 ≤ numChannels ≤ ctx_maxChannels ctx
  ∧ (0 < sampleRate)%Z
  ∧ (ctx_minSampleRate ctx ≤ sampleRate ≤ ctx_maxSampleRate ctx)%Z.

(** The de-interleaving property: one array of
    [floor (sampleCount / numChannels)] frames per channel, and frame [i]
    of channel [c] is the sample at interleaved index [i * numChannels + c]
    divided by 32768. *)
Definition deinterleave_claim (bs : list byte) (ctx : AudioContext)
    (sampleRate : Z) (numChannels : nat) : Prop :=
  let sampleCount := length bs / 2 in
  let frameCount := sampleCount / numChannels in
  ∃ buffer,
    decodeAudioData (Some (Uint8Array_of bs)) ctx sampleRate numChannels = Ok buffer
    ∧ length (ab_channels buffer) = numChannels
    ∧ ∀ c, c < numChannels →
        ∃ channelData,
          ab_channels buffer !! c = Some channelData
          ∧ length channelData = frameCount
          ∧ ∀ i, i < frameCount →
              ∃ v, spec_PCMSampleBuffer bs !! (i * numChannels + c) = Some v
                   ∧ channelData !! i = Some (Num (v # 32768)).

(** The bound on the produced frame count, [sampleCount] being the number
    of complete 16-bit samples of the length-normalized byte buffer. *)
Definition frame_bound_claim (bs : list byte) (ctx : AudioContext)
    (sampleRate : Z) (numChannels : nat) : Prop :=
  ∃ buffer dataInt16,
    decodeAudioData (Some (Uint8Array_of bs)) ctx sampleRate numChannels = Ok buffer
    ∧ dataInt16_of (Uint8Array_of bs) = Ok dataInt16
    ∧ let frameCount := ab_length buffer in
      let sampleCount := i16_length dataInt16 in
      frameCount * numChannels ≤ sampleCount
      ∧ sampleCount ≤ frameCount * numChannels + (numChannels - 1).

(** One silent frame per channel. *)
Definition silent_frame (numChannels : nat) (sampleRate : Z) : AudioBuffer :=
  {| numberOfChannels := numChannels;
     ab_length := 1;
     ab_sampleRate := sampleRate;
     ab_channels := replicate numChannels [Num 0] |}.

(** The round trip at channel count 1: [V] as little-endian bytes, base64,
    [decodeBase64], [decodeAudioData]. The frame count is the length of
    [V] and sample [i] is [V[i] / 32768] within [1e-6]. *)
Definition roundtrip_claim (V : list Z) (ctx : AudioContext) (sampleRate : Z)
    : Prop :=
  ∃ buffer channelData,
    decode_pipeline (Some (spec_base64 (spec_le_bytes V))) ctx sampleRate 1
    = Ok buffer
    ∧ ab_length buffer = length V
    ∧ ab_channels buffer = [channelData]
    ∧ length channelData = length V
    ∧ ∀ i v, V !! i = Some v →
        ∃ q, channelData !! i = Some (Num q)
             ∧ (Qabs (q - inject_Z v / 32768) <= 1 # 1000000)%Q.

(** Rejection of every string that holds a character outside the base64
    alphabet (the padding character [=] set aside). *)
Definition rejects_foreign_characters_claim (s : string) : Prop :=
  ∀ c, In c (list_ascii_of_string s) →
       is_base64_char c = false → c ≠ "="%char →
       ∃ e, decodeBase64 (Some s) = Throw e.

(** ** The service functions: [analyzeImage], [translateResult],
    [generateSpeech]

    The three functions call the generative service through the SDK's
    [ai.models.generateContent]. The service, [JSON.parse] and
    [JSON.stringify] are parameters of the model: every property below holds
    whatever they answer. A computation returns the list of the calls it
    made to the outside ([event]s, in order) and either a value or what it
    threw. *)

Inductive thrown : Type :=
  | PlatformError (e : error)       (* a platform exception, as above *)
  | ErrorObject (message : string)  (* [new Error(message)] *)
  | Rejection (reason : string).    (* what the service or the parser throws *)

Inductive attempt (A : Type) : Type :=
  | Returned (a : A)
  | Thrown (x : thrown).
Arguments Returned {A} a.
Arguments Thrown {A} x.

(** The request object, by the fields the three functions set. The image
    data is [None] when the caller passes [undefined], as [startAnalysis]
    does for an image without a comma. *)
Record InlineData : Type := {
  inline_mimeType : string;
  inline_data : option string
}.

Inductive RequestPart : Type :=
  | TextPart (text : string)
  | InlineDataPart (inlineData : InlineData).

Inductive RequestContent : Type :=
  | Parts (parts : list RequestPart)    (* [{ parts: [...] }] *)
  | Text (text : string).               (* [{ text: ... }] *)

Inductive RequestConfig : Type :=
  | JsonConfig     (* [responseMimeType: "application/json"], [ANALYSIS_SCHEMA] *)
  | SpeechConfig (voiceName : string).  (* [responseModalities: [AUDIO]] *)

Record request : Type := {
  req_model : string;
  req_contents : list RequestContent;
  req_config : RequestConfig
}.

(** The response object, by the fields the three functions read; an absent
    field is [None]. *)
Record ResponseBlob : Type := { blob_data : option string }.
Record ResponsePart : Type := { part_inlineData : option ResponseBlob }.
Record ResponseContent : Type := { content_parts : option (list ResponsePart) }.
Record Candidate : Type := { candidate_content : option ResponseContent }.
Record GenerateContentResponse : Type := {
  response_text : option string;
  response_candidates : option (list Candidate)
}.

Inductive event : Type :=
  | ServiceCall (req : request)
  | ConsoleError (label : string) (x : thrown)
  | SetLoading (b : bool)
  | SetIsPlaying (b : bool)
  | NewAudioContext (sampleRate : Z)
  | ResumeContext
  | CreateBufferSource
  | SetSourceBuffer (buffer : AudioBuffer)
  | ConnectDestination
  | SetOnEnded
  | StartSource
  | Alert (message : string).

(** A computation over calls of type [E]: the calls it made, in order, and
    the value it returned or what it threw. *)
Definition Eff_of (E A : Type) : Type := list E * attempt A.

Definition Eff_ret {E A : Type} (a : A) : Eff_of E A := ([], Returned a).
Definition Eff_bind {E A B : Type} (m : Eff_of E A) (k : A → Eff_of E B)
    : Eff_of E B :=
  match m with
  | (l, Returned a) => let '(l', r) := k a in (l ++ l', r)
  | (l, Thrown x) => (l, Thrown x)
  end.
#[global] Instance Eff_mret {E : Type} : MRet (Eff_of E) := @Eff_ret E.
#[global] Instance Eff_mbind {E : Type} : MBind (Eff_of E) :=
  λ A B k m, Eff_bind m k.

(** The computations of the service functions and of the audio control. *)
Abbreviation Eff := (Eff_of event).

Definition throw {E A : Type} (x : thrown) : Eff_of E A := ([], Thrown x).
Definition emit {E : Type} (e : E) : Eff_of E unit := ([e], Returned tt).

(** A call to the outside: the event, and the outcome the outside gives. *)
Definition external {E A : Type} (e : E) (outcome : attempt A) : Eff_of E A :=
  ([e], outcome).

(** [try { body } catch (err) { handler(err) }] *)
Definition try_catch {E A : Type} (body : Eff_of E A)
    (handler : thrown → Eff_of E A) : Eff_of E A :=
  match body with
  | (l, Returned a) => (l, Returned a)
  | (l, Thrown x) => let '(l', r) := handler x in (l ++ l', r)
  end.

(** [try { body } finally { final }], [final] throwing nothing. *)
Definition try_finally {E A : Type} (body : Eff_of E A) (final : list E)
    : Eff_of E A :=
  let '(l, r) := body in (l ++ final, r).

(** The platform's outcome of a decoding step, as a thrown value. *)
Definition of_result {E A : Type} (r : result A) : Eff_of E A :=
  match r with
  | Ok a => ([], Returned a)
  | Throw e => ([], Thrown (PlatformError e))
  end.

(** A computation run inside a larger one, its calls recorded as [f] says. *)
Definition calls_of {E E' A : Type} (f : E → E') (m : Eff_of E A) : Eff_of E' A :=
  (map f m.1, m.2).

(** [s.toLowerCase()], on 8-bit characters: the letters A to Z and the
    upper-case letters of Latin-1 (U+00C0 to U+00DE, U+00D7 apart). *)
Definition toLowerCase_char (c : ascii) : ascii :=
  let n := nat_of_ascii c in
  if ((65 <=? n) && (n <=? 90))
     || ((192 <=? n) && (n <=? 214))
     || ((216 <=? n) && (n <=? 222))
  then ascii_of_nat (n + 32) else c.

Fixpoint toLowerCase (s : string) : string :=
  match s with
  | EmptyString => EmptyString
  | String c s' => String (toLowerCase_char c) (toLowerCase s')
  end.

Section Service.

Variable AnalysisResult : Type.
Variable generateContent : request → attempt GenerateContentResponse.
Variable JSON_parse : string → attempt AnalysisResult.
Variable JSON_stringify : AnalysisResult → string.

(** [await ai.models.generateContent(req)] *)
Definition call_service (req : request) : Eff GenerateContentResponse :=
  external (ServiceCall req) (generateContent req).

Definition analyzeImage_request (base64Image : option string) : request :=
  {| req_model := "gemini-3-flash-preview";
     req_contents :=
       [Parts [InlineDataPart {| inline_mimeType := "image/jpeg";
                                 inline_data := base64Image |};
               TextPart "Analyze this image in extreme detail as an expert visual analyst.
  Identify subjects, environment, mood, and subtle details. 
  Provide exactly 4 alternative captions in the 'variants' array.
  All output must be in English.
  Return valid JSON."]];
     req_config := JsonConfig |}.

(** [const text = response.text; if (!text) throw new Error(message);
     return JSON.parse(text);] *)
Definition parse_text (response : GenerateContentResponse) (message : string)
    : Eff AnalysisResult :=
  match response_text response with
  | Some text =>
    if String.eqb text "" then throw (ErrorObject message)
    else ([], JSON_parse text)
  | None => throw (ErrorObject message)
  end.

Definition analyzeImage (base64Image : option string) : Eff AnalysisResult :=
  try_catch
    (response ← call_service (analyzeImage_request base64Image);
     parse_text response "Empty response from AI model.")
    (λ err, emit (ConsoleError "Analysis Error:" err);; throw err).

Definition translateResult_request (result : AnalysisResult)
    (targetLanguage : string) : request :=
  {| req_model := "gemini-3-flash-preview";
     req_contents :=
       [Text ("Translate this image analysis JSON into " ++ targetLanguage
              ++ ". 
  Keep the same JSON structure. Maintain professional, descriptive language.
  
  JSON: " ++ JSON_stringify result)%string];
     req_config := JsonConfig |}.

Definition translateResult (result : AnalysisResult) (targetLanguage : string)
    : Eff AnalysisResult :=
  if String.eqb (toLowerCase targetLanguage) "english" then mret result
  else
    try_catch
      (response ← call_service (translateResult_request result targetLanguage);
       parse_text response "Translation failed - empty response.")
      (λ err, emit (ConsoleError "Translation Error:" err);; throw err).

Definition generateSpeech_request (text : string) : request :=
  {| req_model := "gemini-2.5-flash-preview-tts";
     req_contents := [Parts [TextPart ("Say clearly: " ++ text)%string]];
     req_config := SpeechConfig "Kore" |}.

(** [response.candidates?.[0]?.content?.parts?.[0]?.inlineData?.data] *)
Definition first_inline_data (response : GenerateContentResponse) : option string :=
  candidates ← response_candidates response;
  candidate ← candidates !! 0;
  content ← candidate_content candidate;
  parts ← content_parts content;
  part ← parts !! 0;
  inlineData ← part_inlineData part;
  blob_data inlineData.

Definition generateSpeech (text : string) : Eff string :=
  response ← call_service (generateSpeech_request text);
  match first_inline_data response with
  | Some base64Audio =>
    if String.eqb base64Audio "" then throw (ErrorObject "Audio generation failed.")
    else mret base64Audio
  | None => throw (ErrorObject "Audio generation failed.")
  end.

(** ** The audio control: [handlePlay]

    The outcomes of the platform's audio calls are the fields of [audio_env];
    the handler is a function of the values of [loading] and [isPlaying] it
    was rendered with and of [audioCtxRef.current], and gives the calls it
    makes, in order, and the new [audioCtxRef.current]. *)

Record audio_env : Type := {
  env_new_context : attempt AudioContext;
  env_suspended : AudioContext → bool;
  env_resume : attempt unit;
  env_createBufferSource : attempt unit;
  env_set_buffer : attempt unit;
  env_connect : attempt unit;
  env_start : attempt unit
}.

(** [if (!audioCtxRef.current) audioCtxRef.current = new AudioContext(...)] *)
Definition ensure_context (env : audio_env) (ref : option AudioContext)
    : Eff AudioContext :=
  match ref with
  | Some ctx => mret ctx
  | None => external (NewAudioContext 24000) (env_new_context env)
  end.

Definition ref_after (env : audio_env) (ref : option AudioContext)
    : option AudioContext :=
  match ref with
  | Some ctx => Some ctx
  | None =>
    match env_new_context env with
    | Returned ctx => Some ctx
    | Thrown _ => None
    end
  end.

Definition handlePlay_try (env : audio_env) (text : string)
    (ref : option AudioContext) : Eff unit :=
  ctx ← ensure_context env ref;
  (if env_suspended env ctx then external ResumeContext (env_resume env)
   else mret tt);;
  base64Audio ← generateSpeech text;
  bytes ← of_result (decodeBase64 (Some base64Audio));
  audioBuffer ← of_result (decodeAudioData (Some bytes) ctx default_sampleRate
                             default_numChannels);
  external CreateBufferSource (env_createBufferSource env);;
  external (SetSourceBuffer audioBuffer) (env_set_buffer env);;
  external ConnectDestination (env_connect env);;
  emit SetOnEnded;;
  emit (SetIsPlaying true);;
  external StartSource (env_start env).

Definition handlePlay_catch (err : thrown) : Eff unit :=
  emit (ConsoleError "Speech generation or playback failed:" err);;
  emit (Alert "Voice playback failed. This may be due to browser restrictions or API limitations.");;
  emit (SetIsPlaying false).

Definition handlePlay (env : audio_env) (text : string) (loading isPlaying : bool)
    (ref : option AudioContext) : list event * option AudioContext :=
  if loading || isPlaying then ([], ref)
  else
    let run :=
      emit (SetLoading true);;
      try_finally
        (try_catch (handlePlay_try env text ref) handlePlay_catch)
        [SetLoading false] in
    (run.1, ref_after env ref).

End Service.

Arguments parse_text {AnalysisResult} JSON_parse response message.
Arguments analyzeImage {AnalysisResult} generateContent JSON_parse base64Image.
Arguments translateResult_request {AnalysisResult} JSON_stringify result
  targetLanguage.
Arguments translateResult {AnalysisResult} generateContent JSON_parse
  JSON_stringify result targetLanguage.

(** The value a state variable has after a sequence of calls: that of the
    last call to its setter. *)
Fixpoint isPlaying_after (trace : list event) (isPlaying : bool) : bool :=
  match trace with
  | [] => isPlaying
  | SetIsPlaying b :: trace' => isPlaying_after trace' b
  | _ :: trace' => isPlaying_after trace' isPlaying
  end.

Fixpoint loading_after (trace : list event) (loading : bool) : bool :=
  match trace with
  | [] => loading
  | SetLoading b :: trace' => loading_after trace' b
  | _ :: trace' => loading_after trace' loading
  end.

(** [t] spells [target], a word in lower-case letters, in letters of
    either case. *)
Definition same_letter (c d : ascii) : Prop :=
  c = d ∨ nat_of_ascii c + 32 = nat_of_ascii d.

Definition spells (t target : string) : Prop :=
  Forall2 same_letter (list_ascii_of_string t) (list_ascii_of_string target).

(** ** The application: [startAnalysis] and [handleLanguageChange]

    The two handlers of [App] that call the service functions. [types.ts]
    is not among the sources: the type [Language], the two fields of a
    language the handlers read and the list [SUPPORTED_LANGUAGES] are
    parameters, and so is the truth value that JavaScript gives to an
    analysis result. A handler is a function of the state it was rendered
    with, and gives the calls it makes, in order: those of the service
    functions ([Call]), and those of the state setters. *)

Inductive app_event (AnalysisResult Language : Type) : Type :=
  | Call (e : event)
  | SetIsAnalyzing (b : bool)
  | SetIsTranslating (b : bool)
  | SetEnglishResult (r : AnalysisResult)
  | SetTranslatedResult (r : AnalysisResult)
  | SetSelectedLang (lang : Language)
  | SetError (message : option string).
Arguments Call {AnalysisResult Language} e.
Arguments SetIsAnalyzing {AnalysisResult Language} b.
Arguments SetIsTranslating {AnalysisResult Language} b.
Arguments SetEnglishResult {AnalysisResult Language} r.
Arguments SetTranslatedResult {AnalysisResult Language} r.
Arguments SetSelectedLang {AnalysisResult Language} lang.
Arguments SetError {AnalysisResult Language} message.

Record AppState (AnalysisResult Language : Type) : Type := {
  st_image : option string;
  st_isAnalyzing : bool;
  st_isTranslating : bool;
  st_englishResult : option AnalysisResult;
  st_translatedResult : option AnalysisResult;
  st_selectedLang : Language;
  st_error : option string
}.
Arguments st_image {AnalysisResult Language} _.
Arguments st_isAnalyzing {AnalysisResult Language} _.
Arguments st_isTranslating {AnalysisResult Language} _.
Arguments st_englishResult {AnalysisResult Language} _.
Arguments st_translatedResult {AnalysisResult Language} _.
Arguments st_selectedLang {AnalysisResult Language} _.
Arguments st_error {AnalysisResult Language} _.

(** The state after a call: a setter replaces its variable. *)
Definition set_state {AnalysisResult Language : Type}
    (st : AppState AnalysisResult Language)
    (e : app_event AnalysisResult Language) : AppState AnalysisResult Language :=
  match e with
  | Call _ => st
  | SetIsAnalyzing b =>
    {| st_image := st_image st; st_isAnalyzing := b;
       st_isTranslating := st_isTranslating st;
       st_englishResult := st_englishResult st;
       st_translatedResult := st_translatedResult st;
       st_selectedLang := st_selectedLang st; st_error := st_error st |}
  | SetIsTranslating b =>
    {| st_image := st_image st; st_isAnalyzing := st_isAnalyzing st;
       st_isTranslating := b;
       st_englishResult := st_englishResult st;
       st_translatedResult := st_translatedResult st;
       st_selectedLang := st_selectedLang st; st_error := st_error st |}
  | SetEnglishResult r =>
    {| st_image := st_image st; st_isAnalyzing := st_isAnalyzing st;
       st_isTranslating := st_isTranslating st;
       st_englishResult := Some r;
       st_translatedResult := st_translatedResult st;
       st_selectedLang := st_selectedLang st; st_error := st_error st |}
  | SetTranslatedResult r =>
    {| st_image := st_image st; st_isAnalyzing := st_isAnalyzing st;
       st_isTranslating := st_isTranslating st;
       st_englishResult := st_englishResult st;
       st_translatedResult := Some r;
       st_selectedLang := st_selectedLang st; st_error := st_error st |}
  | SetSelectedLang lang =>
    {| st_image := st_image st; st_isAnalyzing := st_isAnalyzing st;
       st_isTranslating := st_isTranslating st;
       st_englishResult := st_englishResult st;
       st_translatedResult := st_translatedResult st;
       st_selectedLang := lang; st_error := st_error st |}
  | SetError message =>
    {| st_image := st_image st; st_isAnalyzing := st_isAnalyzing st;
       st_isTranslating := st_isTranslating st;
       st_englishResult := st_englishResult st;
       st_translatedResult := st_translatedResult st;
       st_selectedLang := st_selectedLang st; st_error := message |}
  end.

(** The state once the calls of a handler have taken effect. *)
Definition state_after {AnalysisResult Language : Type}
    (calls : list (app_event AnalysisResult Language))
    (st : AppState AnalysisResult Language) : AppState AnalysisResult Language :=
  fold_left set_state calls st.

(** [s.split(sep)], for a separator of one character. *)
Fixpoint split (sep : ascii) (s : string) : list string :=
  match s with
  | EmptyString => [EmptyString]
  | String c s' =>
    if Ascii.eqb c sep then EmptyString :: split sep s'
    else
      match split sep s' with
      | piece :: pieces => String c piece :: pieces
      | [] => [String c EmptyString]
      end
  end.

Section App.

Variables AnalysisResult Language : Type.
Variable generateContent : request → attempt GenerateContentResponse.
Variable JSON_parse : string → attempt AnalysisResult.
Variable JSON_stringify : AnalysisResult → string.
Variable truthy : AnalysisResult → bool.
Variables lang_code lang_name : Language → string.
Variable SUPPORTED_LANGUAGES : list Language.

Definition startAnalysis_try (image : string) (selectedLang : Language)
    : Eff_of (app_event AnalysisResult Language) unit :=
  let base64Data := split "," image !! 1 in
  data ← calls_of Call (analyzeImage generateContent JSON_parse base64Data);
  emit (SetEnglishResult data);;
  if negb (String.eqb (lang_code selectedLang) "en") then
    emit (SetIsTranslating true);;
    translated ← calls_of Call
                   (translateResult generateContent JSON_parse JSON_stringify
                      data (lang_name selectedLang));
    emit (SetTranslatedResult translated)
  else emit (SetTranslatedResult data).

Definition startAnalysis_catch (err : thrown)
    : Eff_of (app_event AnalysisResult Language) unit :=
  emit (Call (ConsoleError "App Analysis Error:" err));;
  emit (SetError (Some "AI was unable to process this image. Please ensure it is a clear JPG/PNG."%string)).

Definition startAnalysis (st : AppState AnalysisResult Language)
    : list (app_event AnalysisResult Language) :=
  match st_image st with
  | None => []
  | Some image =>
    if String.eqb image "" then []
    else
      (emit (SetIsAnalyzing true);;
       emit (SetError None);;
       try_finally
         (try_catch (startAnalysis_try image (st_selectedLang st))
            startAnalysis_catch)
         [SetIsAnalyzing false; SetIsTranslating false]).1
  end.

Definition handleLanguageChange_try (englishResult : AnalysisResult)
    (lang : Language) : Eff_of (app_event AnalysisResult Language) unit :=
  translated ← calls_of Call
                 (translateResult generateContent JSON_parse JSON_stringify
                    englishResult (lang_name lang));
  emit (SetTranslatedResult translated).

Definition handleLanguageChange_catch (englishResult : AnalysisResult)
    (err : thrown) : Eff_of (app_event AnalysisResult Language) unit :=
  emit (Call (ConsoleError "App Translation Error:" err));;
  emit (SetError (Some "Translation failed. Results will remain in English."%string));;
  emit (SetTranslatedResult englishResult).

Definition handleLanguageChange (st : AppState AnalysisResult Language)
    (code : string) : list (app_event AnalysisResult Language) :=
  match find (λ l, String.eqb (lang_code l) code) SUPPORTED_LANGUAGES with
  | None => []
  | Some lang =>
    (emit (SetSelectedLang lang);;
     match st_englishResult st with
     | Some englishResult =>
       if truthy englishResult then
         emit (SetIsTranslating true);;
         emit (SetError None);;
         try_finally
           (try_catch (handleLanguageChange_try englishResult lang)
              (handleLanguageChange_catch englishResult))
           [SetIsTranslating false]
       else mret tt
     | None => mret tt
     end).1
  end.

End App.

Arguments startAnalysis_try {AnalysisResult Language} generateContent JSON_parse
  JSON_stringify lang_code lang_name image selectedLang.
Arguments startAnalysis_catch {AnalysisResult Language} err.
Arguments startAnalysis {AnalysisResult Language} generateContent JSON_parse
  JSON_stringify lang_code lang_name st.
Arguments handleLanguageChange_try {AnalysisResult Language} generateContent
  JSON_parse JSON_stringify lang_name englishResult lang.
Arguments handleLanguageChange_catch {AnalysisResult Language} englishResult err.
Arguments handleLanguageChange {AnalysisResult Language} generateContent
  JSON_parse JSON_stringify truthy lang_code lang_name SUPPORTED_LANGUAGES st code.

(** The calls the [try] block of [handlePlay] can make: neither the
    [loading] setter, nor the report of a failure, which belong to the
    [catch] and [finally] blocks. *)
Definition try_event (e : event) : Prop :=
  match e with
  | SetLoading _ | Alert _ | ConsoleError _ _ | SetIsPlaying false => False
  | _ => True
  end.

(** The calls of a run of [handlePlay]'s [try] block that reaches
    [source.start()], in order. *)
Definition context_calls (ref : option AudioContext) : list event :=
  match ref with
  | Some _ => []
  | None => [NewAudioContext 24000]
  end.

Definition playback_calls (env : audio_env) (text : string)
    (ref : option AudioContext) (ctx : AudioContext) (audioBuffer : AudioBuffer)
    : list event :=
  context_calls ref
  ++ (if env_suspended env ctx then [ResumeContext] else [])
  ++ [ServiceCall (generateSpeech_request text); CreateBufferSource;
      SetSourceBuffer audioBuffer; ConnectDestination; SetOnEnded;
      SetIsPlaying true; StartSource].

(** What the [catch] block of [handlePlay] does with the error [x]. *)
Definition failure_report (x : thrown) : list event :=
  [ConsoleError "Speech generation or playback failed:" x;
   Alert "Voice playback failed. This may be due to browser restrictions or API limitations.";
   SetIsPlaying false].

(** ** Sample surroundings

    A service that answers every request with the inline data [data], one
    that answers with the text [text], one that fails, and a platform whose
    audio calls all succeed. *)
Definition speech_response (data : string) : GenerateContentResponse :=
  {| response_text := None;
     response_candidates :=
       Some [{| candidate_content :=
                  Some {| content_parts :=
                            Some [{| part_inlineData :=
                                       Some {| blob_data := Some data |} |}] |} |}] |}.

Definition text_response (text : string) : GenerateContentResponse :=
  {| response_text := Some text; response_candidates := None |}.

Definition answering (response : GenerateContentResponse)
    : request → attempt GenerateContentResponse :=
  λ _, Returned response.

Definition offline : request → attempt GenerateContentResponse :=
  λ _, Thrown (Rejection "Failed to fetch").

Definition working_audio : audio_env :=
  {| env_new_context := Returned audioCtx;
     env_suspended := λ _, false;
     env_resume := Returned tt;
     env_createBufferSource := Returned tt;
     env_set_buffer := Returned tt;
     env_connect := Returned tt;
     env_start := Returned tt |}.

(** A list of languages, each a code and a name, and a state of the
    application with an image loaded. *)
Definition sample_languages : list (string * string) :=
  [("en", "English"); ("fr", "French")]%string.

Definition sample_state (englishResult : option string)
    : AppState string (string * string) :=
  {| st_image := Some "data:image/png;base64,AAAA"%string;
     st_isAnalyzing := false;
     st_isTranslating := false;
     st_englishResult := englishResult;
     st_translatedResult := englishResult;
     st_selectedLang := ("en", "English")%string;
     st_error := None |}.

(** The string [s] holds no comma. *)
Definition no_comma (s : string) : Prop :=
  ¬ In ","%char (list_ascii_of_string s).

(** * Properties *)

(** ** Loops leave by their guard *)

Lemma for_loop_seq {St : Type} (cond : nat → bool) (body : nat → St → St) :
  ∀ n fuel i (s : St),
    (∀ j, i ≤ j < i + n → cond j = true) →
    cond (i + n) = false →
    n < fuel →
    for_loop fuel cond body i s = foldl (λ s j, body j s) s (seq i n).
Proof.
  induction n as [|n IH]; intros fuel i s Hin Hout Hfuel.
  - destruct fuel as [|fuel]; [lia|]. simpl.
    replace (i + 0) with i in Hout by lia. by rewrite Hout.
  - destruct fuel as [|fuel]; [lia|]. simpl.
    rewrite Hin by lia. apply IH.
    + intros j Hj. apply Hin. lia.
    + by replace (S i + n) with (i + S n) by lia.
    + lia.
Qed.

(** More fuel changes nothing once the guard has failed. *)
Lemma for_loop_fuel {St : Type} (cond : nat → bool) (body : nat → St → St)
    n fuel fuel' i (s : St) :
  (∀ j, i ≤ j < i + n → cond j = true) →
  cond (i + n) = false →
  n < fuel → n < fuel' →
  for_loop fuel cond body i s = for_loop fuel' cond body i s.
Proof.
  intros Hin Hout H1 H2.
  by rewrite !(for_loop_seq cond body n) by done.
Qed.

(** ** Bytes and samples *)

Lemma byte_to_Z_range (x : byte) : (0 ≤ byte_to_Z x < 256)%Z.
Proof.
  unfold byte_to_Z. pose proof (Byte.to_N_bounded x). lia.
Qed.

(** The little-endian reading, arithmetically. *)
Lemma int16_le_arith (lo hi : byte) :
  int16_le lo hi =
    (let u := byte_to_Z lo + 256 * byte_to_Z hi in
     if u <? 32768 then u else u - 65536)%Z.
Proof.
  unfold int16_le.
  pose proof (byte_to_Z_range lo) as Hlo. pose proof (byte_to_Z_range hi) as Hhi.
  assert (Hdisj : Z.land (byte_to_Z lo) (byte_to_Z hi * 2 ^ 8) = 0%Z).
  { apply Z.bits_inj'. intros n Hn. rewrite Z.land_spec, Z.bits_0.
    destruct (Z.lt_ge_cases n 8) as [Hlt|Hge].
    - rewrite (Z.mul_pow2_bits_low _ _ _ Hlt). apply andb_false_r.
    - destruct (Z.eq_dec (byte_to_Z lo) 0%Z) as [->|Hnz];
        [by rewrite Z.bits_0|].
      rewrite (Z.bits_above_log2 (byte_to_Z lo)); [done| lia |].
      apply Z.lt_le_trans with 8%Z; [|done].
      apply Z.log2_lt_pow2; [lia|]. change (2 ^ 8)%Z with 256%Z. lia. }
  assert (Hu : Z.lor (byte_to_Z lo) (Z.shiftl (byte_to_Z hi) 8)
               = (byte_to_Z lo + 256 * byte_to_Z hi)%Z).
  { rewrite Z.shiftl_mul_pow2 by lia.
    rewrite <- (Z.lxor_lor _ _ Hdisj), <- (Z.add_nocarry_lxor _ _ Hdisj).
    change (2 ^ 8)%Z with 256%Z. lia. }
  rewrite Hu. cbv zeta.
  set (u := (byte_to_Z lo + 256 * byte_to_Z hi)%Z).
  assert (Hur : (0 ≤ u < 65536)%Z) by (unfold u; lia).
  assert (Hb : Z.testbit u 15 = negb (u <? 32768)%Z).
  { destruct (Z.ltb_spec u 32768) as [Hs|Hs]; cbn [negb].
    - apply Z.testbit_false; [lia|].
      change (2 ^ 15)%Z with 32768%Z. by rewrite Z.div_small by lia.
    - apply Z.testbit_true; [lia|].
      change (2 ^ 15)%Z with 32768%Z.
      replace (u / 32768)%Z with 1%Z; [done|].
      apply Z.div_unique with (r := (u - 32768)%Z); lia. }
  rewrite Hb. by destruct (u <? 32768)%Z.
Qed.


Ltac Zify.zify_post_hook ::= Z.div_mod_to_equations.

Lemma list_pair_ind {A : Type} (P : list A → Prop) :
  P [] → (∀ x, P [x]) → (∀ x y l, P l → P (x :: y :: l)) → ∀ l, P l.
Proof.
  intros Hnil Hone Hstep l.
  cut (P l ∧ ∀ x, P (x :: l)); [by intros [? _]|].
  induction l as [|y l [IH1 IH2]]; [done|].
  split; [apply IH2|]. intros x. by apply Hstep.
Qed.

Lemma spec_PCMSampleBuffer_length (bs : list byte) :
  length (spec_PCMSampleBuffer bs) = length bs / 2.
Proof.
  induction bs as [|x|x y l IH] using list_pair_ind; [done..|].
  cbn [spec_PCMSampleBuffer length]. rewrite IH. lia.
Qed.

Lemma spec_PCMSampleBuffer_lookup (bs : list byte) (k : nat) :
  spec_PCMSampleBuffer bs !! k =
    (lo ← bs !! (2 * k); hi ← bs !! (2 * k + 1); Some (int16_le lo hi)).
Proof.
  revert k. induction bs as [|x|x y l IH] using list_pair_ind; intros k.
  - done.
  - by destruct k as [|k]; [|replace (2 * S k) with (S (S (2 * k))) by lia].
  - destruct k as [|k]; [done|].
    cbn [spec_PCMSampleBuffer]. rewrite lookup_cons_ne_0 by lia. cbn [pred].
    rewrite IH.
    replace (2 * S k) with (S (S (2 * k))) by lia.
    by replace (S (S (2 * k)) + 1) with (S (S (2 * k + 1))) by lia.
Qed.

(** An odd trailing byte belongs to no sample. *)
Lemma spec_PCMSampleBuffer_odd (bs : list byte) (x : byte) :
  length bs mod 2 = 0 →
  spec_PCMSampleBuffer (bs ++ [x]) = spec_PCMSampleBuffer bs.
Proof.
  induction bs as [|y|y z l IH] using list_pair_ind; intros Hlen.
  - done.
  - done.
  - cbn [app spec_PCMSampleBuffer]. rewrite IH; [done|].
    cbn [length] in Hlen. lia.
Qed.

(** ** The 16-bit view of a whole array *)

Lemma bufferToUse_of (bs : list byte) :
  bufferToUse (Uint8Array_of bs) = take (2 * (length bs / 2)) bs.
Proof.
  unfold bufferToUse, ArrayBuffer_slice. cbn [Uint8Array_of u8_byteLength u8_buffer].
  destruct (Nat.eqb_spec (length bs mod 2) 0) as [Hev|Hodd].
  - rewrite take_ge; [done|lia].
  - rewrite drop_0. f_equal. lia.
Qed.

Lemma dataInt16_of_whole (bs : list byte) :
  dataInt16_of (Uint8Array_of bs) =
    Ok {| i16_buffer := take (2 * (length bs / 2)) bs;
          i16_byteOffset := 0;
          i16_length := length bs / 2 |}.
Proof.
  unfold dataInt16_of, Int16Array_new. rewrite bufferToUse_of.
  cbn [Uint8Array_of u8_byteOffset u8_byteLength].
  change (0 mod 2 =? 0) with true. cbn [negb].
  destruct (Nat.ltb_spec (length (take (2 * (length bs / 2)) bs))
              (0 + length bs / 2 * 2)) as [Hlt|Hge]; [|done].
  rewrite length_take in Hlt. lia.
Qed.

Lemma Int16Array_get_whole (bs : list byte) (k : nat) :
  Int16Array_get {| i16_buffer := take (2 * (length bs / 2)) bs;
                    i16_byteOffset := 0;
                    i16_length := length bs / 2 |} k
  = spec_PCMSampleBuffer bs !! k.
Proof.
  unfold Int16Array_get. cbn [i16_buffer i16_byteOffset i16_length].
  rewrite spec_PCMSampleBuffer_lookup.
  destruct (decide (k < length bs / 2)) as [Hk|Hk].
  - rewrite !Nat.add_0_l. by rewrite !lookup_take_lt by lia.
  - rewrite (lookup_ge_None_2 bs (2 * k + 1)) by lia.
    by destruct (bs !! (2 * k)).
Qed.

(** ** The loop bound *)

Lemma lt_frameCount_spec (len numChannels i : nat) :
  0 < numChannels →
  lt_frameCount (inject_Z (Z.of_nat len) / inject_Z (Z.of_nat numChannels))%Q i = true
  ↔ i * numChannels < len.
Proof.
  intros Hnc. unfold lt_frameCount.
  destruct numChannels as [|n]; [lia|].
  assert (Hq : ∀ a : Z,
    ((a # 1) * / (Z.of_nat (S n) # 1) == a # Pos.of_succ_nat n)%Q).
  { intros a. change (Z.of_nat (S n)) with (Z.pos (Pos.of_succ_nat n)).
    unfold Qeq, Qmult, Qinv. cbn. lia. }
  destruct (Qlt_le_dec _ _) as [Hlt|Hle].
  - split; [intros _|done].
    unfold Qdiv, inject_Z in Hlt. rewrite Hq in Hlt.
    unfold Qlt in Hlt. cbn in Hlt. lia.
  - split; [done|intros Hi; exfalso].
    unfold Qdiv, inject_Z in Hle. rewrite Hq in Hle.
    unfold Qle in Hle. cbn in Hle. lia.
Qed.

Lemma floor_frameCount (len numChannels : nat) :
  Z.to_nat (Qfloor (inject_Z (Z.of_nat len) / inject_Z (Z.of_nat numChannels))%Q)
  = len / numChannels.
Proof.
  rewrite <- Zdiv_Qdiv, <- Nat2Z.inj_div. apply Nat2Z.id.
Qed.

(** ** The two loops of [decodeAudioData] *)

Lemma foldl_insert_seq_length {A : Type} (f : nat → A) (n : nat) (l : list A) :
  length (foldl (λ l j, <[j := f j]> l) l (seq 0 n)) = length l.
Proof.
  induction n as [|n IH]; [done|].
  by rewrite seq_S, foldl_app, Nat.add_0_l; cbn [foldl]; rewrite length_insert.
Qed.

Lemma foldl_insert_seq_lookup {A : Type} (f : nat → A) (n : nat) (l : list A) (i : nat) :
  foldl (λ l j, <[j := f j]> l) l (seq 0 n) !! i =
    if decide (i < n ∧ i < length l) then Some (f i) else l !! i.
Proof.
  revert i. induction n as [|n IH]; intros i.
  - cbn [seq foldl]. case_decide; [lia|done].
  - rewrite seq_S, foldl_app, Nat.add_0_l. cbn [foldl].
    destruct (decide (i = n)) as [->|Hne].
    + destruct (decide (n < length l)) as [Hlt|Hge].
      * rewrite list_lookup_insert_eq by (by rewrite foldl_insert_seq_length).
        case_decide; [done|lia].
      * rewrite list_insert_ge by (rewrite foldl_insert_seq_length; lia).
        rewrite IH. repeat case_decide; try lia; done.
    + rewrite list_lookup_insert_ne by done. rewrite IH.
      repeat case_decide; try lia; done.
Qed.

(** On an array that holds exactly [bs], the inner loop writes one channel
    of the de-interleaved samples. The loop runs
    [ceil (samples / numChannels)] times; its last pass, when the quotient
    is not whole, writes past the end of [channelData] and is ignored. *)
Lemma fill_channel_whole (bs : list byte) (numChannels channel : nat)
    (channelData : list number) :
  let dataInt16 := {| i16_buffer := take (2 * (length bs / 2)) bs;
                      i16_byteOffset := 0;
                      i16_length := length bs / 2 |} in
  0 < numChannels →
  length channelData = length bs / 2 / numChannels →
  fill_channel dataInt16 (frameCount_of dataInt16 numChannels) numChannels channel
    channelData
  = spec_channel (spec_PCMSampleBuffer bs) numChannels
      (length bs / 2 / numChannels) channel.
Proof.
  intros dataInt16 Hnc Hlen. unfold fill_channel, frameCount_of.
  cbn [dataInt16 i16_length].
  set (len := length bs / 2) in *.
  set (n := (len + numChannels - 1) / numChannels).
  assert (Hn1 : n * numChannels < len + numChannels) by (unfold n; nia).
  assert (Hn2 : len ≤ n * numChannels).
  { unfold n.
    pose proof (Nat.div_mod_eq (len + numChannels - 1) numChannels).
    pose proof (Nat.mod_upper_bound (len + numChannels - 1) numChannels).
    nia. }
  assert (Hm : len / numChannels ≤ n).
  { unfold n. apply Nat.Div0.div_le_mono. lia. }
  rewrite (for_loop_seq _ _ n).
  - apply list_eq. intros i. rewrite foldl_insert_seq_lookup.
    unfold spec_channel. rewrite list_lookup_fmap.
    destruct (decide (i < len / numChannels)) as [Hi|Hi].
    + rewrite lookup_seq_lt by done. cbn [fmap option_fmap option_map].
      rewrite decide_True by lia.
      unfold dataInt16, len. by rewrite Int16Array_get_whole.
    + rewrite lookup_seq_ge by lia. cbn [fmap option_fmap option_map].
      rewrite decide_False by lia. apply lookup_ge_None_2. lia.
  - intros j Hj. apply lt_frameCount_spec; [done|]. nia.
  - apply not_true_is_false. rewrite lt_frameCount_spec by done. lia.
  - nia.
Qed.

(** The outer loop fills the channels in turn. *)
Lemma fill_buffer_fresh (dataInt16 : Int16Array) (frameCount : Q)
    (numChannels frames : nat) (sampleRate : Z) :
  fill_buffer dataInt16 frameCount numChannels
    (zero_filled numChannels frames sampleRate)
  = Ok {| numberOfChannels := numChannels;
          ab_length := frames;
          ab_sampleRate := sampleRate;
          ab_channels :=
            map (λ channel,
                   fill_channel dataInt16 frameCount numChannels channel
                     (replicate frames (Num 0)))
                (seq 0 numChannels) |}.
Proof.
  unfold fill_buffer.
  rewrite (for_loop_seq _ _ numChannels).
  2: { intros j Hj. apply Nat.ltb_lt. lia. }
  2: { apply Nat.ltb_ge. lia. }
  2: lia.
  set (g := λ channel, fill_channel dataInt16 frameCount numChannels channel
                         (replicate frames (Num 0))).
  set (body := λ (s : result AudioBuffer) (j : nat), _).
  assert (Hk : ∀ k, k ≤ numChannels →
    foldl body (Ok (zero_filled numChannels frames sampleRate)) (seq 0 k)
    = Ok {| numberOfChannels := numChannels;
            ab_length := frames;
            ab_sampleRate := sampleRate;
            ab_channels :=
              map g (seq 0 k) ++
              replicate (numChannels - k) (replicate frames (Num 0)) |}).
  { induction k as [|k IH]; intros Hle.
    - cbn [seq map foldl app]. by rewrite Nat.sub_0_r.
    - rewrite seq_S, foldl_app, IH by lia. rewrite Nat.add_0_l.
      cbn [foldl]. unfold body at 1. cbn [mbind result_bind].
      unfold getChannelData, setChannelData.
      cbn [ab_channels numberOfChannels ab_length ab_sampleRate].
      replace (numChannels - k) with (S (numChannels - S k)) by lia.
      cbn [replicate].
      rewrite lookup_app_r by (rewrite length_map, length_seq; lia).
      rewrite length_map, length_seq, Nat.sub_diag. cbn [lookup list_lookup].
      cbn [mbind result_bind]. f_equal. f_equal.
      rewrite insert_app_r_alt by (rewrite length_map, length_seq; lia).
      rewrite length_map, length_seq, Nat.sub_diag. cbn [insert list_insert].
      rewrite map_app. cbn [map]. by rewrite <- app_assoc. }
  rewrite Hk by lia. by rewrite Nat.sub_diag, app_nil_r.
Qed.

(** ** [createBuffer] *)

Lemma createBuffer_supports_accepts (ctx : AudioContext) (channels len : nat)
    (sampleRate : Z) :
  createBuffer_supports ctx channels len sampleRate = true
  ↔ accepts ctx channels sampleRate ∧ 1 ≤ len.
Proof.
  unfold createBuffer_supports, accepts.
  rewrite !andb_true_iff, !Nat.leb_le, !Z.leb_le, Z.ltb_lt. tauto.
Qed.

Lemma createBuffer_accepts (ctx : AudioContext) (channels len : nat)
    (sampleRate : Z) :
  accepts ctx channels sampleRate → 1 ≤ len →
  createBuffer ctx channels len sampleRate
  = Ok (zero_filled channels len sampleRate).
Proof.
  intros Hacc Hlen. unfold createBuffer.
  by rewrite (proj2 (createBuffer_supports_accepts _ _ _ _)).
Qed.

(** A buffer of no frame is refused, whatever the context. *)
Lemma createBuffer_no_frame (ctx : AudioContext) (channels : nat) (sampleRate : Z) :
  createBuffer ctx channels 0 sampleRate = Throw NotSupportedError.
Proof.
  unfold createBuffer, createBuffer_supports. cbn [Nat.leb].
  by rewrite andb_false_r.
Qed.


(** The only error of [createBuffer]. *)
Lemma createBuffer_Throw (ctx : AudioContext) (channels len : nat)
    (sampleRate : Z) (e : error) :
  createBuffer ctx channels len sampleRate = Throw e → e = NotSupportedError.
Proof.
  unfold createBuffer. destruct (createBuffer_supports _ _ _ _); congruence.
Qed.

(** ** [decodeAudioData] on a non-empty array: refinement of the
    specification's de-interleaving, once [createBuffer] has accepted its
    arguments. *)
Lemma decodeAudioData_nonempty_cases (bs : list byte) (ctx : AudioContext)
    (sampleRate : Z) (numChannels : nat) :
  bs ≠ [] →
  decodeAudioData (Some (Uint8Array_of bs)) ctx sampleRate numChannels
  = if createBuffer_supports ctx numChannels (length bs / 2 / numChannels)
         sampleRate
    then Ok (spec_deinterleave (spec_PCMSampleBuffer bs) numChannels
               (length bs / 2 / numChannels) sampleRate)
    else Throw NotSupportedError.
Proof.
  intros Hne. unfold decodeAudioData.
  cbn [Uint8Array_of u8_length u8_byteLength].
  destruct (Nat.eqb_spec (length bs) 0) as [H0|_].
  { by destruct bs. }
  rewrite dataInt16_of_whole. cbn [mbind result_bind].
  change (Z.to_nat (Qfloor (frameCount_of ?a numChannels)))
    with (Z.to_nat (Qfloor (inject_Z (Z.of_nat (i16_length a))
                            / inject_Z (Z.of_nat numChannels))%Q)).
  cbn [i16_length]. rewrite floor_frameCount.
  unfold createBuffer.
  destruct (createBuffer_supports ctx numChannels _ sampleRate); [|done].
  cbn [mbind result_bind]. rewrite fill_buffer_fresh. unfold spec_deinterleave. do 2 f_equal.
  apply map_ext_in. intros channel Hin. apply in_seq in Hin.
  apply fill_channel_whole; [lia|]. by rewrite length_replicate.
Qed.

Lemma decodeAudioData_nonempty (bs : list byte) (ctx : AudioContext)
    (sampleRate : Z) (numChannels : nat) :
  accepts ctx numChannels sampleRate →
  numChannels ≤ length bs / 2 →
  decodeAudioData (Some (Uint8Array_of bs)) ctx sampleRate numChannels
  = Ok (spec_deinterleave (spec_PCMSampleBuffer bs) numChannels
          (length bs / 2 / numChannels) sampleRate).
Proof.
  intros Hacc Hframe.
  assert (Hne : bs ≠ []).
  { intros ->. destruct Hacc as [[? _] _]. cbn in Hframe. lia. }
  rewrite decodeAudioData_nonempty_cases by done.
  rewrite (proj2 (createBuffer_supports_accepts _ _ _ _)); [done|].
  split; [done|]. destruct Hacc as [[? _] _].
  apply Nat.div_le_lower_bound; lia.
Qed.

(** A non-empty array that holds less than one frame: [createBuffer] is
    asked for a buffer of no frame. *)
Lemma decodeAudioData_no_frame (bs : list byte) (ctx : AudioContext)
    (sampleRate : Z) (numChannels : nat) :
  bs ≠ [] → length bs / 2 < numChannels →
  decodeAudioData (Some (Uint8Array_of bs)) ctx sampleRate numChannels
  = Throw NotSupportedError.
Proof.
  intros Hne Hshort. rewrite decodeAudioData_nonempty_cases by done.
  rewrite Nat.div_small by done.
  unfold createBuffer_supports. cbn [Nat.leb]. by rewrite andb_false_r.
Qed.

(** The guard of the first line: an empty or absent array. *)
Lemma decodeAudioData_empty (ctx : AudioContext) (sampleRate : Z) (numChannels : nat) :
  decodeAudioData (Some (Uint8Array_of [])) ctx sampleRate numChannels
  = createBuffer ctx numChannels 1 sampleRate.
Proof. done. Qed.

Lemma decodeAudioData_absent (ctx : AudioContext) (sampleRate : Z) (numChannels : nat) :
  decodeAudioData None ctx sampleRate numChannels
  = createBuffer ctx numChannels 1 sampleRate.
Proof. done. Qed.

(** ** [decodeBase64]: the copy loop *)

Lemma string_get_lookup (s : string) (i : nat) :
  String.get i s = list_ascii_of_string s !! i.
Proof.
  revert i. induction s as [|c s IH]; intros [|i]; cbn; auto.
Qed.

Lemma string_length_list (s : string) :
  String.length s = length (list_ascii_of_string s).
Proof. induction s as [|c s IH]; cbn; auto. Qed.

Lemma ToUint8_charCode (c : ascii) :
  ToUint8 (Some (N_of_ascii c)) = byte_of_ascii c.
Proof.
  unfold ToUint8. pose proof (N_ascii_bounded c) as Hc.
  rewrite N.mod_small by done.
  by rewrite <- byte_of_ascii_via_N.
Qed.

Lemma Uint8Array_set_seq (f : nat → byte) (n k : nat) :
  foldl (λ a j, Uint8Array_set a j (f j)) (Uint8Array_new n) (seq 0 k)
  = {| u8_buffer := foldl (λ l j, <[j := f j]> l) (replicate n x00) (seq 0 k);
       u8_byteOffset := 0;
       u8_byteLength := n |}.
Proof.
  induction k as [|k IH]; [done|].
  rewrite seq_S, !foldl_app, IH, Nat.add_0_l. cbn [foldl].
  unfold Uint8Array_set. cbn [u8_byteLength u8_buffer u8_byteOffset].
  case_decide as Hk; [by rewrite Nat.add_0_l|].
  f_equal. rewrite list_insert_ge; [done|].
  rewrite foldl_insert_seq_length, length_replicate. lia.
Qed.

(** The loop copies the character codes of the binary string, in order,
    into a fresh array viewed whole. *)
Lemma decodeBase64_copy (binaryString : string) :
  for_loop (S (String.length binaryString))
    (λ i, i <? String.length binaryString)
    (λ i bytes, Uint8Array_set bytes i (ToUint8 (charCodeAt binaryString i)))
    0 (Uint8Array_new (String.length binaryString))
  = Uint8Array_of (map byte_of_ascii (list_ascii_of_string binaryString)).
Proof.
  set (n := String.length binaryString).
  rewrite (for_loop_seq _ _ n).
  2: { intros j Hj. apply Nat.ltb_lt. lia. }
  2: { apply Nat.ltb_ge. lia. }
  2: lia.
  rewrite (Uint8Array_set_seq (λ j, ToUint8 (charCodeAt binaryString j))).
  unfold Uint8Array_of. rewrite length_map, <- string_length_list. fold n.
  f_equal. apply list_eq. intros i.
  rewrite foldl_insert_seq_lookup, length_replicate, list_lookup_fmap.
  unfold charCodeAt. rewrite string_get_lookup.
  destruct (decide (i < n)) as [Hi|Hi].
  - rewrite decide_True by lia.
    destruct (lookup_lt_is_Some_2 (list_ascii_of_string binaryString) i) as [c Hc].
    { rewrite <- string_length_list. done. }
    rewrite Hc. cbn [fmap option_fmap option_map]. by rewrite ToUint8_charCode.
  - rewrite decide_False by lia.
    rewrite (lookup_ge_None_2 (replicate n x00)) by (rewrite length_replicate; lia).
    rewrite (lookup_ge_None_2 (list_ascii_of_string binaryString)); [done|].
    rewrite <- string_length_list. fold n. lia.
Qed.

Lemma decodeBase64_unfold (base64 : string) :
  decodeBase64 (Some base64) =
    if String.eqb base64 ""%string then Ok (Uint8Array_of [])
    else
      binaryString ← atob base64;
      Ok (Uint8Array_of (map byte_of_ascii (list_ascii_of_string binaryString))).
Proof.
  unfold decodeBase64. destruct (String.eqb base64 ""); [done|].
  destruct (atob base64) as [binaryString|e]; [|done].
  cbn [mbind result_bind]. by rewrite decodeBase64_copy.
Qed.

(** Whatever [decodeBase64] returns is an array viewed whole. *)
Lemma decodeBase64_whole (base64 : option string) (data : Uint8Array) :
  decodeBase64 base64 = Ok data → ∃ bs, data = Uint8Array_of bs.
Proof.
  destruct base64 as [base64|]; [|intros [= <-]; by exists []].
  rewrite decodeBase64_unfold.
  destruct (String.eqb base64 ""); [intros [= <-]; by exists []|].
  destruct (atob base64) as [binaryString|e]; [|done].
  intros [= <-]. eauto.
Qed.

(** ** Base64: the alphabet *)

Lemma base64_char_props (i : Z) :
  (0 ≤ i < 64)%Z →
  base64_index (base64_char i) = Some (Z.to_nat i)
  ∧ is_base64_char (base64_char i) = true
  ∧ is_ascii_whitespace (base64_char i) = false
  ∧ Ascii.eqb (base64_char i) "="%char = false.
Proof.
  intros Hi. unfold base64_char.
  assert (Hk : Z.to_nat i < 64) by lia.
  revert Hk. generalize (Z.to_nat i). intros k Hk.
  do 64 (destruct k as [|k]; [by vm_compute|]). lia.
Qed.

(** The two character classes of the standard agree with the table. *)
Lemma is_base64_char_index (c : ascii) :
  is_base64_char c = true ↔ is_Some (base64_index c).
Proof.
  destruct c as [[] [] [] [] [] [] [] []]; vm_compute;
    (split; [intros _; eauto | intros _; reflexivity])
    || (split; [intros [=] | intros [? [=]]]).
Qed.

Lemma ascii_of_byte_to_N (x : byte) : ascii_of_N (Byte.to_N x) = ascii_of_byte x.
Proof. by destruct x. Qed.

Lemma char_of_Z_byte (x : byte) (q : Z) :
  (q mod 256)%Z = byte_to_Z x → char_of_Z q = ascii_of_byte x.
Proof.
  intros Hq. unfold char_of_Z. rewrite Hq. unfold byte_to_Z.
  by rewrite N2Z.id, ascii_of_byte_to_N.
Qed.

Lemma byte_of_Z_to_Z (x : byte) : byte_of_Z (byte_to_Z x) = x.
Proof.
  unfold byte_of_Z. pose proof (byte_to_Z_range x).
  rewrite Z.mod_small by done. unfold byte_to_Z.
  by rewrite N2Z.id, Byte.of_to_N.
Qed.

Lemma byte_to_Z_of_Z (n : Z) : byte_to_Z (byte_of_Z n) = (n mod 256)%Z.
Proof.
  unfold byte_of_Z, byte_to_Z.
  pose proof (Z.mod_pos_bound n 256 eq_refl) as Hn.
  destruct (Byte.of_N (Z.to_N (n mod 256))) as [x|] eqn:Hx.
  - change (default x00 (Some x)) with x.
    apply Byte.to_of_N in Hx. rewrite Hx. apply Z2N.id. lia.
  - apply Byte.of_N_None_iff in Hx.
    assert (Z.of_N (Z.to_N (n mod 256)) = (n mod 256)%Z) by (apply Z2N.id; lia).
    lia.
Qed.

(** ** Base64: decoding an encoding *)

Lemma list_triple_ind {A : Type} (P : list A → Prop) :
  P [] → (∀ x, P [x]) → (∀ x y, P [x; y]) →
  (∀ x y z l, P l → P (x :: y :: z :: l)) → ∀ l, P l.
Proof.
  intros H0 H1 H2 Hstep l.
  cut (P l ∧ (∀ x, P (x :: l)) ∧ (∀ x y, P (x :: y :: l))); [by intros [? _]|].
  induction l as [|z l (IH0 & IH1 & IH2)]; [done|].
  split; [apply IH1|]. split; [intros x; apply IH2|]. intros x y. by apply Hstep.
Qed.

Lemma spec_base64_encode_split (bs : list byte) :
  spec_base64_encode bs = encode_body bs ++ encode_pad bs.
Proof.
  induction bs as [|x|x y|x y z l IH] using list_triple_ind; [done..|].
  cbn [spec_base64_encode encode_body app]. rewrite IH. do 4 f_equal.
  unfold encode_pad. cbn [length].
  replace (S (S (S (length l))) mod 3) with (length l mod 3) by lia. done.
Qed.

Lemma encode_body_chars (bs : list byte) : Forall sextet_char (encode_body bs).
Proof.
  induction bs as [|x|x y|x y z l IH] using list_triple_ind.
  - constructor.
  - pose proof (byte_to_Z_range x).
    cbn [encode_body]. repeat constructor; eexists; (split; [|reflexivity]); lia.
  - pose proof (byte_to_Z_range x). pose proof (byte_to_Z_range y).
    cbn [encode_body]. repeat constructor; eexists; (split; [|reflexivity]); lia.
  - pose proof (byte_to_Z_range x). pose proof (byte_to_Z_range y).
    pose proof (byte_to_Z_range z).
    cbn [encode_body].
    repeat (constructor; [eexists; (split; [|reflexivity]); lia|]). done.
Qed.

Lemma encode_body_length (bs : list byte) :
  length (encode_body bs) mod 4 ≠ 1
  ∧ (length (encode_body bs) + length (encode_pad bs)) mod 4 = 0.
Proof.
  induction bs as [|x|x y|x y z l IH] using list_triple_ind; [by vm_compute..|].
  cbn [encode_body length]. unfold encode_pad in *. cbn [length].
  replace (S (S (S (length l))) mod 3) with (length l mod 3) by lia.
  lia.
Qed.

Lemma decode_step_sextet (buffer : Z) (bits : nat) (output : list ascii) (i : Z) :
  (0 ≤ i < 64)%Z →
  decode_step (buffer, bits, output) (base64_char i) =
    if bits + 6 =? 24 then
      (0%Z, 0,
       output ++ [char_of_Z ((buffer * 64 + i) / 65536);
                  char_of_Z ((buffer * 64 + i) / 256);
                  char_of_Z (buffer * 64 + i)])
    else ((buffer * 64 + i)%Z, bits + 6, output).
Proof.
  intros Hi. unfold decode_step.
  destruct (base64_char_props i Hi) as (-> & _). cbn [default from_option id].
  by rewrite Z2Nat.id by lia.
Qed.

Lemma decode_encode_body (bs : list byte) :
  ∀ output,
    decode_flush (foldl decode_step (0%Z, 0, output) (encode_body bs))
    = output ++ map ascii_of_byte bs.
Proof.
  induction bs as [|x|x y|x y z l IH] using list_triple_ind; intros output.
  - cbn. by rewrite app_nil_r.
  - pose proof (byte_to_Z_range x).
    cbn [encode_body foldl].
    repeat (rewrite decode_step_sextet by lia; cbn [Nat.add Nat.eqb]).
    unfold decode_flush. cbn [Nat.eqb map]. do 2 f_equal.
    apply char_of_Z_byte. lia.
  - pose proof (byte_to_Z_range x). pose proof (byte_to_Z_range y).
    cbn [encode_body foldl].
    repeat (rewrite decode_step_sextet by lia; cbn [Nat.add Nat.eqb]).
    unfold decode_flush. cbn [Nat.eqb map].
    f_equal. f_equal; [|f_equal]; apply char_of_Z_byte; lia.
  - pose proof (byte_to_Z_range x). pose proof (byte_to_Z_range y).
    pose proof (byte_to_Z_range z).
    cbn [encode_body foldl].
    repeat (rewrite decode_step_sextet by lia; cbn [Nat.add Nat.eqb]).
    rewrite IH. cbn [map]. rewrite <- app_assoc. cbn [app].
    f_equal. f_equal; [|f_equal; [|f_equal]]; apply char_of_Z_byte; lia.
Qed.

Lemma filter_all {A : Type} (f : A → bool) (l : list A) :
  Forall (λ x, f x = true) l → List.filter f l = l.
Proof.
  induction 1 as [|x l Hx _ IH]; [done|]. cbn. by rewrite Hx, IH.
Qed.

Lemma remove_final_equals_snoc (l : list ascii) :
  remove_final_equals (l ++ ["="%char]) = Some l.
Proof.
  unfold remove_final_equals. rewrite rev_app_distr. cbn.
  by rewrite rev_involutive.
Qed.

Lemma remove_final_equals_sextets (l : list ascii) :
  Forall sextet_char l → remove_final_equals l = None.
Proof.
  intros Hl. unfold remove_final_equals.
  destruct (rev l) as [|c r] eqn:Hrev; [done|].
  assert (Hc : sextet_char c).
  { rewrite Forall_forall in Hl. apply Hl, list_elem_of_In, in_rev.
    rewrite Hrev. by left. }
  destruct Hc as (i & Hi & ->).
  by destruct (base64_char_props i Hi) as (_ & _ & _ & ->).
Qed.

Lemma strip_padding_encode (bs : list byte) :
  strip_padding (spec_base64_encode bs) = encode_body bs.
Proof.
  rewrite spec_base64_encode_split. unfold strip_padding.
  destruct (encode_body_length bs) as [_ Hlen].
  rewrite length_app, Hlen. cbn [Nat.eqb].
  pose proof (remove_final_equals_sextets _ (encode_body_chars bs)) as Hnone.
  unfold encode_pad. destruct (length bs mod 3) as [|[|k]].
  - by rewrite app_nil_r, Hnone.
  - change (encode_body bs ++ ["="%char; "="%char])
      with (encode_body bs ++ ["="%char] ++ ["="%char]).
    by rewrite app_assoc, !remove_final_equals_snoc.
  - by rewrite remove_final_equals_snoc, Hnone.
Qed.

(** [atob] inverts the base64 encoding. *)
Lemma atob_spec_base64 (bs : list byte) :
  atob (spec_base64 bs) = Ok (string_of_list_ascii (map ascii_of_byte bs)).
Proof.
  unfold atob, forgiving_base64_decode, decode_sextets, remove_ascii_whitespace,
    spec_base64.
  rewrite list_ascii_of_string_of_list_ascii.
  rewrite filter_all.
  2: { rewrite spec_base64_encode_split. apply Forall_app. split.
       - eapply Forall_impl; [apply encode_body_chars|].
         intros c (i & Hi & ->). cbn beta.
         by destruct (base64_char_props i Hi) as (_ & _ & -> & _).
       - unfold encode_pad. destruct (length bs mod 3) as [|[|k]];
           repeat constructor. }
  rewrite strip_padding_encode.
  destruct (encode_body_length bs) as [Hlen _].
  destruct (Nat.eqb_spec (length (encode_body bs) mod 4) 1) as [|_]; [done|].
  replace (forallb is_base64_char (encode_body bs)) with true.
  2: { symmetry. apply forallb_forall. intros c Hc.
       pose proof (encode_body_chars bs) as Hall. rewrite Forall_forall in Hall.
       destruct (Hall c) as (i & Hi & ->); [by apply list_elem_of_In|].
       by destruct (base64_char_props i Hi) as (_ & -> & _). }
  cbn [negb]. rewrite decode_encode_body. done.
Qed.

(** [decodeBase64] returns exactly the encoded bytes. *)
Lemma decodeBase64_spec_base64 (bs : list byte) :
  decodeBase64 (Some (spec_base64 bs)) = Ok (Uint8Array_of bs).
Proof.
  rewrite decodeBase64_unfold.
  destruct (String.eqb_spec (spec_base64 bs) "") as [Heq|_].
  - destruct bs as [|x [|y [|z l]]]; [done|discriminate Heq..].
  - rewrite atob_spec_base64. cbn [mbind result_bind].
    rewrite list_ascii_of_string_of_list_ascii, map_map.
    do 2 f_equal. rewrite <- (map_id bs) at 2. apply map_ext.
    intros x. apply byte_of_ascii_of_byte.
Qed.

(** ** Base64: what [atob] rejects *)

Lemma decode_sextets_rejects (data : list ascii) (c : ascii) :
  In c data → is_base64_char c = false → decode_sextets data = None.
Proof.
  intros Hin Hc. unfold decode_sextets.
  destruct (length data mod 4 =? 1); [done|].
  destruct (forallb is_base64_char data) eqn:Hall; [|done].
  rewrite forallb_forall in Hall. rewrite (Hall c Hin) in Hc. done.
Qed.

Lemma remove_final_equals_Some (data data1 : list ascii) :
  remove_final_equals data = Some data1 → data = data1 ++ ["="%char].
Proof.
  unfold remove_final_equals. destruct (rev data) as [|c r] eqn:Hrev; [done|].
  destruct (Ascii.eqb_spec c "="%char) as [->|_]; [|done].
  intros [= <-]. rewrite <- (rev_involutive data), Hrev. done.
Qed.

(** Step 2 removes nothing but [=]. *)
Lemma strip_padding_keeps (data : list ascii) (c : ascii) :
  In c data → c ≠ "="%char → In c (strip_padding data).
Proof.
  intros Hin Hc. unfold strip_padding.
  destruct (length data mod 4 =? 0); [|done].
  destruct (remove_final_equals data) as [data1|] eqn:H1; [|done].
  apply remove_final_equals_Some in H1. subst data.
  apply in_app_or in Hin. destruct Hin as [Hin|[<-|[]]]; [|done].
  destruct (remove_final_equals data1) as [data2|] eqn:H2; [|done].
  apply remove_final_equals_Some in H2. subst data1.
  apply in_app_or in Hin. by destruct Hin as [Hin|[<-|[]]].
Qed.

(** A character that is neither of the alphabet, nor white space, nor [=]
    makes [atob] throw. *)
Lemma atob_invalid_character (s : string) (c : ascii) :
  In c (list_ascii_of_string s) →
  is_base64_char c = false →
  is_ascii_whitespace c = false →
  c ≠ "="%char →
  atob s = Throw InvalidCharacterError.
Proof.
  intros Hin Hc Hws Heq. unfold atob, forgiving_base64_decode.
  rewrite (decode_sextets_rejects _ c); [done| |done].
  apply strip_padding_keeps; [|done].
  unfold remove_ascii_whitespace. apply filter_In. by rewrite Hws.
Qed.

Lemma atob_misplaced_padding (s : string) :
  In "="%char (remove_ascii_whitespace s) →
  ¬ well_padded (remove_ascii_whitespace s) →
  atob s = Throw InvalidCharacterError.
Proof.
  intros Hin Hbad. unfold atob, forgiving_base64_decode.
  set (data := remove_ascii_whitespace s) in *.
  assert (Hrej : ∀ d, In "="%char d → decode_sextets d = None).
  { intros d Hd. by apply (decode_sextets_rejects d "="%char). }
  assert (Hdec : ∀ d, In "="%char d ∨ ¬ In "="%char d).
  { intros d. destruct (in_dec ascii_dec "="%char d); auto. }
  unfold strip_padding.
  destruct (Nat.eqb_spec (length data mod 4) 0) as [Hlen|_]; [|by rewrite Hrej].
  destruct (remove_final_equals data) as [data1|] eqn:H1; [|by rewrite Hrej].
  apply remove_final_equals_Some in H1.
  destruct (remove_final_equals data1) as [data2|] eqn:H2.
  - apply remove_final_equals_Some in H2.
    destruct (Hdec data2) as [Hd|Hd]; [by rewrite Hrej|].
    exfalso. apply Hbad. exists data2, ["="%char; "="%char].
    split; [|by auto]. rewrite H1, H2. by rewrite <- app_assoc.
  - destruct (Hdec data1) as [Hd|Hd]; [by rewrite Hrej|].
    exfalso. apply Hbad. exists data1, ["="%char]. by auto.
Qed.


(** ** The de-interleaved buffer, by index *)

Lemma spec_channel_length (samples : list Z) (numChannels frames channel : nat) :
  length (spec_channel samples numChannels frames channel) = frames.
Proof. unfold spec_channel. by rewrite length_map, length_seq. Qed.

Lemma spec_channel_lookup (samples : list Z) (numChannels frames channel i : nat) :
  i < frames →
  spec_channel samples numChannels frames channel !! i
  = Some (div_32768 (samples !! (i * numChannels + channel))).
Proof.
  intros Hi. unfold spec_channel.
  by rewrite list_lookup_fmap, lookup_seq_lt.
Qed.

Lemma spec_deinterleave_channels (samples : list Z) (numChannels frames : nat)
    (sampleRate : Z) :
  length (ab_channels (spec_deinterleave samples numChannels frames sampleRate))
  = numChannels.
Proof. cbn. by rewrite length_map, length_seq. Qed.

Lemma spec_deinterleave_lookup (samples : list Z) (numChannels frames : nat)
    (sampleRate : Z) (c : nat) :
  c < numChannels →
  ab_channels (spec_deinterleave samples numChannels frames sampleRate) !! c
  = Some (spec_channel samples numChannels frames c).
Proof.
  intros Hc. cbn [spec_deinterleave ab_channels].
  by rewrite list_lookup_fmap, lookup_seq_lt.
Qed.

(** A frame that exists lies inside the sample buffer. *)
Lemma frame_index_bound (len numChannels i c : nat) :
  i < len / numChannels → c < numChannels → i * numChannels + c < len.
Proof.
  intros Hi Hc.
  pose proof (Nat.div_mod_eq len numChannels).
  pose proof (Nat.mod_upper_bound len numChannels).
  nia.
Qed.

(** ** The store model refines the functions on values *)

Lemma Store_bind_run {A B : Type} (m : Store.M A) (k : A → Store.M B)
    (h : Store.heap) :
  (m ≫= k) h =
    match m h with
    | (Ok a, h') => k a h'
    | (Throw e, h') => (Throw e, h')
    end.
Proof. reflexivity. Qed.

(** A loop over the store simulates the loop over values when each pass
    does. *)
Lemma Store_for_loop_sim {St : Type} (R : Store.heap → St → Prop)
    (cond : nat → bool) (bodyM : nat → Store.M unit) (body : nat → St → St) :
  (∀ i h s, cond i = true → R h s →
     ∃ h', bodyM i h = (Ok tt, h') ∧ R h' (body i s)) →
  ∀ fuel i h s, R h s →
    ∃ h', Store.for_loop fuel cond bodyM i h = (Ok tt, h')
          ∧ R h' (for_loop fuel cond body i s).
Proof.
  intros Hstep. induction fuel as [|fuel IH]; intros i h s HR.
  - exists h. by split.
  - cbn [Store.for_loop for_loop]. destruct (cond i) eqn:Hc.
    + destruct (Hstep i h s Hc HR) as (h1 & Hrun & HR1).
      rewrite Store_bind_run, Hrun. by apply IH.
    + exists h. by split.
Qed.

Lemma lookup_snoc_length {A : Type} (l : list A) (x : A) :
  (l ++ [x]) !! length l = Some x.
Proof. by rewrite lookup_app_r, Nat.sub_diag by lia. Qed.

Lemma insert_snoc_length {A : Type} (l : list A) (x y : A) :
  <[length l := y]> (l ++ [x]) = l ++ [y].
Proof. by rewrite insert_app_r_alt, Nat.sub_diag by lia. Qed.

(** [decodeBase64] allocates one array buffer and writes to nothing
    else. *)
Lemma Store_decodeBase64_run (base64 : option string) (h : Store.heap) :
  Store.decodeBase64 base64 h =
    match decodeBase64 base64 with
    | Ok a =>
      (Ok {| Store.buffer := length h;
             Store.byteOffset := u8_byteOffset a;
             Store.byteLength := u8_byteLength a |},
       h ++ [Store.ArrayBufferObj (u8_buffer a)])
    | Throw e => (Throw e, h)
    end.
Proof.
  unfold Store.decodeBase64, decodeBase64.
  destruct base64 as [s|]; [|done].
  destruct (String.eqb s ""); [done|].
  destruct (atob s) as [binaryString|e]; [|done].
  cbn [mbind result_bind].
  set (n := String.length binaryString).
  unfold Store.Uint8Array_new.
  rewrite !Store_bind_run. cbn [Store.alloc Store.ret].
  set (ref := {| Store.buffer := length h; Store.byteOffset := 0;
                 Store.byteLength := n |}).
  set (R := λ (h' : Store.heap) (a : Uint8Array),
              h' = h ++ [Store.ArrayBufferObj (u8_buffer a)]
              ∧ u8_byteOffset a = 0 ∧ u8_byteLength a = n).
  destruct (Store_for_loop_sim R (λ i, i <? n)
              (λ i, Store.Uint8Array_set ref i (ToUint8 (charCodeAt binaryString i)))
              (λ i bytes, Uint8Array_set bytes i (ToUint8 (charCodeAt binaryString i))))
    with (fuel := S n) (i := 0)
         (h := h ++ [Store.ArrayBufferObj (replicate n x00)])
         (s := Uint8Array_new n)
    as (h' & Hrun & Hh' & Hoff & Hlen).
  - intros i h1 a _ (-> & Hoff & Hlen).
    unfold Store.Uint8Array_set, Uint8Array_set. cbn [ref Store.byteLength].
    rewrite Hlen. destruct (decide (i < n)) as [Hi|Hi].
    + eexists. split.
      * rewrite Store_bind_run. unfold Store.load_bytes.
        unfold ref. cbn [Store.buffer Store.byteOffset]. rewrite lookup_snoc_length.
        unfold Store.store. by rewrite insert_snoc_length.
      * cbn [u8_buffer u8_byteOffset u8_byteLength]. by rewrite Hoff.
    + eexists. by split.
  - by split.
  - rewrite Store_bind_run, Hrun. subst h'. by rewrite Hoff, Hlen.
Qed.

Lemma Store_Int16Array_new_run (h : Store.heap) (buf : Store.loc)
    (bytes : list byte) (byteOffset len : nat) :
  h !! buf = Some (Store.ArrayBufferObj bytes) →
  Store.Int16Array_new buf byteOffset len h =
    match Int16Array_new bytes byteOffset len with
    | Ok _ =>
      (Ok {| Store.i16_buffer := buf; Store.i16_byteOffset := byteOffset;
             Store.i16_length := len |}, h)
    | Throw e => (Throw e, h)
    end.
Proof.
  intros Hbuf. unfold Store.Int16Array_new, Int16Array_new.
  rewrite Store_bind_run. unfold Store.load_bytes. rewrite Hbuf.
  destruct (negb (byteOffset mod 2 =? 0)); [done|].
  by destruct (length bytes <? byteOffset + len * 2).
Qed.

Lemma Store_Int16Array_get_run (h : Store.heap) (buf : Store.loc)
    (bytes : list byte) (byteOffset len k : nat) :
  h !! buf = Some (Store.ArrayBufferObj bytes) →
  Store.Int16Array_get
    {| Store.i16_buffer := buf; Store.i16_byteOffset := byteOffset;
       Store.i16_length := len |} k h
  = (Ok (Int16Array_get
           {| i16_buffer := bytes; i16_byteOffset := byteOffset;
              i16_length := len |} k), h).
Proof.
  intros Hbuf. unfold Store.Int16Array_get, Int16Array_get.
  cbn [Store.i16_length Store.i16_buffer Store.i16_byteOffset
       i16_length i16_buffer i16_byteOffset].
  destruct (decide (k < len)); [|done].
  rewrite Store_bind_run. unfold Store.load_bytes. by rewrite Hbuf.
Qed.

Lemma Store_alloc_channels_run (channels len : nat) (h : Store.heap) :
  Store.alloc_channels channels len h =
    (Ok (seq (length h) channels),
     h ++ replicate channels (Store.Float32ArrayObj (replicate len (Num 0)))).
Proof.
  revert h. induction channels as [|channels IH]; intros h.
  - cbn. by rewrite app_nil_r.
  - cbn [Store.alloc_channels]. rewrite Store_bind_run. cbn [Store.alloc].
    rewrite Store_bind_run, IH. cbn [Store.ret seq replicate].
    rewrite length_app. cbn [length].
    replace (length h + 1) with (S (length h)) by lia.
    by rewrite <- app_assoc.
Qed.

Lemma Store_createBuffer_run (ctx : AudioContext) (channels len : nat)
    (sampleRate : Z) (h : Store.heap) :
  Store.createBuffer ctx channels len sampleRate h =
    if createBuffer_supports ctx channels len sampleRate then
      (Ok {| Store.numberOfChannels := channels;
             Store.ab_length := len;
             Store.ab_sampleRate := sampleRate;
             Store.ab_channels := seq (length h) channels |},
       h ++ map Store.Float32ArrayObj
              (ab_channels (zero_filled channels len sampleRate)))
    else (Throw NotSupportedError, h).
Proof.
  unfold Store.createBuffer.
  destruct (createBuffer_supports ctx channels len sampleRate); [|done].
  rewrite Store_bind_run, Store_alloc_channels_run.
  cbn [Store.ret zero_filled ab_channels]. do 2 f_equal.
  symmetry. apply (fmap_replicate Store.Float32ArrayObj).
Qed.

(** The inner loop writes to the one location [channelData]. *)
Lemma Store_fill_channel_run (h : Store.heap) (buf channelData : Store.loc)
    (bytes : list byte) (byteOffset len : nat) (frameCount : Q)
    (numChannels channel : nat) (elements : list number) :
  h !! buf = Some (Store.ArrayBufferObj bytes) →
  h !! channelData = Some (Store.Float32ArrayObj elements) →
  Store.fill_channel
    {| Store.i16_buffer := buf; Store.i16_byteOffset := byteOffset;
       Store.i16_length := len |}
    frameCount numChannels channel channelData h
  = (Ok tt,
     <[channelData :=
         Store.Float32ArrayObj
           (fill_channel
              {| i16_buffer := bytes; i16_byteOffset := byteOffset;
                 i16_length := len |}
              frameCount numChannels channel elements)]> h).
Proof.
  intros Hbuf Hcd.
  assert (Hne : buf ≠ channelData) by (intros ->; congruence).
  assert (Hlt : channelData < length h) by (by eapply lookup_lt_Some).
  unfold Store.fill_channel, fill_channel. cbn [Store.i16_length i16_length].
  set (R := λ (h' : Store.heap) (cd : list number),
              h' = <[channelData := Store.Float32ArrayObj cd]> h).
  edestruct (Store_for_loop_sim R) as (h' & Hrun & ->);
    [| |rewrite Hrun; reflexivity].
  - intros i h1 cd _ ->. eexists. split; [|reflexivity].
    rewrite Store_bind_run.
    rewrite (Store_Int16Array_get_run _ buf bytes)
      by (by rewrite list_lookup_insert_ne).
    unfold Store.Float32Array_set. rewrite Store_bind_run.
    unfold Store.load_elements. rewrite list_lookup_insert_eq by done.
    unfold Store.store. by rewrite list_insert_insert_eq.
  - unfold R. symmetry. by apply list_insert_id.
Qed.

(** The outer loop writes to the channel arrays of the buffer, which lie
    after the part [h1] of the store. *)
Lemma Store_fill_buffer_run (h1 : Store.heap) (buf : Store.loc) (bytes : list byte)
    (byteOffset len : nat) (frameCount : Q) (numChannels frames : nat)
    (sampleRate : Z) (channels : list (list number)) :
  h1 !! buf = Some (Store.ArrayBufferObj bytes) →
  length channels = numChannels →
  ∃ channels',
    fill_buffer
      {| i16_buffer := bytes; i16_byteOffset := byteOffset; i16_length := len |}
      frameCount numChannels
      {| numberOfChannels := numChannels; ab_length := frames;
         ab_sampleRate := sampleRate; ab_channels := channels |}
    = Ok {| numberOfChannels := numChannels; ab_length := frames;
            ab_sampleRate := sampleRate; ab_channels := channels' |}
    ∧ length channels' = numChannels
    ∧ Store.fill_buffer
        {| Store.i16_buffer := buf; Store.i16_byteOffset := byteOffset;
           Store.i16_length := len |}
        frameCount numChannels
        {| Store.numberOfChannels := numChannels; Store.ab_length := frames;
           Store.ab_sampleRate := sampleRate;
           Store.ab_channels := seq (length h1) numChannels |}
        (h1 ++ map Store.Float32ArrayObj channels)
      = (Ok tt, h1 ++ map Store.Float32ArrayObj channels').
Proof.
  intros Hbuf Hlen.
  assert (Hbuf_lt : buf < length h1) by (by eapply lookup_lt_Some).
  unfold Store.fill_buffer, fill_buffer.
  set (R := λ (h' : Store.heap) (st : result AudioBuffer),
              ∃ channels',
                st = Ok {| numberOfChannels := numChannels; ab_length := frames;
                           ab_sampleRate := sampleRate;
                           ab_channels := channels' |}
                ∧ length channels' = numChannels
                ∧ h' = h1 ++ map Store.Float32ArrayObj channels').
  edestruct (Store_for_loop_sim R (λ channel, channel <? numChannels))
    as (h' & Hrun & channels' & Hst & Hlen' & ->).
  3: { exists channels'. by rewrite Hrun, Hst. }
  - intros channel h st Hc (chs & -> & Hchs & ->).
    apply Nat.ltb_lt in Hc.
    destruct (lookup_lt_is_Some_2 chs channel) as [cd Hcd]; [lia|].
    eexists. split.
    + rewrite Store_bind_run. unfold Store.getChannelData.
      cbn [Store.ab_channels]. rewrite lookup_seq_lt by done. cbn [Store.ret].
      apply (Store_fill_channel_run _ buf _ bytes).
      * by rewrite lookup_app_l.
      * rewrite lookup_app_r by lia.
        replace (length h1 + channel - length h1) with channel by lia.
        by rewrite list_lookup_fmap, Hcd.
    + cbn [mbind result_bind]. unfold getChannelData. cbn [ab_channels].
      rewrite Hcd. cbn [mbind result_bind]. eexists.
      split; [reflexivity|]. split; [by rewrite length_insert|].
      rewrite insert_app_r_alt by lia.
      replace (length h1 + channel - length h1) with channel by lia.
      by rewrite <- (list_fmap_insert Store.Float32ArrayObj).
  - exists channels. split; [reflexivity|]. by split.
Qed.

(** Reading back the channel arrays of a buffer allocated after [h1]. *)
Lemma read_AudioBuffer_fresh (h1 : Store.heap) (numChannels frames : nat)
    (sampleRate : Z) (channels : list (list number)) :
  length channels = numChannels →
  read_AudioBuffer (h1 ++ map Store.Float32ArrayObj channels)
    {| Store.numberOfChannels := numChannels; Store.ab_length := frames;
       Store.ab_sampleRate := sampleRate;
       Store.ab_channels := seq (length h1) numChannels |}
  = Some {| numberOfChannels := numChannels; ab_length := frames;
            ab_sampleRate := sampleRate; ab_channels := channels |}.
Proof.
  intros Hlen. unfold read_AudioBuffer. cbn [Store.ab_channels].
  rewrite (mapM_Some_2 _ _ channels); [done|].
  apply Forall2_same_length_lookup_2; [by rewrite length_seq|].
  intros i l cd Hl Hcd. apply lookup_seq in Hl as [-> Hi].
  unfold Store.read_channel. rewrite lookup_app_r by lia.
  replace (length h1 + i - length h1) with i by lia.
  by rewrite list_lookup_fmap, Hcd.
Qed.

Lemma Int16Array_new_Ok (buf : list byte) (byteOffset len : nat) (v : Int16Array) :
  Int16Array_new buf byteOffset len = Ok v →
  v = {| i16_buffer := buf; i16_byteOffset := byteOffset; i16_length := len |}.
Proof.
  unfold Int16Array_new. destruct (negb (byteOffset mod 2 =? 0)); [done|].
  destruct (length buf <? byteOffset + len * 2); [done|]. by intros [= <-].
Qed.

Lemma fresh_channels_seq (h h1 : Store.heap) (numChannels frames : nat)
    (sampleRate : Z) :
  length h ≤ length h1 →
  fresh_channels h
    {| Store.numberOfChannels := numChannels; Store.ab_length := frames;
       Store.ab_sampleRate := sampleRate;
       Store.ab_channels := seq (length h1) numChannels |}.
Proof.
  intros Hle. split; cbn [Store.ab_channels]; [|apply NoDup_seq].
  apply Forall_forall. intros l Hl. apply elem_of_seq in Hl. lia.
Qed.

Lemma Store_createBuffer_refines (h h1 : Store.heap) (ctx : AudioContext)
    (channels len : nat) (sampleRate : Z) :
  h `prefix_of` h1 →
  ∃ r h',
    Store.createBuffer ctx channels len sampleRate h1 = (r, h')
    ∧ h `prefix_of` h'
    ∧ observe (r, h') = outcome (createBuffer ctx channels len sampleRate)
    ∧ ∀ b, r = Ok b → fresh_channels h b.
Proof.
  intros Hpre. rewrite Store_createBuffer_run. unfold createBuffer.
  destruct (createBuffer_supports ctx channels len sampleRate).
  - eexists. eexists. split; [reflexivity|].
    split; [by apply prefix_app_r|]. split.
    + cbn [observe outcome]. rewrite read_AudioBuffer_fresh; [done|].
      cbn. apply length_replicate.
    + intros b [= <-]. apply fresh_channels_seq. by apply prefix_length.
  - eexists. eexists. split; [reflexivity|]. by repeat split.
Qed.

(** From the 16-bit view on: the view is built on the buffer at [buf],
    the audio buffer is allocated, and the loops fill it. *)
Lemma Store_decode_view_refines (h h1 : Store.heap) (buf : Store.loc)
    (bytes : list byte) (byteOffset len : nat) (ctx : AudioContext)
    (sampleRate : Z) (numChannels : nat) :
  h `prefix_of` h1 →
  h1 !! buf = Some (Store.ArrayBufferObj bytes) →
  ∃ r h',
    (dataInt16 ← Store.Int16Array_new buf byteOffset len;
     let frameCount := (inject_Z (Z.of_nat (Store.i16_length dataInt16))
                        / inject_Z (Z.of_nat numChannels))%Q in
     buffer ← Store.createBuffer ctx numChannels (Z.to_nat (Qfloor frameCount))
                sampleRate;
     Store.fill_buffer dataInt16 frameCount numChannels buffer;;
     Store.ret buffer) h1 = (r, h')
    ∧ h `prefix_of` h'
    ∧ observe (r, h')
      = outcome
          (dataInt16 ← Int16Array_new bytes byteOffset len;
           let frameCount := frameCount_of dataInt16 numChannels in
           buffer ← createBuffer ctx numChannels (Z.to_nat (Qfloor frameCount))
                      sampleRate;
           fill_buffer dataInt16 frameCount numChannels buffer)
    ∧ ∀ b, r = Ok b → fresh_channels h b.
Proof.
  intros Hpre Hbuf.
  rewrite Store_bind_run, (Store_Int16Array_new_run _ _ bytes) by done.
  destruct (Int16Array_new bytes byteOffset len) as [v|e] eqn:Hnew.
  2: { eexists. eexists. split; [reflexivity|]. split; [done|]. by split. }
  apply Int16Array_new_Ok in Hnew as ->.
  cbn [mbind result_bind Store.i16_length]. unfold frameCount_of.
  cbn [i16_length].
  set (frameCount := (inject_Z (Z.of_nat len) / inject_Z (Z.of_nat numChannels))%Q).
  set (frames := Z.to_nat (Qfloor frameCount)).
  rewrite Store_bind_run, Store_createBuffer_run. unfold createBuffer.
  destruct (createBuffer_supports ctx numChannels frames sampleRate).
  2: { eexists. eexists. split; [reflexivity|]. split; [done|]. by split. }
  cbn [mbind result_bind].
  destruct (Store_fill_buffer_run h1 buf bytes byteOffset len frameCount
              numChannels frames sampleRate
              (ab_channels (zero_filled numChannels frames sampleRate)))
    as (channels' & Hpure & Hlen' & Hrun); [done|cbn; apply length_replicate|].
  rewrite Store_bind_run, Hrun. cbn [Store.ret].
  eexists. eexists. split; [reflexivity|].
  split; [by apply prefix_app_r|]. split.
  - cbn [observe]. rewrite read_AudioBuffer_fresh by done.
    change (fill_buffer
              {| i16_buffer := bytes; i16_byteOffset := byteOffset;
                 i16_length := len |}
              frameCount numChannels
              (zero_filled numChannels frames sampleRate)
            = Ok {| numberOfChannels := numChannels; ab_length := frames;
                    ab_sampleRate := sampleRate; ab_channels := channels' |})
      in Hpure.
    by rewrite Hpure.
  - intros b [= <-]. apply fresh_channels_seq. by apply prefix_length.
Qed.

(** [decodeAudioData] over the store refines [decodeAudioData] on values,
    writes to nothing that was in the store before the call, and returns
    freshly allocated channel arrays. *)
Lemma Store_decodeAudioData_refines (h : Store.heap) (data : Store.Uint8Array)
    (a : Uint8Array) (ctx : AudioContext) (sampleRate : Z) (numChannels : nat) :
  h !! Store.buffer data = Some (Store.ArrayBufferObj (u8_buffer a)) →
  Store.byteOffset data = u8_byteOffset a →
  Store.byteLength data = u8_byteLength a →
  ∃ r h',
    Store.decodeAudioData (Some data) ctx sampleRate numChannels h = (r, h')
    ∧ h `prefix_of` h'
    ∧ observe (r, h') = outcome (decodeAudioData (Some a) ctx sampleRate numChannels)
    ∧ ∀ b, r = Ok b → fresh_channels h b.
Proof.
  intros Hbuf Hoff Hlen. unfold Store.decodeAudioData, decodeAudioData, u8_length.
  rewrite Hlen, Hoff.
  destruct (u8_byteLength a =? 0); [by apply Store_createBuffer_refines|].
  unfold dataInt16_of, bufferToUse. rewrite Store_bind_run.
  destruct (u8_byteLength a mod 2 =? 0).
  - cbn [Store.ret]. by apply Store_decode_view_refines.
  - unfold Store.ArrayBuffer_slice. rewrite Store_bind_run.
    unfold Store.load_bytes. rewrite Hbuf. cbn [Store.alloc].
    destruct (Store_decode_view_refines (h ++ [Store.ArrayBufferObj
                (take (u8_byteLength a - 1 - 0) (drop 0 (u8_buffer a)))])
                (h ++ [Store.ArrayBufferObj
                (take (u8_byteLength a - 1 - 0) (drop 0 (u8_buffer a)))])
                (length h)
                (take (u8_byteLength a - 1 - 0) (drop 0 (u8_buffer a)))
                (u8_byteOffset a) (u8_byteLength a / 2) ctx sampleRate numChannels)
      as (r & h' & Hrun & Hpre & Hobs & Hfresh);
      [done|apply lookup_snoc_length|].
    exists r, h'. split; [exact Hrun|].
    split; [by eapply prefix_app_l|]. split; [exact Hobs|].
    intros b Hb. destruct (Hfresh b Hb) as [Hge Hnd]. split; [|done].
    eapply Forall_impl; [exact Hge|]. intros l. cbn beta.
    rewrite length_app. lia.
Qed.

(** The whole pipeline over the store. *)
Lemma Store_decode_pipeline_refines (base64 : option string) (ctx : AudioContext)
    (sampleRate : Z) (numChannels : nat) (h : Store.heap) :
  h `prefix_of` (Store.decode_pipeline base64 ctx sampleRate numChannels h).2
  ∧ observe (Store.decode_pipeline base64 ctx sampleRate numChannels h)
    = outcome (decode_pipeline base64 ctx sampleRate numChannels)
  ∧ ∀ b, (Store.decode_pipeline base64 ctx sampleRate numChannels h).1 = Ok b →
         fresh_channels h b.
Proof.
  unfold Store.decode_pipeline, decode_pipeline.
  rewrite Store_bind_run, Store_decodeBase64_run.
  destruct (decodeBase64 base64) as [a|e]; [|by repeat split].
  cbn [mbind result_bind].
  destruct (Store_decodeAudioData_refines
              (h ++ [Store.ArrayBufferObj (u8_buffer a)])
              {| Store.buffer := length h;
                 Store.byteOffset := u8_byteOffset a;
                 Store.byteLength := u8_byteLength a |}
              a ctx sampleRate numChannels)
    as (r & h' & Hrun & Hpre & Hobs & Hfresh);
    [apply lookup_snoc_length|done..|].
  rewrite Hrun. cbn [fst snd].
  split; [by eapply prefix_app_l|]. split; [exact Hobs|].
  intros b Hb. destruct (Hfresh b Hb) as [Hge Hnd]. split; [|done].
  eapply Forall_impl; [exact Hge|]. intros l. cbn beta.
  rewrite length_app. lia.
Qed.

(** ** Samples are exact and in range *)





(** ** Little-endian bytes of a 16-bit integer *)

Lemma int16_le_spec_bytes (v : Z) :
  (-32768 ≤ v ≤ 32767)%Z → int16_le (byte_of_Z v) (byte_of_Z (v / 256)) = v.
Proof.
  intros Hv. rewrite int16_le_arith, !byte_to_Z_of_Z. cbv zeta.
  destruct (Z.ltb_spec (v mod 256 + 256 * ((v / 256) mod 256)) 32768); lia.
Qed.

Lemma spec_PCMSampleBuffer_le_bytes (V : list Z) :
  Forall (λ v, (-32768 ≤ v ≤ 32767)%Z) V →
  spec_PCMSampleBuffer (spec_le_bytes V) = V.
Proof.
  induction 1 as [|v V Hv _ IH]; [done|].
  unfold spec_le_bytes in *. cbn [map concat spec_int16_bytes app].
  cbn [spec_PCMSampleBuffer]. by rewrite IH, int16_le_spec_bytes.
Qed.

Lemma spec_le_bytes_length (V : list Z) : length (spec_le_bytes V) = 2 * length V.
Proof.
  induction V as [|v V IH]; [done|].
  unfold spec_le_bytes in *. cbn [map concat spec_int16_bytes app length].
  rewrite IH. lia.
Qed.

Lemma pcm_quotient_exact (v : Z) : ((v # 32768) - inject_Z v / 32768 == 0)%Q.
Proof.
  unfold Qeq, Qminus, Qplus, Qopp, Qdiv, Qmult, Qinv, inject_Z. cbn. lia.
Qed.

(** ** Errors of the pipeline *)

(** Every context that supports what the Web Audio API requires accepts the
    rates from 8000 to 96000 on 1 to 32 channels. *)
Lemma accepts_required (ctx : AudioContext) (numChannels : nat) (sampleRate : Z) :
  32 ≤ ctx_maxChannels ctx →
  (ctx_minSampleRate ctx ≤ 8000)%Z → (96000 ≤ ctx_maxSampleRate ctx)%Z →
  1 ≤ numChannels ≤ 32 → (8000 ≤ sampleRate ≤ 96000)%Z →
  accepts ctx numChannels sampleRate.
Proof. unfold accepts. lia. Qed.

Lemma audioCtx_accepts (numChannels : nat) (sampleRate : Z) :
  1 ≤ numChannels ≤ 32 → (8000 ≤ sampleRate ≤ 96000)%Z →
  accepts audioCtx numChannels sampleRate.
Proof. apply accepts_required; cbn; lia. Qed.

(** On an array viewed whole that is empty or holds at least one frame,
    with arguments the context accepts, [decodeAudioData] throws nothing. *)
Lemma decodeAudioData_whole_Ok (bs : list byte) (ctx : AudioContext)
    (sampleRate : Z) (numChannels : nat) :
  accepts ctx numChannels sampleRate →
  bs = [] ∨ numChannels ≤ length bs / 2 →
  ∃ buffer,
    decodeAudioData (Some (Uint8Array_of bs)) ctx sampleRate numChannels = Ok buffer.
Proof.
  intros Hacc [->|Hframe].
  - eexists. rewrite decodeAudioData_empty. by apply createBuffer_accepts.
  - eexists. by apply decodeAudioData_nonempty.
Qed.

(** On an array viewed whole, the only error of [decodeAudioData] is the
    one of [createBuffer]. *)
Lemma decodeAudioData_whole_Throw (bs : list byte) (ctx : AudioContext)
    (sampleRate : Z) (numChannels : nat) (e : error) :
  decodeAudioData (Some (Uint8Array_of bs)) ctx sampleRate numChannels = Throw e →
  e = NotSupportedError.
Proof.
  destruct (decide (bs = [])) as [->|Hne].
  - rewrite decodeAudioData_empty. apply createBuffer_Throw.
  - rewrite decodeAudioData_nonempty_cases by done.
    destruct (createBuffer_supports _ _ _ _); congruence.
Qed.

Lemma decodeBase64_Throw (s : string) (e : error) :
  atob s = Throw e → s ≠ ""%string → decodeBase64 (Some s) = Throw e.
Proof.
  intros Hs Hne. rewrite decodeBase64_unfold.
  destruct (String.eqb_spec s "") as [->|_]; [done|]. by rewrite Hs.
Qed.

Lemma decodeBase64_error (base64 : option string) (e : error) :
  decodeBase64 base64 = Throw e → e = InvalidCharacterError.
Proof.
  destruct base64 as [s|]; [|done]. rewrite decodeBase64_unfold.
  destruct (String.eqb s ""); [done|].
  unfold atob. destruct (forgiving_base64_decode s); [done|].
  by intros [= <-].
Qed.

(** The call of the audio control, with the default sample rate and
    channel count. *)
Example audio_control_call :
  decode_pipeline (Some "AQD//w=="%string) audioCtx default_sampleRate
    default_numChannels
  = Ok {| numberOfChannels := 1; ab_length := 2; ab_sampleRate := 24000;
          ab_channels := [[Num (1 # 32768); Num (-1 # 32768)]] |}.
Proof. reflexivity. Qed.

(** A view that is not the whole of its buffer: the odd-length branch
    slices the buffer from 0, whatever the view's offset, and the 16-bit
    view then does not fit. [decodeBase64] never returns such a view
    ([decodeBase64_whole]). *)
Example decodeAudioData_offset_view :
  decodeAudioData
    (Some {| u8_buffer := [x00; x00; x01; x00; x02; x00; x03; x00];
             u8_byteOffset := 2; u8_byteLength := 3 |})
    audioCtx 24000 1
  = Throw RangeError.
Proof. reflexivity. Qed.

(** [atob] is forgiving: white space is skipped, and padding may be left
    out. *)
Example atob_skips_whitespace :
  decodeBase64 (Some "AA AA"%string) = Ok (Uint8Array_of [x00; x00; x00]).
Proof. reflexivity. Qed.

Example atob_accepts_missing_padding :
  decodeBase64 (Some "QQ"%string) = Ok (Uint8Array_of [x41])
  ∧ decodeBase64 (Some "QQ=="%string) = Ok (Uint8Array_of [x41]).
Proof. split; reflexivity. Qed.

(** * The properties of the specification *)

(** C1, for an input of at least one frame. For every byte input that
    holds at least one frame, and every sample rate and channel count
    [numChannels >= 1] that the context accepts, [decodeAudioData] returns
    one channel array of [floor (sampleCount / numChannels)] frames per
    channel, and frame [i] of channel [c] is the 16-bit sample at
    interleaved index [i * numChannels + c] divided by 32768. *)
Theorem decodeAudioData_deinterleaves (bs : list byte) (ctx : AudioContext)
    (sampleRate : Z) (numChannels : nat) :
  accepts ctx numChannels sampleRate →
  numChannels ≤ length bs / 2 →
  deinterleave_claim bs ctx sampleRate numChannels.
Proof.
  intros Hacc Hframe. unfold deinterleave_claim.
  assert (Hnc : 1 ≤ numChannels) by (destruct Hacc as [[? _] _]; done).
  eexists. split; [by apply decodeAudioData_nonempty|].
  split; [apply spec_deinterleave_channels|].
  intros c Hc. eexists. split; [by apply spec_deinterleave_lookup|].
  split; [apply spec_channel_length|].
  intros i Hi.
  assert (Hk : i * numChannels + c < length (spec_PCMSampleBuffer bs)).
  { rewrite spec_PCMSampleBuffer_length. by apply frame_index_bound. }
  destruct (lookup_lt_is_Some_2 _ _ Hk) as [v Hv].
  exists v. split; [done|].
  rewrite spec_channel_lookup by done. by rewrite Hv.
Qed.

Lemma decodeAudioData_deinterleaves_witness :
  deinterleave_claim [x01; x00; x02; x00; xff; xff; x00; x80] audioCtx 24000 2.
Proof.
  apply decodeAudioData_deinterleaves; [apply audioCtx_accepts; lia | cbn; lia].
Defined.

(** C1 on the inputs it does not extend to. On the empty input the channel
    array has 1 frame, not [floor (0 / 1) = 0]; on one byte, which is less
    than a frame, and at a sample rate the context refuses, no buffer is
    returned. *)
Lemma decodeAudioData_deinterleaves_empty_input :
  ¬ deinterleave_claim [] audioCtx 24000 1
  ∧ ¬ deinterleave_claim [x41] audioCtx 24000 1
  ∧ ¬ deinterleave_claim [x01; x00] audioCtx 1000 1.
Proof.
  split; [|split].
  - intros (buffer & Hrun & _ & Hch).
    cbv in Hrun. injection Hrun as <-.
    destruct (Hch 0) as (channelData & Hlook & Hlen & _); [lia|].
    cbv in Hlook. injection Hlook as <-. discriminate Hlen.
  - intros (buffer & Hrun & _). discriminate Hrun.
  - intros (buffer & Hrun & _). discriminate Hrun.
Qed.

(** C2, for arguments the context accepts. For every sample rate and
    channel count that the context's [createBuffer] accepts, decoding the
    empty string, or a null or undefined payload, succeeds with a buffer of
    exactly 1 frame per channel, every sample 0, at the requested sample rate
    and channel count. The same holds when [decodeAudioData] is handed a
    null or undefined array. *)
Theorem decode_empty_payload (ctx : AudioContext) (sampleRate : Z)
    (numChannels : nat) :
  accepts ctx numChannels sampleRate →
  decodeBase64 (Some ""%string) = Ok (Uint8Array_of [])
  ∧ decodeBase64 None = Ok (Uint8Array_of [])
  ∧ decode_pipeline (Some ""%string) ctx sampleRate numChannels
    = Ok (silent_frame numChannels sampleRate)
  ∧ decode_pipeline None ctx sampleRate numChannels
    = Ok (silent_frame numChannels sampleRate)
  ∧ decodeAudioData None ctx sampleRate numChannels
    = Ok (silent_frame numChannels sampleRate)
  ∧ ab_length (silent_frame numChannels sampleRate) = 1
  ∧ numberOfChannels (silent_frame numChannels sampleRate) = numChannels
  ∧ ab_sampleRate (silent_frame numChannels sampleRate) = sampleRate
  ∧ length (ab_channels (silent_frame numChannels sampleRate)) = numChannels
  ∧ ∀ c, c < numChannels →
      ab_channels (silent_frame numChannels sampleRate) !! c = Some [Num 0].
Proof.
  intros Hacc.
  assert (Hsilent : createBuffer ctx numChannels 1 sampleRate
                    = Ok (silent_frame numChannels sampleRate)).
  { by rewrite createBuffer_accepts. }
  split; [reflexivity|]. split; [reflexivity|].
  split; [exact Hsilent|]. split; [exact Hsilent|]. split; [exact Hsilent|].
  repeat split.
  - cbn. apply length_replicate.
  - intros c Hc. cbn. by apply lookup_replicate_2.
Qed.

Lemma decode_empty_payload_witness :
  accepts audioCtx 2 24000
  ∧ decode_pipeline (Some ""%string) audioCtx 24000 2 = Ok (silent_frame 2 24000)
  ∧ ab_channels (silent_frame 2 24000) !! 1 = Some [Num 0].
Proof.
  assert (Hacc : accepts audioCtx 2 24000) by (apply audioCtx_accepts; lia).
  destruct (decode_empty_payload audioCtx 24000 2 Hacc)
    as (_ & _ & Hrun & _ & _ & _ & _ & _ & _ & Hsilent).
  split; [exact Hacc|]. split; [exact Hrun|]. apply Hsilent. lia.
Defined.

(** C2 on arguments the context refuses. The property does not hold for
    every sample rate and channel count: with no channel, and with a sample
    rate of 0, [createBuffer] throws whatever the context, and so it does
    at 1000 Hz in a context that supports the rates from 8000 Hz. *)
Lemma decode_empty_payload_refused :
  (∀ ctx sampleRate,
     decode_pipeline (Some ""%string) ctx sampleRate 0 = Throw NotSupportedError)
  ∧ (∀ ctx numChannels,
       decode_pipeline None ctx 0 numChannels = Throw NotSupportedError)
  ∧ decode_pipeline (Some ""%string) audioCtx 1000 1 = Throw NotSupportedError.
Proof.
  split; [done|]. split; [|done].
  intros ctx numChannels.
  change (createBuffer ctx numChannels 1 0 = Throw NotSupportedError).
  unfold createBuffer, createBuffer_supports.
  change (0 <? 0)%Z with false. by rewrite andb_false_r.
Qed.

(** C3. For every byte buffer of odd length [N], [decodeAudioData] reads its
    samples from the first [N - 1] bytes only: the buffer it pairs is the
    input without its final byte, and whatever that final byte is, the
    outcome is the same. When the first [N - 1] bytes hold at least one
    frame and the context accepts the arguments, that outcome is the
    de-interleaving of the samples of the first [N - 1] bytes. *)
Theorem decodeAudioData_drops_odd_byte (data : list byte) (ctx : AudioContext)
    (sampleRate : Z) (numChannels : nat) :
  length data mod 2 = 1 →
  let N := length data in
  let kept := take (N - 1) data in
  bufferToUse (Uint8Array_of data) = kept
  ∧ dataInt16_of (Uint8Array_of data)
    = Ok {| i16_buffer := kept; i16_byteOffset := 0; i16_length := (N - 1) / 2 |}
  ∧ (∀ sentinel : byte,
       decodeAudioData (Some (Uint8Array_of (kept ++ [sentinel]))) ctx sampleRate
         numChannels
       = decodeAudioData (Some (Uint8Array_of data)) ctx sampleRate numChannels)
  ∧ (accepts ctx numChannels sampleRate → numChannels ≤ (N - 1) / 2 →
     decodeAudioData (Some (Uint8Array_of data)) ctx sampleRate numChannels
     = Ok (spec_deinterleave (spec_PCMSampleBuffer kept) numChannels
             ((N - 1) / 2 / numChannels) sampleRate)).
Proof.
  intros Hodd N kept.
  assert (Hhalf : 2 * (N / 2) = N - 1) by (unfold N; lia).
  assert (Hhalf' : N / 2 = (N - 1) / 2) by (unfold N; lia).
  assert (Hkept : length kept = N - 1) by (unfold kept; rewrite length_take; lia).
  assert (Hrun : ∀ bs, length bs = N → take (N - 1) bs = kept →
    decodeAudioData (Some (Uint8Array_of bs)) ctx sampleRate numChannels
    = if createBuffer_supports ctx numChannels ((N - 1) / 2 / numChannels)
           sampleRate
      then Ok (spec_deinterleave (spec_PCMSampleBuffer kept) numChannels
                 ((N - 1) / 2 / numChannels) sampleRate)
      else Throw NotSupportedError).
  { intros bs Hlen Htake.
    rewrite decodeAudioData_nonempty_cases by (intros ->; cbn in Hlen; lia).
    rewrite Hlen, Hhalf'.
    assert (Hsamples : spec_PCMSampleBuffer bs = spec_PCMSampleBuffer kept).
    { rewrite <- (take_drop (N - 1) bs), Htake.
      assert (Hdrop : length (drop (N - 1) bs) = 1) by (rewrite length_drop; lia).
      destruct (drop (N - 1) bs) as [|x [|]]; try discriminate Hdrop.
      apply spec_PCMSampleBuffer_odd. unfold N in *. lia. }
    by rewrite Hsamples. }
  split; [by rewrite bufferToUse_of; fold N; rewrite Hhalf|].
  split.
  { rewrite dataInt16_of_whole. fold N. by rewrite Hhalf, Hhalf'. }
  split.
  - intros sentinel. rewrite (Hrun data) by done. apply Hrun.
    + rewrite length_app, Hkept. cbn. unfold N in *. lia.
    + rewrite take_app_length'; [done|lia].
  - intros Hacc Hframe. rewrite (Hrun data) by done.
    rewrite (proj2 (createBuffer_supports_accepts _ _ _ _)); [done|].
    split; [done|]. destruct Hacc as [[? _] _].
    apply Nat.div_le_lower_bound; lia.
Qed.

Lemma decodeAudioData_drops_odd_byte_witness :
  length [x01; x00; x34; x12; xff] mod 2 = 1
  ∧ (∀ sentinel : byte,
       decodeAudioData (Some (Uint8Array_of ([x01; x00; x34; x12] ++ [sentinel])))
         audioCtx 24000 1
       = decodeAudioData (Some (Uint8Array_of [x01; x00; x34; x12; xff]))
           audioCtx 24000 1)
  ∧ decodeAudioData (Some (Uint8Array_of [x01; x00; x34; x12; xff])) audioCtx 24000 1
    = Ok (spec_deinterleave (spec_PCMSampleBuffer [x01; x00; x34; x12]) 1 2 24000).
Proof.
  destruct (decodeAudioData_drops_odd_byte [x01; x00; x34; x12; xff] audioCtx
              24000 1 eq_refl) as (_ & _ & Hsentinel & Hrun).
  split; [reflexivity|]. split; [exact Hsentinel|].
  apply Hrun; [apply audioCtx_accepts; lia | cbn; lia].
Defined.

(** C4, for a sample rate the context accepts. Seven raw bytes at
    [numChannels = 2], at any sample rate the context accepts on two
    channels: the frame count is 1, channel 0 holds the first 16-bit sample
    and channel 1 the second, and nothing else; the third sample (bytes 4
    and 5) and the odd seventh byte are in neither channel array. *)
Theorem decodeAudioData_seven_bytes (b0 b1 b2 b3 b4 b5 b6 : byte)
    (ctx : AudioContext) (sampleRate : Z) :
  accepts ctx 2 sampleRate →
  decodeAudioData (Some (Uint8Array_of [b0; b1; b2; b3; b4; b5; b6])) ctx sampleRate 2
  = Ok {| numberOfChannels := 2;
          ab_length := 1;
          ab_sampleRate := sampleRate;
          ab_channels := [[Num (int16_le b0 b1 # 32768)];
                          [Num (int16_le b2 b3 # 32768)]] |}.
Proof.
  intros Hacc. by rewrite decodeAudioData_nonempty by (done || cbn; lia).
Qed.

Lemma decodeAudioData_seven_bytes_witness :
  accepts audioCtx 2 24000
  ∧ decodeAudioData
      (Some (Uint8Array_of [x01; x00; x02; x00; x03; x00; x04])) audioCtx 24000 2
    = Ok {| numberOfChannels := 2;
            ab_length := 1;
            ab_sampleRate := 24000;
            ab_channels := [[Num (int16_le x01 x00 # 32768)];
                            [Num (int16_le x02 x00 # 32768)]] |}.
Proof.
  assert (Hacc : accepts audioCtx 2 24000) by (apply audioCtx_accepts; lia).
  split; [exact Hacc|].
  exact (decodeAudioData_seven_bytes x01 x00 x02 x00 x03 x00 x04 audioCtx 24000
           Hacc).
Defined.

(** C4 at a sample rate the context refuses. The property does not hold at
    any sample rate: at a rate of 0 [createBuffer] throws whatever the
    context, and so it does at 1000 Hz in a context that supports the rates
    from 8000 Hz. *)
Lemma decodeAudioData_seven_bytes_refused :
  (∀ ctx,
     decodeAudioData
       (Some (Uint8Array_of [x01; x00; x02; x00; x03; x00; x04])) ctx 0 2
     = Throw NotSupportedError)
  ∧ decodeAudioData
      (Some (Uint8Array_of [x01; x00; x02; x00; x03; x00; x04])) audioCtx 1000 2
    = Throw NotSupportedError.
Proof.
  split; [|done]. intros ctx.
  rewrite decodeAudioData_nonempty_cases by done.
  unfold createBuffer_supports. change (0 <? 0)%Z with false.
  by rewrite !andb_false_r.
Qed.

(** C5, for the decoder the code calls. [decodeBase64] throws the decode
    error, and the pipeline produces no buffer, for every string that holds
    a character which is neither of the base64 alphabet, nor ASCII white
    space, nor [=] (for example [!]), and for every string in which, white
    space removed, an [=] occurs otherwise than as one or two final
    characters of data whose length is a multiple of 4. Every base64
    encoding of a byte sequence decodes to that sequence; whenever
    [decodeBase64] succeeds, with no byte or with at least one frame of
    bytes, and the context accepts the sample rate and the channel count,
    [decodeAudioData] succeeds on its result; and the only error a step
    after [decodeBase64] raises is the [NotSupportedError] of
    [createBuffer]. *)
Theorem decodeBase64_rejects_malformed (ctx : AudioContext) (sampleRate : Z)
    (numChannels : nat) :
  (∀ s c,
     In c (list_ascii_of_string s) →
     is_base64_char c = false → is_ascii_whitespace c = false → c ≠ "="%char →
     decodeBase64 (Some s) = Throw InvalidCharacterError
     ∧ decode_pipeline (Some s) ctx sampleRate numChannels
       = Throw InvalidCharacterError)
  ∧ (∀ s,
       In "="%char (remove_ascii_whitespace s) →
       ¬ well_padded (remove_ascii_whitespace s) →
       decodeBase64 (Some s) = Throw InvalidCharacterError
       ∧ decode_pipeline (Some s) ctx sampleRate numChannels
         = Throw InvalidCharacterError)
  ∧ (∀ bs, decodeBase64 (Some (spec_base64 bs)) = Ok (Uint8Array_of bs))
  ∧ (∀ base64 data,
       decodeBase64 base64 = Ok data →
       accepts ctx numChannels sampleRate →
       u8_length data = 0 ∨ numChannels ≤ u8_length data / 2 →
       ∃ buffer, decodeAudioData (Some data) ctx sampleRate numChannels = Ok buffer)
  ∧ (∀ base64 e,
       decode_pipeline base64 ctx sampleRate numChannels = Throw e →
       (e = InvalidCharacterError
        ∧ decodeBase64 base64 = Throw InvalidCharacterError)
       ∨ (e = NotSupportedError ∧ ∃ data, decodeBase64 base64 = Ok data)).
Proof.
  assert (Hthrow : ∀ s, s ≠ ""%string → atob s = Throw InvalidCharacterError →
    decodeBase64 (Some s) = Throw InvalidCharacterError
    ∧ decode_pipeline (Some s) ctx sampleRate numChannels
      = Throw InvalidCharacterError).
  { intros s Hne Hs. unfold decode_pipeline.
    by rewrite (decodeBase64_Throw s InvalidCharacterError). }
  split.
  { intros s c Hin Hc Hws Heq.
    apply Hthrow; [by intros -> | by eapply atob_invalid_character]. }
  split.
  { intros s Hin Hpad.
    apply Hthrow; [by intros -> | by apply atob_misplaced_padding]. }
  split; [apply decodeBase64_spec_base64|].
  split.
  - intros base64 data Hdata Hacc Hframes.
    destruct (decodeBase64_whole base64 data Hdata) as [bs ->].
    apply decodeAudioData_whole_Ok; [done|].
    cbn [u8_length Uint8Array_of u8_byteLength] in Hframes.
    destruct Hframes as [Hnil|Hframe]; [left; by destruct bs | by right].
  - intros base64 e Hrun. unfold decode_pipeline in Hrun.
    destruct (decodeBase64 base64) as [data|e'] eqn:Hdata.
    + right. destruct (decodeBase64_whole base64 data Hdata) as [bs ->].
      cbn [mbind result_bind] in Hrun.
      apply decodeAudioData_whole_Throw in Hrun. split; [done|by eexists].
    + left. injection Hrun as <-.
      apply decodeBase64_error in Hdata as Heq. by subst e'.
Qed.

Lemma decodeBase64_rejects_malformed_witness :
  decodeBase64 (Some "QUJ!"%string) = Throw InvalidCharacterError
  ∧ decodeBase64 (Some "QQ="%string) = Throw InvalidCharacterError.
Proof.
  destruct (decodeBase64_rejects_malformed audioCtx 24000 1)
    as (Hchar & Hpad & _).
  split.
  - apply (Hchar "QUJ!"%string "!"%char); [cbn; auto 10 | reflexivity..| discriminate].
  - apply (Hpad "QQ="%string); [vm_compute; auto 10|].
    intros (body & pad & _ & _ & _ & Hlen). vm_compute in Hlen. discriminate Hlen.
Defined.

(** C5 on a string with white space, and on a payload of one byte. A space
    is outside the base64 alphabet, yet the string decodes: [atob] removes
    ASCII white space before it looks at the characters. And a well-formed
    payload of one byte decodes, after which [createBuffer] is asked for a
    buffer of no frame and throws. *)
Lemma decodeBase64_accepts_whitespace :
  ¬ rejects_foreign_characters_claim "AA AA"%string
  ∧ decodeBase64 (Some "QQ=="%string) = Ok (Uint8Array_of [x41])
  ∧ decode_pipeline (Some "QQ=="%string) audioCtx default_sampleRate
      default_numChannels
    = Throw NotSupportedError.
Proof.
  split; [|split; reflexivity].
  intros Hclaim.
  destruct (Hclaim " "%char) as [e He]; [cbn; auto 10 | reflexivity | discriminate |].
  discriminate He.
Qed.

(** C6, for a non-empty sequence. For every non-empty sequence [V] of
    signed 16-bit integers, the round trip at channel count 1, at a sample
    rate the context accepts, gives a frame count equal to the length of [V]
    and, at each index [i], the sample [V[i] / 32768]: exactly, hence within
    [1e-6]. *)
Theorem decode_roundtrip (V : list Z) (ctx : AudioContext) (sampleRate : Z) :
  accepts ctx 1 sampleRate →
  V ≠ [] →
  Forall (λ v, (-32768 ≤ v ≤ 32767)%Z) V →
  roundtrip_claim V ctx sampleRate
  ∧ decode_pipeline (Some (spec_base64 (spec_le_bytes V))) ctx sampleRate 1
    = Ok {| numberOfChannels := 1;
            ab_length := length V;
            ab_sampleRate := sampleRate;
            ab_channels := [map (λ v, Num (v # 32768)) V] |}.
Proof.
  intros Hacc Hne Hrange.
  assert (Hrun : decode_pipeline (Some (spec_base64 (spec_le_bytes V))) ctx sampleRate 1
    = Ok {| numberOfChannels := 1;
            ab_length := length V;
            ab_sampleRate := sampleRate;
            ab_channels := [map (λ v, Num (v # 32768)) V] |}).
  { unfold decode_pipeline. rewrite decodeBase64_spec_base64.
    cbn [mbind result_bind].
    rewrite decodeAudioData_nonempty; [|done|].
    2: { rewrite spec_le_bytes_length. destruct V; [done|cbn [length]; lia]. }
    rewrite spec_PCMSampleBuffer_le_bytes by done.
    rewrite spec_le_bytes_length.
    replace (2 * length V / 2 / 1) with (length V) by lia.
    unfold spec_deinterleave. cbn [seq map]. do 3 f_equal.
    unfold spec_channel. apply list_eq. intros i. rewrite !list_lookup_fmap.
    destruct (decide (i < length V)) as [Hi|Hi].
    - rewrite lookup_seq_lt by done. cbn [fmap option_fmap option_map].
      replace (0 + i) with i by lia. replace (i * 1 + 0) with i by lia.
      destruct (lookup_lt_is_Some_2 V i Hi) as [v Hv]. by rewrite Hv.
    - rewrite lookup_seq_ge by lia. by rewrite lookup_ge_None_2 by lia. }
  split; [|done].
  eexists. eexists. split; [apply Hrun|]. cbn [ab_length ab_channels].
  split; [done|]. split; [done|]. split; [by rewrite length_map|].
  intros i v Hv. exists (v # 32768)%Q. split.
  - by rewrite list_lookup_fmap, Hv.
  - rewrite pcm_quotient_exact. done.
Qed.

Lemma decode_roundtrip_witness :
  roundtrip_claim [1; -1; -32768; 32767; 0; 258]%Z audioCtx 24000.
Proof.
  apply (decode_roundtrip [1; -1; -32768; 32767; 0; 258]%Z audioCtx 24000).
  - apply audioCtx_accepts; lia.
  - discriminate.
  - repeat constructor; lia.
Defined.

(** C6 on the empty sequence. It encodes to the empty string, which decodes
    to 1 silent frame: the frame count is not the length of [V]. *)
Lemma decode_roundtrip_empty_sequence : ¬ roundtrip_claim [] audioCtx 24000.
Proof.
  intros (buffer & channelData & Hrun & Hlen & _).
  cbv in Hrun. injection Hrun as <-. discriminate Hlen.
Qed.



(** C8. Decoding is deterministic and pure. Run from any two stores, on
    equal input string, sample rate and channel count, [decodeBase64]
    followed by [decodeAudioData] has the same outcome: the same error, or
    buffers with the same frame count, sample rate, channel count and
    per-channel samples, namely those of the function on values. Each run
    leaves every object that was in its store unchanged, and the channel
    arrays it returns are freshly allocated, distinct objects. *)
Theorem decode_pipeline_deterministic_pure (base64 : option string)
    (ctx : AudioContext) (sampleRate : Z) (numChannels : nat)
    (h1 h2 : Store.heap) :
  observe (Store.decode_pipeline base64 ctx sampleRate numChannels h1)
  = observe (Store.decode_pipeline base64 ctx sampleRate numChannels h2)
  ∧ observe (Store.decode_pipeline base64 ctx sampleRate numChannels h1)
    = outcome (decode_pipeline base64 ctx sampleRate numChannels)
  ∧ h1 `prefix_of` (Store.decode_pipeline base64 ctx sampleRate numChannels h1).2
  ∧ h2 `prefix_of` (Store.decode_pipeline base64 ctx sampleRate numChannels h2).2
  ∧ (∀ b, (Store.decode_pipeline base64 ctx sampleRate numChannels h1).1 = Ok b →
          fresh_channels h1 b)
  ∧ (∀ b, (Store.decode_pipeline base64 ctx sampleRate numChannels h2).1 = Ok b →
          fresh_channels h2 b).
Proof.
  destruct (Store_decode_pipeline_refines base64 ctx sampleRate numChannels h1)
    as (Hpre1 & Hobs1 & Hfresh1).
  destruct (Store_decode_pipeline_refines base64 ctx sampleRate numChannels h2)
    as (Hpre2 & Hobs2 & Hfresh2).
  repeat split; try done.
  - by rewrite Hobs1, Hobs2.
  - by apply Hfresh1.
  - by apply Hfresh1.
  - by apply Hfresh2.
  - by apply Hfresh2.
Qed.

Lemma decode_pipeline_deterministic_pure_witness :
  fresh_channels [Store.ArrayBufferObj [xff]; Store.Float32ArrayObj [NaN]]
    {| Store.numberOfChannels := 1; Store.ab_length := 2;
       Store.ab_sampleRate := 24000; Store.ab_channels := [3] |}.
Proof.
  apply (decode_pipeline_deterministic_pure (Some "AQD//w=="%string) audioCtx
           24000 1
           [Store.ArrayBufferObj [xff]; Store.Float32ArrayObj [NaN]] []).
  reflexivity.
Defined.

(** C9, for an input of at least one frame. For every byte input that
    holds at least one frame, and every sample rate and channel count
    [numChannels >= 1] that the context accepts, the produced frame count
    satisfies
    [frameCount * numChannels <= sampleCount
       <= frameCount * numChannels + (numChannels - 1)]. *)
Theorem decodeAudioData_frame_bound (bs : list byte) (ctx : AudioContext)
    (sampleRate : Z) (numChannels : nat) :
  accepts ctx numChannels sampleRate →
  numChannels ≤ length bs / 2 →
  frame_bound_claim bs ctx sampleRate numChannels.
Proof.
  intros Hacc Hframe. unfold frame_bound_claim.
  assert (Hnc : 1 ≤ numChannels) by (destruct Hacc as [[? _] _]; done).
  eexists. eexists. split; [by apply decodeAudioData_nonempty|].
  split; [apply dataInt16_of_whole|].
  cbn [spec_deinterleave ab_length i16_length].
  pose proof (Nat.div_mod_eq (length bs / 2) numChannels).
  pose proof (Nat.mod_upper_bound (length bs / 2) numChannels).
  nia.
Qed.

Lemma decodeAudioData_frame_bound_witness :
  frame_bound_claim [x01; x00; x02; x00; x03; x00; x04] audioCtx 24000 2.
Proof.
  apply decodeAudioData_frame_bound; [apply audioCtx_accepts; lia | cbn; lia].
Defined.

(** C9 on the inputs it does not extend to. On the empty input the
    produced frame count is 1 and there is no sample: [1 * 1 <= 0] fails. On
    one byte, which is less than a frame, and at a sample rate the context
    refuses, no frame count is produced at all. *)
Lemma decodeAudioData_frame_bound_empty_input :
  ¬ frame_bound_claim [] audioCtx 24000 1
  ∧ ¬ frame_bound_claim [x41] audioCtx 24000 1
  ∧ ¬ frame_bound_claim [x01; x00] audioCtx 1000 1.
Proof.
  split; [|split].
  - intros (buffer & dataInt16 & Hrun & Hview & Hlow & _).
    cbv in Hrun. injection Hrun as <-.
    cbv in Hview. injection Hview as <-.
    cbn in Hlow. lia.
  - intros (buffer & dataInt16 & Hrun & _). discriminate Hrun.
  - intros (buffer & dataInt16 & Hrun & _). discriminate Hrun.
Qed.

(** C10, what the code does. For every non-empty byte input with fewer
    complete 16-bit samples than channels, [decodeAudioData] produces no
    buffer: the frame count it passes to [createBuffer] is 0, which
    [createBuffer] refuses with a [NotSupportedError], whatever the context.
    The guard that returns one silent frame covers the empty input only. *)
Theorem decodeAudioData_short_input (bs : list byte) (ctx : AudioContext)
    (sampleRate : Z) (numChannels : nat) :
  bs ≠ [] → length bs / 2 < numChannels →
  decodeAudioData (Some (Uint8Array_of bs)) ctx sampleRate numChannels
  = Throw NotSupportedError
  ∧ (∃ dataInt16,
       dataInt16_of (Uint8Array_of bs) = Ok dataInt16
       ∧ Z.to_nat (Qfloor (frameCount_of dataInt16 numChannels)) = 0)
  ∧ (accepts ctx numChannels sampleRate →
     decodeAudioData (Some (Uint8Array_of [])) ctx sampleRate numChannels
     = Ok (silent_frame numChannels sampleRate)).
Proof.
  intros Hne Hshort. split; [by apply decodeAudioData_no_frame|]. split.
  - eexists. split; [apply dataInt16_of_whole|].
    unfold frameCount_of. cbn [i16_length].
    rewrite floor_frameCount. by apply Nat.div_small.
  - intros Hacc. rewrite decodeAudioData_empty. by apply createBuffer_accepts.
Qed.

Lemma decodeAudioData_short_input_witness :
  [x01; x00] ≠ [] ∧ length [x01; x00] / 2 < 2
  ∧ decodeAudioData (Some (Uint8Array_of [x01; x00])) audioCtx 24000 2
    = Throw NotSupportedError.
Proof.
  split; [discriminate|]. split; [cbn; lia|].
  apply (decodeAudioData_short_input [x01; x00] audioCtx 24000 2);
    [discriminate | cbn; lia].
Defined.

(** * Further properties of the code *)

(** ** [decodeBase64]: white space, padding, length *)

Lemma remove_ascii_whitespace_atob (s t : string) :
  remove_ascii_whitespace s = remove_ascii_whitespace t → atob s = atob t.
Proof.
  intros Heq. unfold atob, forgiving_base64_decode. by rewrite Heq.
Qed.

Lemma atob_whitespace_only (s : string) :
  remove_ascii_whitespace s = [] → atob s = Ok ""%string.
Proof.
  intros Heq. unfold atob, forgiving_base64_decode. by rewrite Heq.
Qed.

(** X1. White space does not count: two strings that are equal once their
    ASCII white space (space, tab, line feed, form feed, carriage return) is
    removed decode to the same bytes, or both fail. A payload wrapped over
    several lines decodes like the unwrapped one. *)
Theorem decodeBase64_ignores_whitespace (s t : string) :
  remove_ascii_whitespace s = remove_ascii_whitespace t →
  decodeBase64 (Some s) = decodeBase64 (Some t).
Proof.
  intros Heq. rewrite !decodeBase64_unfold.
  destruct (String.eqb_spec s "") as [->|Hs];
    destruct (String.eqb_spec t "") as [->|Ht]; [done| | |].
  - rewrite (atob_whitespace_only t) by done. done.
  - rewrite (atob_whitespace_only s) by done. done.
  - by rewrite (remove_ascii_whitespace_atob s t).
Qed.

Lemma decodeBase64_ignores_whitespace_witness :
  decodeBase64 (Some "AQ D/
/w= ="%string) = decodeBase64 (Some "AQD//w=="%string).
Proof.
  apply decodeBase64_ignores_whitespace. reflexivity.
Defined.

Lemma strip_padding_sextets (data : list ascii) :
  Forall sextet_char data → strip_padding data = data.
Proof.
  intros Hall. unfold strip_padding.
  destruct (length data mod 4 =? 0); [|done].
  by rewrite remove_final_equals_sextets.
Qed.

(** X2. Padding may be left out: the base64 encoding of any byte sequence,
    written without its final [=] characters, decodes to that sequence. *)
Theorem decodeBase64_unpadded (bs : list byte) :
  decodeBase64 (Some (string_of_list_ascii (encode_body bs))) = Ok (Uint8Array_of bs).
Proof.
  rewrite decodeBase64_unfold.
  destruct (String.eqb_spec (string_of_list_ascii (encode_body bs)) "") as [Heq|_].
  - destruct bs as [|x [|y [|z l]]]; [done|discriminate Heq..].
  - unfold atob, forgiving_base64_decode, decode_sextets, remove_ascii_whitespace.
    rewrite list_ascii_of_string_of_list_ascii.
    pose proof (encode_body_chars bs) as Hall.
    rewrite filter_all.
    2: { eapply Forall_impl; [exact Hall|]. intros c (i & Hi & ->). cbn beta.
         by destruct (base64_char_props i Hi) as (_ & _ & -> & _). }
    rewrite strip_padding_sextets by done.
    destruct (encode_body_length bs) as [Hlen _].
    destruct (Nat.eqb_spec (length (encode_body bs) mod 4) 1) as [|_]; [done|].
    replace (forallb is_base64_char (encode_body bs)) with true.
    2: { symmetry. apply forallb_forall. intros c Hc.
         rewrite Forall_forall in Hall.
         destruct (Hall c) as (i & Hi & ->); [by apply list_elem_of_In|].
         by destruct (base64_char_props i Hi) as (_ & -> & _). }
    cbn [negb mbind result_bind]. rewrite decode_encode_body. cbn [app].
    rewrite list_ascii_of_string_of_list_ascii, map_map.
    do 2 f_equal. rewrite <- (map_id bs) at 2. apply map_ext.
    intros x. apply byte_of_ascii_of_byte.
Qed.

(** The decoding loop: after [k] characters the bit buffer holds
    [6 * (k mod 4)] bits and [3 * (k / 4)] bytes have left it. *)
Lemma decode_step_count (data : list ascii) :
  ∀ buffer bits output,
    foldl decode_step (0%Z, 0, []) data = (buffer, bits, output) →
    bits = 6 * (length data mod 4) ∧ length output = 3 * (length data / 4).
Proof.
  induction data as [|c data IH] using rev_ind; intros buffer bits output.
  - intros [= <- <- <-]. done.
  - rewrite foldl_app. cbn [foldl].
    destruct (foldl decode_step (0%Z, 0, []) data) as [[buffer0 bits0] output0].
    destruct (IH buffer0 bits0 output0 eq_refl) as [-> Hout].
    rewrite length_app. cbn [length]. unfold decode_step. clear IH.
    remember (length data mod 4) as m eqn:Hm.
    destruct (Nat.eqb_spec (6 * m + 6) 24) as [H24|H24];
      intros [= <- <- <-].
    + rewrite length_app, Hout. cbn [length]. lia.
    + lia.
Qed.

Lemma decode_sextets_length (data : list ascii) (decoded : string) :
  decode_sextets data = Some decoded →
  length data mod 4 ≠ 1 ∧ String.length decoded = 3 * length data / 4.
Proof.
  unfold decode_sextets.
  destruct (Nat.eqb_spec (length data mod 4) 1) as [|Hmod]; [done|].
  destruct (negb (forallb is_base64_char data)); [done|].
  intros [= <-]. split; [done|].
  rewrite string_length_list, list_ascii_of_string_of_list_ascii.
  destruct (foldl decode_step (0%Z, 0, []) data) as [[buffer bits] output] eqn:Hrun.
  destruct (decode_step_count data buffer bits output Hrun) as [-> Hout].
  unfold decode_flush. remember (length data mod 4) as m eqn:Hm.
  destruct (Nat.eqb_spec (6 * m) 12);
    [rewrite length_app; cbn [length]; lia|].
  destruct (Nat.eqb_spec (6 * m) 18);
    [rewrite length_app; cbn [length]; lia|].
  lia.
Qed.

Lemma decodeBase64_Ok_length (s : string) (a : Uint8Array) :
  decodeBase64 (Some s) = Ok a →
  let n := length (strip_padding (remove_ascii_whitespace s)) in
  n mod 4 ≠ 1
  ∧ u8_byteLength a = 3 * n / 4
  ∧ length (u8_buffer a) = 3 * n / 4
  ∧ u8_byteOffset a = 0.
Proof.
  rewrite decodeBase64_unfold. intros Hrun n.
  destruct (String.eqb_spec s "") as [->|_].
  { injection Hrun as <-. by vm_compute. }
  unfold atob, forgiving_base64_decode in Hrun. fold n in Hrun.
  destruct (decode_sextets (strip_padding (remove_ascii_whitespace s)))
    as [decoded|] eqn:Hdec; [|done].
  apply decode_sextets_length in Hdec as [Hmod Hlen]. fold n in Hmod, Hlen.
  injection Hrun as <-. cbn [Uint8Array_of u8_byteLength u8_buffer u8_byteOffset].
  rewrite length_map, <- string_length_list. done.
Qed.

(** X3. The number of decoded bytes: when [decodeBase64] returns, its array
    holds [floor (3 * n / 4)] bytes, [n] being the number of characters left
    once white space and final padding are removed, and [n] is not 1
    modulo 4. *)
Theorem decodeBase64_length (s : string) (a : Uint8Array) :
  decodeBase64 (Some s) = Ok a →
  let n := length (strip_padding (remove_ascii_whitespace s)) in
  n mod 4 ≠ 1
  ∧ u8_byteLength a = 3 * n / 4
  ∧ length (u8_buffer a) = 3 * n / 4
  ∧ u8_byteOffset a = 0.
Proof. apply decodeBase64_Ok_length. Qed.

Lemma decodeBase64_length_witness :
  u8_byteLength (Uint8Array_of [x01; x00; xff; xff]) = 3 * 6 / 4.
Proof.
  apply (decodeBase64_length "AQD//w=="%string (Uint8Array_of [x01; x00; xff; xff])).
  reflexivity.
Defined.

Lemma strip_padding_nil (data : list ascii) : strip_padding data = [] → data = [].
Proof.
  unfold strip_padding.
  destruct (Nat.eqb_spec (length data mod 4) 0) as [Hlen|_]; [|done].
  destruct (remove_final_equals data) as [data1|] eqn:H1; [|done].
  apply remove_final_equals_Some in H1. subst data.
  destruct (remove_final_equals data1) as [data2|] eqn:H2.
  - apply remove_final_equals_Some in H2. subst data1. intros ->.
    discriminate Hlen.
  - intros ->. discriminate Hlen.
Qed.

(** X4. The empty array: [decodeBase64] returns an array of no byte exactly
    for a null or undefined payload and for a string that holds nothing but
    ASCII white space (the empty string among them). Every other string
    either fails or gives at least one byte. *)
Theorem decodeBase64_empty_iff (base64 : option string) :
  (∃ a, decodeBase64 base64 = Ok a ∧ u8_byteLength a = 0)
  ↔ (base64 = None ∨ ∃ s, base64 = Some s ∧ remove_ascii_whitespace s = []).
Proof.
  split.
  - intros (a & Hrun & Hlen). destruct base64 as [s|]; [right|by left].
    exists s. split; [done|].
    destruct (decodeBase64_Ok_length s a Hrun) as (Hmod & Hn & _).
    apply strip_padding_nil, nil_length_inv.
    rewrite Hlen in Hn. lia.
  - intros [->|(s & -> & Hws)]; [by exists (Uint8Array_of [])|].
    exists (Uint8Array_of []). split; [|done].
    rewrite decodeBase64_unfold. destruct (String.eqb s ""); [done|].
    by rewrite atob_whitespace_only.
Qed.

Lemma decodeBase64_empty_iff_witness :
  ∃ a, decodeBase64 (Some " 
"%string) = Ok a ∧ u8_byteLength a = 0.
Proof.
  apply decodeBase64_empty_iff. right. eexists. split; reflexivity.
Defined.

(** ** [decodeAudioData] on a view of a larger buffer *)

Lemma for_loop_ext {St : Type} (cond : nat → bool) (body1 body2 : nat → St → St) :
  (∀ i s, body1 i s = body2 i s) →
  ∀ fuel i s, for_loop fuel cond body1 i s = for_loop fuel cond body2 i s.
Proof.
  intros Hext. induction fuel as [|fuel IH]; intros i s; [done|].
  cbn [for_loop]. destruct (cond i); [|done]. by rewrite Hext, IH.
Qed.

Lemma fill_buffer_ext (v1 v2 : Int16Array) (frameCount : Q) (numChannels : nat)
    (buffer : AudioBuffer) :
  i16_length v1 = i16_length v2 →
  (∀ k, Int16Array_get v1 k = Int16Array_get v2 k) →
  fill_buffer v1 frameCount numChannels buffer
  = fill_buffer v2 frameCount numChannels buffer.
Proof.
  intros Hlen Hget. unfold fill_buffer. apply for_loop_ext.
  intros channel [b|e]; [|done]. cbn [mbind result_bind].
  destruct (getChannelData b channel) as [cd|e]; [|done].
  cbn [mbind result_bind]. do 2 f_equal.
  unfold fill_channel. rewrite Hlen. apply for_loop_ext.
  intros i s. by rewrite Hget.
Qed.

(** The 16-bit view at [byteOffset] reads what a view at 0 of the bytes
    from [byteOffset] on reads. *)
Lemma Int16Array_get_offset (buf : list byte) (byteOffset n k : nat) :
  Int16Array_get {| i16_buffer := buf; i16_byteOffset := byteOffset;
                    i16_length := n |} k
  = Int16Array_get {| i16_buffer := take (2 * n) (drop byteOffset buf);
                      i16_byteOffset := 0; i16_length := n |} k.
Proof.
  unfold Int16Array_get. cbn [i16_buffer i16_byteOffset i16_length].
  destruct (decide (k < n)) as [Hk|Hk]; [|done].
  rewrite !Nat.add_0_l, !lookup_take_lt by lia.
  by rewrite !lookup_drop, Nat.add_assoc.
Qed.

(** X5. A view of a larger buffer is decoded like a copy of the bytes it
    shows, provided its offset is even and either its length is even or its
    offset is 0. *)
Theorem decodeAudioData_view (buf : list byte) (byteOffset byteLength : nat)
    (ctx : AudioContext) (sampleRate : Z) (numChannels : nat) :
  0 < byteLength →
  byteOffset + byteLength ≤ length buf →
  byteOffset mod 2 = 0 →
  byteLength mod 2 = 0 ∨ byteOffset = 0 →
  decodeAudioData
    (Some {| u8_buffer := buf; u8_byteOffset := byteOffset;
             u8_byteLength := byteLength |})
    ctx sampleRate numChannels
  = decodeAudioData
      (Some (Uint8Array_of (take byteLength (drop byteOffset buf))))
      ctx sampleRate numChannels.
Proof.
  intros Hpos Hfit Heven Hcase.
  set (bs := take byteLength (drop byteOffset buf)).
  assert (Hbs : length bs = byteLength).
  { unfold bs. rewrite length_take, length_drop. lia. }
  unfold decodeAudioData at 2.
  cbn [Uint8Array_of u8_length u8_byteLength]. rewrite Hbs.
  rewrite dataInt16_of_whole, Hbs.
  unfold decodeAudioData, dataInt16_of, bufferToUse, u8_length.
  cbn [u8_buffer u8_byteOffset u8_byteLength].
  destruct (Nat.eqb_spec byteLength 0) as [|_]; [lia|].
  destruct (Nat.eqb_spec (byteLength mod 2) 0) as [Hlen|Hlen].
  - unfold Int16Array_new. rewrite Heven. cbn [Nat.eqb negb].
    destruct (Nat.ltb_spec (length buf) (byteOffset + byteLength / 2 * 2));
      [lia|].
    cbn [mbind result_bind]. unfold frameCount_of. cbn [i16_length].
    destruct (createBuffer ctx numChannels _ sampleRate) as [buffer|e];
      [cbn [mbind result_bind]|done].
    apply fill_buffer_ext; [done|]. intros k.
    rewrite Int16Array_get_offset. do 2 f_equal. unfold bs.
    rewrite take_take. f_equal. lia.
  - destruct Hcase as [Hl | ->]; [lia|].
    unfold ArrayBuffer_slice, Int16Array_new.
    change (0 mod 2 =? 0) with true. cbn [negb].
    rewrite length_take, length_drop.
    destruct (Nat.ltb_spec ((byteLength - 1 - 0) `min` (length buf - 0))
                (0 + byteLength / 2 * 2)); [lia|].
    cbn [mbind result_bind]. unfold frameCount_of. cbn [i16_length].
    destruct (createBuffer ctx numChannels _ sampleRate) as [buffer|e];
      [cbn [mbind result_bind]|done].
    do 2 f_equal. unfold bs. rewrite !drop_0, take_take. f_equal. lia.
Qed.

Lemma decodeAudioData_view_witness :
  decodeAudioData
    (Some {| u8_buffer := [x09; x09; x01; x00; x02; x00; x09];
             u8_byteOffset := 2; u8_byteLength := 4 |})
    audioCtx 24000 1
  = decodeAudioData (Some (Uint8Array_of [x01; x00; x02; x00])) audioCtx 24000 1.
Proof.
  apply (decodeAudioData_view [x09; x09; x01; x00; x02; x00; x09] 2 4);
    [lia | cbn; lia | reflexivity | by left].
Defined.

(** X6. The views [decodeAudioData] cannot decode: on a non-empty view it
    throws a [RangeError] when the view's offset is odd (a 16-bit view must
    be aligned), and when the view's length is odd and its offset is not 0:
    the odd-length branch copies the buffer from its start, not from the
    view's offset, and the 16-bit view then does not fit in the copy. *)
Theorem decodeAudioData_view_RangeError (buf : list byte)
    (byteOffset byteLength : nat) (ctx : AudioContext) (sampleRate : Z)
    (numChannels : nat) :
  0 < byteLength →
  byteOffset mod 2 = 1 ∨ (byteLength mod 2 = 1 ∧ 0 < byteOffset) →
  decodeAudioData
    (Some {| u8_buffer := buf; u8_byteOffset := byteOffset;
             u8_byteLength := byteLength |})
    ctx sampleRate numChannels
  = Throw RangeError.
Proof.
  intros Hpos Hcase.
  unfold decodeAudioData, dataInt16_of, bufferToUse, u8_length, Int16Array_new.
  cbn [u8_buffer u8_byteOffset u8_byteLength].
  destruct (Nat.eqb_spec byteLength 0) as [|_]; [lia|].
  destruct (Nat.eqb_spec (byteOffset mod 2) 0) as [Heven|Hodd]; [|done].
  cbn [negb].
  destruct Hcase as [Hoff|[Hlen Hoff]]; [lia|].
  destruct (Nat.eqb_spec (byteLength mod 2) 0) as [|_]; [lia|].
  unfold ArrayBuffer_slice. rewrite length_take, length_drop.
  destruct (Nat.ltb_spec ((byteLength - 1 - 0) `min` (length buf - 0))
              (byteOffset + byteLength / 2 * 2)); [done|lia].
Qed.

Lemma decodeAudioData_view_RangeError_witness :
  decodeAudioData
    (Some {| u8_buffer := [x00; x00; x01; x00; x02; x00; x03; x00];
             u8_byteOffset := 2; u8_byteLength := 3 |})
    audioCtx 24000 1
  = Throw RangeError.
Proof.
  apply decodeAudioData_view_RangeError; [lia | right; split; [reflexivity | lia]].
Defined.

(** ** [decodeAudioData] on consecutive chunks *)

Lemma spec_PCMSampleBuffer_app (bs1 bs2 : list byte) :
  length bs1 mod 2 = 0 →
  spec_PCMSampleBuffer (bs1 ++ bs2) = spec_PCMSampleBuffer bs1 ++ spec_PCMSampleBuffer bs2.
Proof.
  induction bs1 as [|x|x y l IH] using list_pair_ind; intros Hlen.
  - done.
  - discriminate Hlen.
  - cbn [app spec_PCMSampleBuffer]. rewrite IH; [done|].
    cbn [length] in Hlen. lia.
Qed.

Lemma spec_channel_app (s1 s2 : list Z) (numChannels k frames c : nat) :
  c < numChannels →
  length s1 = numChannels * k →
  spec_channel (s1 ++ s2) numChannels (k + frames) c
  = spec_channel s1 numChannels k c ++ spec_channel s2 numChannels frames c.
Proof.
  intros Hc Hlen. apply list_eq. intros i.
  destruct (decide (i < k)) as [Hi|Hi].
  - rewrite lookup_app_l by (rewrite spec_channel_length; lia).
    rewrite !spec_channel_lookup by lia.
    rewrite lookup_app_l; [done|]. rewrite Hlen. nia.
  - rewrite lookup_app_r by (rewrite spec_channel_length; lia).
    rewrite spec_channel_length.
    destruct (decide (i < k + frames)) as [Hi'|Hi'].
    + rewrite !spec_channel_lookup by lia.
      rewrite lookup_app_r by (rewrite Hlen; nia).
      do 3 f_equal. rewrite Hlen. nia.
    + rewrite !lookup_ge_None_2; [done|rewrite spec_channel_length; lia..].
Qed.

(** X7. Chunks compose: when a first chunk holds a whole number of frames,
    at least one, and a second chunk of at least one frame follows it, and
    the context accepts the arguments, decoding the two chunks joined gives,
    on each channel, the samples of the first chunk followed by those of the
    second, and the frame counts add up. *)
Theorem decodeAudioData_chunks (bs1 bs2 : list byte) (ctx : AudioContext)
    (sampleRate : Z) (numChannels : nat) :
  accepts ctx numChannels sampleRate →
  bs1 ≠ [] →
  length bs1 mod (2 * numChannels) = 0 →
  numChannels ≤ length bs2 / 2 →
  ∃ b1 b2 b12,
    decodeAudioData (Some (Uint8Array_of bs1)) ctx sampleRate numChannels = Ok b1
    ∧ decodeAudioData (Some (Uint8Array_of bs2)) ctx sampleRate numChannels = Ok b2
    ∧ decodeAudioData (Some (Uint8Array_of (bs1 ++ bs2))) ctx sampleRate numChannels
      = Ok b12
    ∧ ab_length b12 = ab_length b1 + ab_length b2
    ∧ ab_channels b12 = zip_with app (ab_channels b1) (ab_channels b2).
Proof.
  intros Hacc Hne1 Hmod Hframe2.
  assert (Hnc : 1 ≤ numChannels) by (destruct Hacc as [[? _] _]; done).
  set (k := length bs1 / (2 * numChannels)).
  assert (Hlen1 : length bs1 = 2 * (numChannels * k)).
  { unfold k. pose proof (Nat.div_mod_eq (length bs1) (2 * numChannels)). lia. }
  assert (Hs1 : length bs1 / 2 = numChannels * k) by lia.
  assert (Hk : 1 ≤ k).
  { destruct k; [|lia]. destruct bs1; [done|cbn [length] in Hlen1; lia]. }
  do 3 eexists.
  split; [apply decodeAudioData_nonempty; [done|rewrite Hs1; nia]|].
  split; [by apply decodeAudioData_nonempty|].
  split.
  { apply decodeAudioData_nonempty; [done|].
    transitivity (length bs2 / 2); [done|].
    apply Nat.Div0.div_le_mono. rewrite length_app. lia. }
  assert (Hf1 : length bs1 / 2 / numChannels = k).
  { rewrite Hs1, Nat.mul_comm. apply Nat.div_mul. lia. }
  assert (Hf12 : length (bs1 ++ bs2) / 2 / numChannels
                 = k + length bs2 / 2 / numChannels).
  { rewrite length_app.
    replace ((length bs1 + length bs2) / 2)
      with (k * numChannels + length bs2 / 2) by lia.
    apply Nat.div_add_l. lia. }
  cbn [spec_deinterleave ab_length ab_channels].
  rewrite Hf12, Hf1. split; [done|].
  rewrite spec_PCMSampleBuffer_app by lia.
  apply list_eq. intros c.
  rewrite lookup_zip_with, !list_lookup_fmap.
  destruct (decide (c < numChannels)) as [Hc|Hc].
  - rewrite lookup_seq_lt by done. cbn [fmap option_fmap option_map mbind option_bind].
    f_equal. apply spec_channel_app; [done|].
    by rewrite spec_PCMSampleBuffer_length.
  - by rewrite lookup_seq_ge by lia.
Qed.

Lemma decodeAudioData_chunks_witness :
  ∃ b1 b2 b12,
    decodeAudioData (Some (Uint8Array_of [x01; x00; x02; x00])) audioCtx 24000 2 = Ok b1
    ∧ decodeAudioData (Some (Uint8Array_of [x03; x00; x04; x00; x05])) audioCtx 24000 2
      = Ok b2
    ∧ decodeAudioData
        (Some (Uint8Array_of ([x01; x00; x02; x00] ++ [x03; x00; x04; x00; x05])))
        audioCtx 24000 2
      = Ok b12
    ∧ ab_length b12 = ab_length b1 + ab_length b2
    ∧ ab_channels b12 = zip_with app (ab_channels b1) (ab_channels b2).
Proof.
  apply decodeAudioData_chunks;
    [apply audioCtx_accepts; lia | discriminate | reflexivity | cbn; lia].
Defined.

(** ** The input array is left alone *)

(** X8. [decodeAudioData] never writes to the array it is given. Run on
    any view of a buffer held in any store, it leaves every object of that
    store as it was, the input buffer among them, whether it returns or
    throws; its outcome is that of the function on values for the bytes of
    the buffer; and the channel arrays it returns are new objects, none of
    them the input buffer. *)
Theorem Store_decodeAudioData_keeps_input (h : Store.heap)
    (data : Store.Uint8Array) (bytes : list byte) (ctx : AudioContext)
    (sampleRate : Z) (numChannels : nat) :
  h !! Store.buffer data = Some (Store.ArrayBufferObj bytes) →
  let run := Store.decodeAudioData (Some data) ctx sampleRate numChannels h in
  h `prefix_of` run.2
  ∧ run.2 !! Store.buffer data = Some (Store.ArrayBufferObj bytes)
  ∧ observe run
    = outcome (decodeAudioData
                 (Some {| u8_buffer := bytes;
                          u8_byteOffset := Store.byteOffset data;
                          u8_byteLength := Store.byteLength data |})
                 ctx sampleRate numChannels)
  ∧ ∀ b, run.1 = Ok b →
         fresh_channels h b ∧ Store.buffer data ∉ Store.ab_channels b.
Proof.
  intros Hbuf run.
  destruct (Store_decodeAudioData_refines h data
              {| u8_buffer := bytes;
                 u8_byteOffset := Store.byteOffset data;
                 u8_byteLength := Store.byteLength data |}
              ctx sampleRate numChannels Hbuf eq_refl eq_refl)
    as (r & h' & Hrun & Hpre & Hobs & Hfresh).
  unfold run. rewrite Hrun. cbn [fst snd].
  split; [done|]. split; [by eapply prefix_lookup_Some|]. split; [done|].
  intros b Hb. split; [by apply Hfresh|].
  destruct (Hfresh b Hb) as [Hge _]. intros Hin.
  rewrite Forall_forall in Hge. apply Hge in Hin.
  apply lookup_lt_Some in Hbuf. lia.
Qed.

Lemma Store_decodeAudioData_keeps_input_witness :
  let h := [Store.ArrayBufferObj [x01; x02; x03]] in
  let data := {| Store.buffer := 0; Store.byteOffset := 0;
                 Store.byteLength := 3 |} in
  h !! Store.buffer data = Some (Store.ArrayBufferObj [x01; x02; x03])
  ∧ h `prefix_of` (Store.decodeAudioData (Some data) audioCtx 24000 1 h).2.
Proof.
  intros h data. split; [reflexivity|].
  exact (proj1 (Store_decodeAudioData_keeps_input h data [x01; x02; x03]
                  audioCtx 24000 1 eq_refl)).
Defined.

(** ** The service functions *)

#[local] Set Warnings "-clear-no-such-hyp".

Lemma toLowerCase_char_letter (c d : ascii) :
  97 ≤ nat_of_ascii d ≤ 122 →
  toLowerCase_char c = d ↔ same_letter c d.
Proof.
  intros Hd. unfold toLowerCase_char, same_letter.
  pose proof (nat_ascii_bounded c) as Hc.
  destruct ((65 <=? nat_of_ascii c) && (nat_of_ascii c <=? 90)
            || (192 <=? nat_of_ascii c) && (nat_of_ascii c <=? 214)
            || (216 <=? nat_of_ascii c) && (nat_of_ascii c <=? 222)) eqn:Hup.
  - split.
    + intros <-. right. rewrite nat_ascii_embedding; [done|].
      rewrite !orb_true_iff, !andb_true_iff, !Nat.leb_le in Hup. lia.
    + intros [->|Heq].
      * exfalso. rewrite !orb_true_iff, !andb_true_iff, !Nat.leb_le in Hup. lia.
      * rewrite Heq. apply ascii_nat_embedding.
  - split; [by left|]. intros [->|Heq]; [done|]. exfalso.
    rewrite !orb_false_iff, !andb_false_iff, !Nat.leb_gt in Hup. lia.
Qed.

Lemma toLowerCase_spells (t target : string) :
  Forall (λ d, 97 ≤ nat_of_ascii d ≤ 122) (list_ascii_of_string target) →
  toLowerCase t = target ↔ spells t target.
Proof.
  unfold spells. revert target.
  induction t as [|c t IH]; intros [|d target] Hall; cbn.
  - split; [constructor|done].
  - split; [done|inversion 1].
  - split; [done|inversion 1].
  - cbn in Hall. apply Forall_cons in Hall as [Hd Hall]. split.
    + intros [= Hc Ht]. constructor.
      * by apply toLowerCase_char_letter.
      * by apply IH.
    + inversion 1 as [|? ? ? ? Hc Ht]; subst. f_equal.
      * by apply toLowerCase_char_letter.
      * by apply IH.
Qed.

Section ServiceProperties.

Context (generateContent : request → attempt GenerateContentResponse).

(** X9. [generateSpeech] makes exactly one call to the service. It returns
    exactly when the first part of the first candidate of the answer carries
    inline data that is not the empty string, and then returns that data;
    when the service answers anything else it throws
    [Error("Audio generation failed.")]; an error of the service is passed
    on as it is. It never returns the empty string. *)
Theorem generateSpeech_outcome (text : string) :
  let req := generateSpeech_request text in
  let run := generateSpeech generateContent text in
  run.1 = [ServiceCall req]
  ∧ (∀ base64Audio,
       run.2 = Returned base64Audio ↔
       ∃ response,
         generateContent req = Returned response
         ∧ first_inline_data response = Some base64Audio
         ∧ base64Audio ≠ ""%string)
  ∧ (∀ x,
       run.2 = Thrown x ↔
       generateContent req = Thrown x
       ∨ ∃ response,
           generateContent req = Returned response
           ∧ (first_inline_data response = None
              ∨ first_inline_data response = Some ""%string)
           ∧ x = ErrorObject "Audio generation failed.").
Proof.
  intros req run. unfold run, generateSpeech, call_service, external.
  fold req. cbn [mbind Eff_mbind Eff_bind].
  destruct (generateContent req) as [response|x0];
    [|cbn; repeat split; naive_solver].
  destruct (first_inline_data response) as [base64Audio|] eqn:Hdata;
    [|cbn; repeat split; naive_solver].
  destruct (String.eqb_spec base64Audio "") as [->|Hne];
    cbn; repeat split; naive_solver.
Qed.

Context {AnalysisResult : Type}.
Context (JSON_parse : string → attempt AnalysisResult).

(** The three outcomes of reading a response: the parsed text, the error
    for an absent or empty text, the error of the parser. *)
Lemma parse_text_outcome (response : GenerateContentResponse) (message : string) :
  (parse_text JSON_parse response message).1 = []
  ∧ ((∃ text, response_text response = Some text ∧ text ≠ ""%string
              ∧ (parse_text JSON_parse response message).2 = JSON_parse text)
     ∨ ((response_text response = None ∨ response_text response = Some ""%string)
        ∧ (parse_text JSON_parse response message).2
          = Thrown (ErrorObject message))).
Proof.
  unfold parse_text. destruct (response_text response) as [text|].
  - destruct (String.eqb_spec text "") as [->|Hne].
    + split; [done|]. right. auto.
    + split; [done|]. left. by exists text.
  - split; [done|]. right. auto.
Qed.

(** X10. [analyzeImage] makes one call to the service. What it returns is
    [JSON.parse] of the answer's text, which is then not empty. Whatever
    goes wrong (the service fails, the text is absent or empty, the parser
    fails) the error is written to the console once, under the label
    "Analysis Error:", and the caller receives that same error. *)
Theorem analyzeImage_outcome (base64Image : option string) :
  let req := analyzeImage_request base64Image in
  let run := analyzeImage generateContent JSON_parse base64Image in
  (∀ r, run.2 = Returned r →
        run.1 = [ServiceCall req]
        ∧ ∃ response text,
            generateContent req = Returned response
            ∧ response_text response = Some text ∧ text ≠ ""%string
            ∧ JSON_parse text = Returned r)
  ∧ (∀ x, run.2 = Thrown x →
          run.1 = [ServiceCall req; ConsoleError "Analysis Error:" x]
          ∧ (generateContent req = Thrown x
             ∨ ∃ response,
                 generateContent req = Returned response
                 ∧ (((response_text response = None
                      ∨ response_text response = Some ""%string)
                     ∧ x = ErrorObject "Empty response from AI model.")
                    ∨ ∃ text, response_text response = Some text
                              ∧ text ≠ ""%string
                              ∧ JSON_parse text = Thrown x))).
Proof.
  intros req run. unfold run, analyzeImage, try_catch, call_service, external.
  fold req. cbn [mbind Eff_mbind Eff_bind].
  destruct (generateContent req) as [response|x0];
    [|cbn; repeat split; naive_solver].
  destruct (parse_text_outcome response "Empty response from AI model.")
    as [Hlog Hout].
  destruct (parse_text JSON_parse response _) as [l [r0|x0]];
    cbn [fst snd] in Hlog, Hout; subst l; cbn; repeat split; naive_solver.
Qed.

Context (JSON_stringify : AnalysisResult → string).

(** X11. [translateResult] and the English language: the service is called
    if and only if the target language is not the word "english" spelled in
    letters of either case; for such a spelling the function returns its
    argument itself and makes no call at all. *)
Theorem translateResult_english (result : AnalysisResult) (targetLanguage : string) :
  let run := translateResult generateContent JSON_parse JSON_stringify result
               targetLanguage in
  (spells targetLanguage "english" → run = ([], Returned result))
  ∧ (¬ spells targetLanguage "english" →
     ∃ log, run.1 = ServiceCall (translateResult_request JSON_stringify result
                                   targetLanguage) :: log).
Proof.
  intros run. unfold run, translateResult.
  assert (Hlow : toLowerCase targetLanguage = "english"%string
                 ↔ spells targetLanguage "english").
  { apply toLowerCase_spells. repeat constructor; cbn; lia. }
  destruct (String.eqb_spec (toLowerCase targetLanguage) "english") as [Heq|Hne].
  - split; [done|]. intros Hno. by apply Hlow in Heq.
  - split; [intros Hyes; by apply Hlow in Hyes|]. intros _.
    unfold try_catch, call_service, external. cbn [mbind Eff_mbind Eff_bind].
    destruct (generateContent _) as [response|x]; [|by eexists].
    destruct (parse_text JSON_parse response _) as [l [r|x]]; by eexists.
Qed.

(** X12. [translateResult], for a target language other than English, makes
    one call to the service. What it returns is [JSON.parse] of the answer's
    text, which is then not empty. Whatever goes wrong the error is written
    to the console once, under the label "Translation Error:", and the caller
    receives that same error; the function never falls back to its
    argument. *)
Theorem translateResult_outcome (result : AnalysisResult) (targetLanguage : string) :
  ¬ spells targetLanguage "english" →
  let req := translateResult_request JSON_stringify result targetLanguage in
  let run := translateResult generateContent JSON_parse JSON_stringify result
               targetLanguage in
  (∀ r, run.2 = Returned r →
        run.1 = [ServiceCall req]
        ∧ ∃ response text,
            generateContent req = Returned response
            ∧ response_text response = Some text ∧ text ≠ ""%string
            ∧ JSON_parse text = Returned r)
  ∧ (∀ x, run.2 = Thrown x →
          run.1 = [ServiceCall req; ConsoleError "Translation Error:" x]
          ∧ (generateContent req = Thrown x
             ∨ ∃ response,
                 generateContent req = Returned response
                 ∧ (((response_text response = None
                      ∨ response_text response = Some ""%string)
                     ∧ x = ErrorObject "Translation failed - empty response.")
                    ∨ ∃ text, response_text response = Some text
                              ∧ text ≠ ""%string
                              ∧ JSON_parse text = Thrown x))).
Proof.
  intros Hno req run. unfold run, translateResult.
  destruct (String.eqb_spec (toLowerCase targetLanguage) "english") as [Heq|_].
  { exfalso. apply Hno. apply toLowerCase_spells; [|done].
    repeat constructor; cbn; lia. }
  unfold try_catch, call_service, external.
  fold req. cbn [mbind Eff_mbind Eff_bind].
  destruct (generateContent req) as [response|x0];
    [|cbn; repeat split; naive_solver].
  destruct (parse_text_outcome response "Translation failed - empty response.")
    as [Hlog Hout].
  destruct (parse_text JSON_parse response _) as [l [r0|x0]];
    cbn [fst snd] in Hlog, Hout; subst l; cbn; repeat split; naive_solver.
Qed.

End ServiceProperties.

Lemma analyzeImage_outcome_witness :
  (analyzeImage (answering (text_response "{}"%string)) Returned (Some "AAAA"%string)).2
  = Returned "{}"%string
  ∧ (analyzeImage (answering (text_response "{}"%string)) Returned (Some "AAAA"%string)).1
    = [ServiceCall (analyzeImage_request (Some "AAAA"%string))].
Proof.
  split; [reflexivity|].
  exact (proj1 (proj1 (analyzeImage_outcome (answering (text_response "{}"%string))
                         Returned (Some "AAAA"%string)) "{}"%string eq_refl)).
Defined.

Lemma translateResult_english_witness :
  spells "ENGLISH"%string "english"%string
  ∧ translateResult offline Returned id "{}"%string "ENGLISH"%string
    = ([], Returned "{}"%string).
Proof.
  assert (Hspells : spells "ENGLISH"%string "english"%string).
  { unfold spells. cbn [list_ascii_of_string].
    repeat (constructor; [right; reflexivity|]). constructor. }
  split; [exact Hspells|].
  exact (proj1 (translateResult_english offline Returned id "{}"%string "ENGLISH"%string)
           Hspells).
Defined.

Lemma translateResult_outcome_witness :
  ¬ spells "French"%string "english"%string
  ∧ (translateResult offline Returned id "{}"%string "French"%string).1
    = [ServiceCall (translateResult_request id "{}"%string "French"%string);
       ConsoleError "Translation Error:" (Rejection "Failed to fetch")].
Proof.
  assert (Hno : ¬ spells "French"%string "english"%string).
  { unfold spells. cbn [list_ascii_of_string].
    intros H. inversion H as [|c d t t' [Hc|Hc] _]; discriminate. }
  split; [exact Hno|].
  exact (proj1 (proj2 (translateResult_outcome offline Returned id "{}"%string
                         "French"%string Hno)
                  (Rejection "Failed to fetch") eq_refl)).
Defined.

(** ** Sequencing of calls *)

Lemma Eff_bind_Returned {E A B : Type} (m : Eff_of E A) (k : A → Eff_of E B)
    (a : A) :
  m.2 = Returned a →
  (m ≫= k).1 = m.1 ++ (k a).1 ∧ (m ≫= k).2 = (k a).2.
Proof.
  destruct m as [l r]. cbn. intros ->. cbn. by destruct (k a).
Qed.

Lemma Eff_bind_Thrown {E A B : Type} (m : Eff_of E A) (k : A → Eff_of E B)
    (x : thrown) :
  m.2 = Thrown x → (m ≫= k).1 = m.1 ∧ (m ≫= k).2 = Thrown x.
Proof. destruct m as [l r]. cbn. by intros ->. Qed.

(** A computation in sequence: either the first part throws, and that is
    all, or it returns and the second part follows. *)
Lemma Eff_bind_cases {E A B : Type} (m : Eff_of E A) (k : A → Eff_of E B) :
  (∃ x, m.2 = Thrown x ∧ (m ≫= k).1 = m.1 ∧ (m ≫= k).2 = Thrown x)
  ∨ (∃ a, m.2 = Returned a
          ∧ (m ≫= k).1 = m.1 ++ (k a).1 ∧ (m ≫= k).2 = (k a).2).
Proof.
  destruct (m.2) as [a|x] eqn:Hm.
  - right. exists a. split; [done|]. by apply Eff_bind_Returned.
  - left. exists x. split; [done|]. by apply Eff_bind_Thrown.
Qed.

Lemma Eff_bind_Forall {E A B : Type} (P : E → Prop) (m : Eff_of E A)
    (k : A → Eff_of E B) :
  Forall P m.1 → (∀ a, Forall P (k a).1) → Forall P (m ≫= k).1.
Proof.
  intros Hm Hk.
  destruct (Eff_bind_cases m k) as [(x & _ & -> & _)|(a & _ & -> & _)]; [done|].
  apply Forall_app. by split.
Qed.

Lemma isPlaying_after_app (l1 l2 : list event) (b : bool) :
  isPlaying_after (l1 ++ l2) b = isPlaying_after l2 (isPlaying_after l1 b).
Proof.
  revert b. induction l1 as [|e l1 IH]; intros b; [done|].
  destruct e; cbn; apply IH.
Qed.

Lemma loading_after_app (l1 l2 : list event) (b : bool) :
  loading_after (l1 ++ l2) b = loading_after l2 (loading_after l1 b).
Proof.
  revert b. induction l1 as [|e l1 IH]; intros b; [done|].
  destruct e; cbn; apply IH.
Qed.

(** ** The audio control *)

Section AudioControlProperties.

Context (generateContent : request → attempt GenerateContentResponse).
Context (env : audio_env) (text : string).

Ltac Eff_reduce :=
  cbn [mbind mret Eff_mbind Eff_bind Eff_mret Eff_ret fst snd app].

(** A run of the [try] block that stops before [source.start()]. *)
Ltac stopped_early :=
  split; [repeat first [exact I | constructor]|];
  split;
  [ intros [Hin|Hret]; [cbn in Hin; intuition discriminate | discriminate]
  | eexists; split; [reflexivity|];
    split; [intros sr Hin; cbn in Hin; intuition discriminate|];
    first [reflexivity | discriminate] ].

(** The [try] block of [handlePlay], call by call. *)
Lemma handlePlay_try_outcome (ref : option AudioContext) :
  let body := handlePlay_try generateContent env text ref in
  Forall try_event body.1
  ∧ (In StartSource body.1 ∨ body.2 = Returned tt →
     ∃ ctx response base64Audio bytes audioBuffer,
       ref_after env ref = Some ctx
       ∧ generateContent (generateSpeech_request text) = Returned response
       ∧ first_inline_data response = Some base64Audio
       ∧ base64Audio ≠ ""%string
       ∧ decodeBase64 (Some base64Audio) = Ok bytes
       ∧ decodeAudioData (Some bytes) ctx default_sampleRate default_numChannels
         = Ok audioBuffer
       ∧ body.1 = playback_calls env text ref ctx audioBuffer
       ∧ body.2 = env_start env)
  ∧ (∃ rest, body.1 = context_calls ref ++ rest
             ∧ (∀ sampleRate, ¬ In (NewAudioContext sampleRate) rest)
             ∧ (ref_after env ref = None → rest = [])).
Proof.
  intros body.
  unfold body, handlePlay_try, ensure_context, generateSpeech, call_service,
    external, emit, playback_calls, context_calls, ref_after.
  destruct ref as [ctx|]; [|destruct (env_new_context env) as [ctx|x] eqn:Hctx];
    Eff_reduce; try solve [stopped_early].
  all: destruct (env_suspended env ctx) eqn:Hsuspended;
    [destruct (env_resume env) as [[]|x] eqn:Hresume|];
    Eff_reduce; try solve [stopped_early].
  all: destruct (generateContent (generateSpeech_request text))
    as [response|x] eqn:Hresponse; Eff_reduce; try solve [stopped_early].
  all: destruct (first_inline_data response) as [base64Audio|] eqn:Hdata;
    Eff_reduce; try solve [stopped_early].
  all: destruct (String.eqb_spec base64Audio "") as [->|Hne]; Eff_reduce;
    try solve [stopped_early].
  all: unfold of_result;
    destruct (decodeBase64 (Some base64Audio)) as [bytes|e] eqn:Hbytes;
    Eff_reduce; try solve [stopped_early].
  all: destruct (decodeAudioData (Some bytes) ctx default_sampleRate
                   default_numChannels) as [audioBuffer|e] eqn:HaudioBuffer;
    Eff_reduce; try solve [stopped_early].
  all: destruct (env_createBufferSource env) as [[]|x] eqn:Hsource;
    Eff_reduce; try solve [stopped_early].
  all: destruct (env_set_buffer env) as [[]|x] eqn:Hset;
    Eff_reduce; try solve [stopped_early].
  all: destruct (env_connect env) as [[]|x] eqn:Hconnect;
    Eff_reduce; try solve [stopped_early].
  all: (split; [repeat first [exact I | constructor]|]).
  all: (split;
        [ intros _; eexists _, _, _, _, _; repeat split; eauto;
          by rewrite Hsuspended
        | eexists; split; [reflexivity|];
          split; [intros sr Hin; cbn in Hin; intuition discriminate|];
          first [reflexivity | discriminate] ]).
Qed.

(** The calls of a run of [handlePlay] that passes the guard: those of the
    [try] block, the report of the failure if it throws, and the [finally]
    block. *)
Lemma handlePlay_trace (loading isPlaying : bool) (ref : option AudioContext) :
  loading || isPlaying = false →
  let body := handlePlay_try generateContent env text ref in
  handlePlay generateContent env text loading isPlaying ref
  = (SetLoading true
       :: (body.1 ++ match body.2 with
                     | Returned _ => []
                     | Thrown x => failure_report x
                     end) ++ [SetLoading false],
     ref_after env ref).
Proof.
  intros Hidle body. unfold handlePlay. rewrite Hidle. fold body.
  destruct body as [l [[]|x]]; cbn; [by rewrite app_nil_r|done].
Qed.

(** X13. The [loading] flag. When the control is loading or playing the
    handler does nothing at all. Otherwise its first call sets [loading],
    its last call clears it, whatever happens in between, and no call in
    between touches it: the handler always leaves [loading] false. *)
Theorem handlePlay_loading (loading isPlaying : bool) (ref : option AudioContext) :
  let run := handlePlay generateContent env text loading isPlaying ref in
  (loading || isPlaying = true → run = ([], ref))
  ∧ (loading || isPlaying = false →
     ∃ mid, run.1 = SetLoading true :: mid ++ [SetLoading false]
            ∧ (∀ b, ¬ In (SetLoading b) mid)
            ∧ loading_after run.1 loading = false).
Proof.
  intros run. split.
  - intros Hbusy. unfold run, handlePlay. by rewrite Hbusy.
  - intros Hidle. unfold run. rewrite (handlePlay_trace _ _ _ Hidle).
    cbn [fst]. eexists. split; [reflexivity|]. split.
    + intros b [Hin|Hin]%in_app_or.
      * destruct (handlePlay_try_outcome ref) as [Hbody _].
        rewrite Forall_forall in Hbody.
        by apply list_elem_of_In, Hbody in Hin.
      * destruct (handlePlay_try _ _ _ _).2; cbn in Hin;
          intuition discriminate.
    + cbn [loading_after]. by rewrite loading_after_app.
Qed.

(** X14. Playback starts only on decoded audio. If the handler calls
    [source.start()], then the service answered the one request made, the
    request for the speech of [text], with inline data that is not empty;
    that data went through [decodeBase64] and [decodeAudioData] (24000 Hz,
    one channel) without an error; and the buffer that came out is the one
    buffer given to the source. *)
Theorem handlePlay_start (loading isPlaying : bool) (ref : option AudioContext) :
  let run := handlePlay generateContent env text loading isPlaying ref in
  In StartSource run.1 →
  ∃ ctx response base64Audio audioBuffer,
    run.2 = Some ctx
    ∧ generateContent (generateSpeech_request text) = Returned response
    ∧ first_inline_data response = Some base64Audio
    ∧ base64Audio ≠ ""%string
    ∧ decode_pipeline (Some base64Audio) ctx default_sampleRate
        default_numChannels = Ok audioBuffer
    ∧ (∀ buffer, In (SetSourceBuffer buffer) run.1 ↔ buffer = audioBuffer)
    ∧ (∀ req, In (ServiceCall req) run.1 ↔ req = generateSpeech_request text).
Proof.
  intros run Hstart. unfold run in *. clear run.
  destruct (loading || isPlaying) eqn:Hguard.
  { unfold handlePlay in Hstart. rewrite Hguard in Hstart. destruct Hstart. }
  rewrite (handlePlay_trace _ _ _ Hguard) in *. cbn [fst snd] in *.
  destruct (handlePlay_try_outcome ref) as (_ & Hbody & _).
  destruct Hbody
    as (ctx & response & base64Audio & bytes & audioBuffer & Hctx & Hresponse
        & Hdata & Hne & Hbytes & HaudioBuffer & Hcalls & Hend).
  { destruct Hstart as [Hin|Hin]; [discriminate|].
    apply in_app_or in Hin as [Hin|Hin];
      [|cbn in Hin; intuition discriminate].
    apply in_app_or in Hin as [Hin|Hin]; [by left|].
    destruct (handlePlay_try _ _ _ _).2; cbn in Hin; intuition discriminate. }
  exists ctx, response, base64Audio, audioBuffer.
  repeat split; try done.
  - unfold decode_pipeline. by rewrite Hbytes.
  - rewrite Hcalls, Hend in *. unfold playback_calls, context_calls in *.
    destruct ref, (env_suspended env ctx), (env_start env); cbn in *;
      intuition congruence.
  - intros ->. rewrite Hcalls. unfold playback_calls.
    right. apply in_or_app. left. apply in_or_app. left.
    apply in_or_app. right. apply in_or_app. right. cbn. auto.
  - rewrite Hcalls, Hend in *. unfold playback_calls, context_calls in *.
    destruct ref, (env_suspended env ctx), (env_start env); cbn in *;
      intuition congruence.
  - intros ->. rewrite Hcalls. unfold playback_calls.
    right. apply in_or_app. left. apply in_or_app. left.
    apply in_or_app. right. apply in_or_app. right. cbn. auto.
Qed.

(** X15. The two ways a run of the handler ends, once past the guard.
    Either every step succeeded: the calls are those of a playback, with
    [source.start()] the last before [loading] is cleared, nothing is
    reported, and [isPlaying] is left true. Or some step threw: then the
    error is written to the console, the user is alerted, both exactly
    once, and [isPlaying] is left false, also when it was [source.start()]
    that threw, after [isPlaying] had been set. *)
Theorem handlePlay_outcome (loading isPlaying : bool) (ref : option AudioContext) :
  loading || isPlaying = false →
  let run := handlePlay generateContent env text loading isPlaying ref in
  (isPlaying_after run.1 isPlaying = true
   ∧ env_start env = Returned tt
   ∧ ∃ ctx audioBuffer,
       run.1 = SetLoading true
                 :: playback_calls env text ref ctx audioBuffer
                 ++ [SetLoading false])
  ∨ (isPlaying_after run.1 isPlaying = false
     ∧ ∃ calls x,
         run.1 = SetLoading true
                   :: calls ++ failure_report x ++ [SetLoading false]
         ∧ Forall try_event calls).
Proof.
  intros Hguard run. unfold run. clear run.
  rewrite (handlePlay_trace _ _ _ Hguard). cbn [fst].
  destruct (handlePlay_try_outcome ref) as (Hevents & Hbody & _).
  destruct (handlePlay_try generateContent env text ref).2 as [[]|x] eqn:Hend.
  - left.
    destruct Hbody
      as (ctx & _ & _ & _ & audioBuffer & _ & _ & _ & _ & _ & _ & Hcalls & Hstart);
      [by right|].
    rewrite Hcalls, app_nil_r. split; [|split; [done|by eexists _, _]].
    unfold playback_calls. cbn [isPlaying_after].
    by rewrite !isPlaying_after_app.
  - right. split.
    + cbn [isPlaying_after]. by rewrite !isPlaying_after_app.
    + exists (handlePlay_try generateContent env text ref).1, x.
      split; [by rewrite <- app_assoc|done].
Qed.

(** X16. The audio context. The handler constructs an [AudioContext] only
    when the ref holds none: then it does so once, as its first step, with a
    sample rate of 24000, and the ref holds that context afterwards, so that
    the next run constructs none. If the constructor throws, nothing else is
    attempted, the service is not called, and the ref stays empty. *)
Theorem handlePlay_context (loading isPlaying : bool) (ref : option AudioContext) :
  let run := handlePlay generateContent env text loading isPlaying ref in
  (∀ ctx, ref = Some ctx →
     run.2 = Some ctx ∧ ∀ sampleRate, ¬ In (NewAudioContext sampleRate) run.1)
  ∧ (ref = None → loading || isPlaying = false →
     ∃ rest,
       run.1 = SetLoading true :: NewAudioContext 24000 :: rest
       ∧ (∀ sampleRate, ¬ In (NewAudioContext sampleRate) rest)
       ∧ match env_new_context env with
         | Returned ctx => run.2 = Some ctx
         | Thrown x =>
           run.2 = None ∧ rest = failure_report x ++ [SetLoading false]
         end).
Proof.
  intros run. unfold run. clear run. split.
  - intros ctx ->. destruct (loading || isPlaying) eqn:Hguard.
    { unfold handlePlay. rewrite Hguard. split; [done|]. by intros ? []. }
    rewrite (handlePlay_trace _ _ _ Hguard). cbn [fst snd].
    split; [done|]. intros sampleRate.
    destruct (handlePlay_try_outcome (Some ctx)) as (_ & _ & rest & -> & Hrest & _).
    cbn [context_calls app].
    intros [Hin|Hin]; [discriminate|].
    apply in_app_or in Hin as [Hin|Hin]; [|cbn in Hin; intuition discriminate].
    apply in_app_or in Hin as [Hin|Hin]; [by apply Hrest in Hin|].
    destruct (handlePlay_try _ _ _ _).2; cbn in Hin; intuition discriminate.
  - intros -> Hguard.
    rewrite (handlePlay_trace _ _ _ Hguard). cbn [fst snd].
    destruct (handlePlay_try_outcome None) as (_ & _ & rest & Hcalls & Hrest & Hnone).
    destruct (env_new_context env) as [ctx|x] eqn:Hctx.
    + rewrite Hcalls. cbn [context_calls app]. eexists. split; [reflexivity|].
      split; [|by unfold ref_after; rewrite Hctx].
      intros sampleRate Hin.
      apply in_app_or in Hin as [Hin|Hin]; [|cbn in Hin; intuition discriminate].
      apply in_app_or in Hin as [Hin|Hin]; [by apply Hrest in Hin|].
      destruct (handlePlay_try _ _ _ _).2; cbn in Hin; intuition discriminate.
    + unfold ref_after. rewrite Hctx.
      unfold handlePlay_try, ensure_context, external. rewrite Hctx.
      cbn. eexists. split; [reflexivity|].
      split; [|done]. intros sampleRate Hin. cbn in Hin. intuition discriminate.
Qed.

End AudioControlProperties.

Lemma handlePlay_loading_witness :
  false || false = false
  ∧ ∃ mid,
      (handlePlay offline working_audio "A red door."%string false false None).1
      = SetLoading true :: mid ++ [SetLoading false]
      ∧ (∀ b, ¬ In (SetLoading b) mid)
      ∧ loading_after
          (handlePlay offline working_audio "A red door."%string false false None).1
          false = false.
Proof.
  split; [reflexivity|].
  exact (proj2 (handlePlay_loading offline working_audio "A red door."%string
                  false false None) eq_refl).
Defined.

Lemma handlePlay_start_witness :
  let run := handlePlay (answering (speech_response "AAD/fw=="%string)) working_audio
               "A red door."%string false false None in
  In StartSource run.1
  ∧ ∃ ctx response base64Audio audioBuffer,
      run.2 = Some ctx
      ∧ answering (speech_response "AAD/fw=="%string)
          (generateSpeech_request "A red door."%string) = Returned response
      ∧ first_inline_data response = Some base64Audio
      ∧ base64Audio ≠ ""%string
      ∧ decode_pipeline (Some base64Audio) ctx default_sampleRate
          default_numChannels = Ok audioBuffer
      ∧ (∀ buffer, In (SetSourceBuffer buffer) run.1 ↔ buffer = audioBuffer)
      ∧ (∀ req, In (ServiceCall req) run.1
                ↔ req = generateSpeech_request "A red door."%string).
Proof.
  intros run.
  assert (Hstart : In StartSource run.1).
  { vm_compute. repeat first [left; reflexivity | right]. }
  split; [exact Hstart|].
  exact (handlePlay_start (answering (speech_response "AAD/fw=="%string)) working_audio
           "A red door."%string false false None Hstart).
Defined.

Lemma handlePlay_outcome_witness :
  let run := handlePlay (answering (speech_response "AAD/fw=="%string)) working_audio
               "A red door."%string false false None in
  false || false = false
  ∧ ((isPlaying_after run.1 false = true
      ∧ env_start working_audio = Returned tt
      ∧ ∃ ctx audioBuffer,
          run.1 = SetLoading true
                    :: playback_calls working_audio "A red door."%string None ctx
                         audioBuffer
                    ++ [SetLoading false])
     ∨ (isPlaying_after run.1 false = false
        ∧ ∃ calls x,
            run.1 = SetLoading true
                      :: calls ++ failure_report x ++ [SetLoading false]
            ∧ Forall try_event calls)).
Proof.
  intros run. split; [reflexivity|].
  exact (handlePlay_outcome (answering (speech_response "AAD/fw=="%string)) working_audio
           "A red door."%string false false None eq_refl).
Defined.

Lemma handlePlay_context_witness :
  let run := handlePlay offline working_audio "A red door."%string false false
               (Some audioCtx) in
  run.2 = Some audioCtx ∧ ∀ sampleRate, ¬ In (NewAudioContext sampleRate) run.1.
Proof.
  intros run.
  exact (proj1 (handlePlay_context offline working_audio "A red door."%string
                  false false (Some audioCtx)) audioCtx eq_refl).
Defined.

(** ** The application *)

Lemma split_no_sep (sep : ascii) (s : string) :
  ¬ In sep (list_ascii_of_string s) → split sep s = [s].
Proof.
  induction s as [|c s IH]; [done|]. cbn. intros Hno.
  destruct (Ascii.eqb_spec c sep) as [->|_]; [by destruct Hno; left|].
  rewrite IH; [done|]. intros Hin. apply Hno. by right.
Qed.

(** The piece after the first separator. *)
Lemma split_second (sep : ascii) (prefix payload : string) :
  ¬ In sep (list_ascii_of_string prefix) →
  ¬ In sep (list_ascii_of_string payload) →
  split sep (prefix ++ String sep payload) !! 1 = Some payload.
Proof.
  intros Hprefix Hpayload. induction prefix as [|c prefix IH]; cbn.
  - rewrite Ascii.eqb_refl. by rewrite split_no_sep.
  - cbn in Hprefix.
    destruct (Ascii.eqb_spec c sep) as [->|_]; [by destruct Hprefix; left|].
    destruct (split sep (prefix ++ String sep payload)) as [|piece pieces];
      [by discriminate IH; intros ?; apply Hprefix; right|].
    apply IH. intros Hin. apply Hprefix. by right.
Qed.

Lemma state_after_app {AnalysisResult Language : Type}
    (l1 l2 : list (app_event AnalysisResult Language)) st :
  state_after (l1 ++ l2) st = state_after l2 (state_after l1 st).
Proof. apply fold_left_app. Qed.

Lemma state_after_cons {AnalysisResult Language : Type}
    (e : app_event AnalysisResult Language) l st :
  state_after (e :: l) st = state_after l (set_state st e).
Proof. done. Qed.

Lemma state_after_nil {AnalysisResult Language : Type}
    (st : AppState AnalysisResult Language) :
  state_after [] st = st.
Proof. done. Qed.

(** The calls of the service functions change no state variable. *)
Lemma state_after_Call {AnalysisResult Language : Type} (l : list event)
    (st : AppState AnalysisResult Language) :
  state_after (map Call l) st = st.
Proof. induction l as [|e l IH]; [done|]. exact IH. Qed.

Section AppProperties.

Context {AnalysisResult Language : Type}.
Context (generateContent : request → attempt GenerateContentResponse).
Context (JSON_parse : string → attempt AnalysisResult).

Lemma analyzeImage_first_call (base64Image : option string) :
  ∃ log, (analyzeImage generateContent JSON_parse base64Image).1
         = ServiceCall (analyzeImage_request base64Image) :: log.
Proof.
  unfold analyzeImage, try_catch, call_service, external.
  cbn [mbind Eff_mbind Eff_bind].
  destruct (generateContent _) as [response|x]; [|by eexists].
  destruct (parse_text JSON_parse response _) as [l [r|x]]; by eexists.
Qed.

Context (JSON_stringify : AnalysisResult → string).
Context (truthy : AnalysisResult → bool).
Context (lang_code lang_name : Language → string).
Context (SUPPORTED_LANGUAGES : list Language).

Ltac state_after_calls :=
  cbn [mbind mret Eff_mbind Eff_bind Eff_mret Eff_ret fst snd app];
  repeat first [ rewrite state_after_app | rewrite state_after_cons
               | rewrite state_after_Call | rewrite state_after_nil ];
  cbn [set_state st_image st_isAnalyzing st_isTranslating st_englishResult
         st_translatedResult st_selectedLang st_error].

(** The calls of a run of [startAnalysis] that passes the guard: those of
    the [try] block, the report of the failure if it throws, and the
    [finally] block. *)
Lemma startAnalysis_calls (st : AppState AnalysisResult Language) (image : string) :
  st_image st = Some image → image ≠ ""%string →
  let body := startAnalysis_try generateContent JSON_parse JSON_stringify
                lang_code lang_name image (st_selectedLang st) in
  startAnalysis generateContent JSON_parse JSON_stringify lang_code lang_name st
  = SetIsAnalyzing true :: SetError None
      :: (body.1 ++ match body.2 with
                    | Returned _ => []
                    | Thrown x =>
                      [Call (ConsoleError "App Analysis Error:" x);
                       SetError (Some "AI was unable to process this image. Please ensure it is a clear JPG/PNG."%string)]
                    end)
      ++ [SetIsAnalyzing false; SetIsTranslating false].
Proof.
  intros Himage Hne body. unfold startAnalysis. rewrite Himage.
  destruct (String.eqb_spec image "") as [|_]; [done|]. fold body.
  destruct body as [l [[]|x]]; cbn; [by rewrite app_nil_r|done].
Qed.

(** X17. What [startAnalysis] sends. For an image that is a data URL, a
    prefix without a comma, a comma and a payload without a comma, the first
    call of the handler after it has set [isAnalyzing] and cleared the error
    is the request for the analysis of that payload. For an image without
    any comma the request is made all the same, its image data
    [undefined]. *)
Theorem startAnalysis_request (st : AppState AnalysisResult Language) :
  let calls := startAnalysis generateContent JSON_parse JSON_stringify lang_code
                 lang_name st in
  (∀ prefix payload,
     st_image st = Some (prefix ++ String "," payload)%string →
     no_comma prefix → no_comma payload →
     ∃ rest, calls = SetIsAnalyzing true :: SetError None
                       :: Call (ServiceCall (analyzeImage_request (Some payload)))
                       :: rest)
  ∧ (∀ image,
       st_image st = Some image → image ≠ ""%string → no_comma image →
       ∃ rest, calls = SetIsAnalyzing true :: SetError None
                         :: Call (ServiceCall (analyzeImage_request None))
                         :: rest).
Proof.
  intros calls.
  assert (Hfirst : ∀ image, st_image st = Some image → image ≠ ""%string →
            ∃ rest, calls = SetIsAnalyzing true :: SetError None
                      :: Call (ServiceCall
                                 (analyzeImage_request (split "," image !! 1)))
                      :: rest).
  { intros image Himage Hne. unfold calls.
    rewrite (startAnalysis_calls st image Himage Hne).
    unfold startAnalysis_try.
    destruct (analyzeImage_first_call (split "," image !! 1)) as [log Hlog].
    match goal with
    | |- context [?m ≫= ?k] =>
      destruct (Eff_bind_cases m k) as [(x & _ & -> & ->)|(a & _ & -> & _)]
    end; unfold calls_of; cbn [fst]; rewrite Hlog; by eexists. }
  split.
  - intros prefix payload Himage Hprefix Hpayload.
    destruct (Hfirst _ Himage) as [rest ->]; [by destruct prefix|].
    rewrite split_second by done. by eexists.
  - intros image Himage Hne Hno.
    destruct (Hfirst _ Himage Hne) as [rest ->].
    rewrite split_no_sep by done. by eexists.
Qed.

(** X18. How [startAnalysis] leaves the state, once past the guard.
    [isAnalyzing] and [isTranslating] are false again, whatever happened.
    If the analysis fails, the error message is set and both results stay
    as they were. If it succeeds, the English result is the analysis; the
    translated result is the analysis itself for the language code "en",
    and for another code the translation, when there is one. If that
    translation fails, the English result is set all the same, the
    translated result stays as it was, and the message shown is the one of
    a failed analysis. *)
Theorem startAnalysis_outcome (st : AppState AnalysisResult Language)
    (image : string) :
  st_image st = Some image → image ≠ ""%string →
  let lang := st_selectedLang st in
  let analysis := analyzeImage generateContent JSON_parse (split "," image !! 1) in
  let st' := state_after (startAnalysis generateContent JSON_parse JSON_stringify
                            lang_code lang_name st) st in
  st_isAnalyzing st' = false ∧ st_isTranslating st' = false
  ∧ (∀ x, analysis.2 = Thrown x →
       st_englishResult st' = st_englishResult st
       ∧ st_translatedResult st' = st_translatedResult st
       ∧ st_error st' = Some "AI was unable to process this image. Please ensure it is a clear JPG/PNG."%string)
  ∧ (∀ data, analysis.2 = Returned data →
       let translation := translateResult generateContent JSON_parse
                            JSON_stringify data (lang_name lang) in
       st_englishResult st' = Some data
       ∧ (lang_code lang = "en"%string →
          st_translatedResult st' = Some data ∧ st_error st' = None)
       ∧ (lang_code lang ≠ "en"%string →
          (∀ translated, translation.2 = Returned translated →
             st_translatedResult st' = Some translated ∧ st_error st' = None)
          ∧ (∀ x, translation.2 = Thrown x →
               st_translatedResult st' = st_translatedResult st
               ∧ st_error st' = Some "AI was unable to process this image. Please ensure it is a clear JPG/PNG."%string))).
Proof.
  intros Himage Hne lang analysis st'. unfold st', analysis, lang.
  clear st' analysis lang.
  rewrite (startAnalysis_calls st image Himage Hne).
  unfold startAnalysis_try, calls_of.
  destruct (analyzeImage generateContent JSON_parse (split "," image !! 1))
    as [l1 [data|x]]; unfold emit;
    cbn [mbind mret Eff_mbind Eff_bind Eff_mret Eff_ret fst snd app].
  - destruct (String.eqb_spec (lang_code (st_selectedLang st)) "en")
      as [Hcode|Hcode]; cbn [negb].
    + state_after_calls.
      repeat split; intros; simplify_eq; first [done | congruence].
    + destruct (translateResult generateContent JSON_parse JSON_stringify data
                  (lang_name (st_selectedLang st))) as [l2 [translated|x]] eqn:Ht;
        state_after_calls;
        repeat split; intros; simplify_eq; rewrite ?Ht in *; cbn [fst snd] in *;
        simplify_eq; first [done | congruence].
  - state_after_calls.
    repeat split; intros; simplify_eq; first [done | congruence].
Qed.

(** The calls of a run of [handleLanguageChange] for a language of the list
    and an English result that counts as true. *)
Lemma handleLanguageChange_calls (st : AppState AnalysisResult Language)
    (code : string) (lang : Language) (englishResult : AnalysisResult) :
  find (λ l, String.eqb (lang_code l) code) SUPPORTED_LANGUAGES = Some lang →
  st_englishResult st = Some englishResult → truthy englishResult = true →
  let translation := translateResult generateContent JSON_parse JSON_stringify
                       englishResult (lang_name lang) in
  handleLanguageChange generateContent JSON_parse JSON_stringify truthy lang_code
    lang_name SUPPORTED_LANGUAGES st code
  = SetSelectedLang lang :: SetIsTranslating true :: SetError None
      :: map Call translation.1
      ++ match translation.2 with
         | Returned translated => [SetTranslatedResult translated]
         | Thrown x =>
           [Call (ConsoleError "App Translation Error:" x);
            SetError (Some "Translation failed. Results will remain in English."%string);
            SetTranslatedResult englishResult]
         end
      ++ [SetIsTranslating false].
Proof.
  intros Hfind Henglish Htruthy translation.
  unfold handleLanguageChange. rewrite Hfind, Henglish, Htruthy.
  unfold handleLanguageChange_try, handleLanguageChange_catch, calls_of.
  fold translation. destruct translation as [l [translated|x]]; cbn.
  - by rewrite <- app_assoc.
  - by rewrite <- app_assoc.
Qed.

(** X19. What [handleLanguageChange] does. For a code that no language of
    the list has, nothing. Otherwise the first language with that code
    becomes the selected one, also when the translation then fails. Without
    an English result that is all. With one, the service function
    [translateResult] is run on it: when it returns, the translated result
    is what it returned and the error is cleared; when it throws, the
    translated result falls back to the English one and the error message
    says so. [isTranslating] is false again in both cases, and the English
    result is never changed. *)
Theorem handleLanguageChange_outcome (st : AppState AnalysisResult Language)
    (code : string) :
  let calls := handleLanguageChange generateContent JSON_parse JSON_stringify
                 truthy lang_code lang_name SUPPORTED_LANGUAGES st code in
  let st' := state_after calls st in
  (find (λ l, String.eqb (lang_code l) code) SUPPORTED_LANGUAGES = None →
   calls = [])
  ∧ (∀ lang,
       find (λ l, String.eqb (lang_code l) code) SUPPORTED_LANGUAGES = Some lang →
       st_selectedLang st' = lang
       ∧ st_englishResult st' = st_englishResult st
       ∧ ((st_englishResult st = None
           ∨ ∃ r, st_englishResult st = Some r ∧ truthy r = false) →
          calls = [SetSelectedLang lang])
       ∧ (∀ englishResult,
            st_englishResult st = Some englishResult →
            truthy englishResult = true →
            let translation := translateResult generateContent JSON_parse
                                 JSON_stringify englishResult (lang_name lang) in
            st_isTranslating st' = false
            ∧ (∀ translated, translation.2 = Returned translated →
                 st_translatedResult st' = Some translated ∧ st_error st' = None)
            ∧ (∀ x, translation.2 = Thrown x →
                 st_translatedResult st' = Some englishResult
                 ∧ st_error st' = Some "Translation failed. Results will remain in English."%string))).
Proof.
  intros calls st'. split.
  { intros Hfind. unfold calls, handleLanguageChange. by rewrite Hfind. }
  intros lang Hfind.
  destruct (st_englishResult st) as [englishResult|] eqn:Henglish;
    [destruct (truthy englishResult) eqn:Htruthy|].
  - unfold st', calls. clear st' calls.
    rewrite (handleLanguageChange_calls st code lang englishResult Hfind Henglish
               Htruthy).
    destruct (translateResult generateContent JSON_parse JSON_stringify
                englishResult (lang_name lang)) as [l [translated|x]] eqn:Ht;
      state_after_calls; rewrite ?Henglish;
      (split; [done|]); (split; [done|]);
      (split; [intros [?|(r & ? & ?)]; simplify_eq; congruence|]);
      intros ? [= <-] _; rewrite Ht; cbn [fst snd];
      repeat split; intros; simplify_eq; first [done | congruence].
  - assert (Hcalls : calls = [SetSelectedLang lang]).
    { unfold calls, handleLanguageChange. by rewrite Hfind, Henglish, Htruthy. }
    unfold st'. rewrite Hcalls. cbn. rewrite Henglish.
    do 3 (split; [done|]). intros r [= <-] Hr. congruence.
  - assert (Hcalls : calls = [SetSelectedLang lang]).
    { unfold calls, handleLanguageChange. by rewrite Hfind, Henglish. }
    unfold st'. rewrite Hcalls. cbn. rewrite Henglish.
    do 3 (split; [done|]). intros r [=].
Qed.

(** X20. Changing to English asks the service nothing. When the language
    chosen is named "english", in letters of either case, and there is an
    English result, the handler makes no call to the service and writes
    nothing to the console: it sets the translated result to the English
    one. *)
Theorem handleLanguageChange_english (st : AppState AnalysisResult Language)
    (code : string) (lang : Language) (englishResult : AnalysisResult) :
  find (λ l, String.eqb (lang_code l) code) SUPPORTED_LANGUAGES = Some lang →
  spells (lang_name lang) "english" →
  st_englishResult st = Some englishResult → truthy englishResult = true →
  handleLanguageChange generateContent JSON_parse JSON_stringify truthy lang_code
    lang_name SUPPORTED_LANGUAGES st code
  = [SetSelectedLang lang; SetIsTranslating true; SetError None;
     SetTranslatedResult englishResult; SetIsTranslating false].
Proof.
  intros Hfind Hname Henglish Htruthy.
  rewrite (handleLanguageChange_calls st code lang englishResult Hfind Henglish
             Htruthy).
  unfold translateResult.
  apply toLowerCase_spells in Hname; [|repeat constructor; cbn; lia].
  by rewrite Hname.
Qed.

End AppProperties.

Lemma startAnalysis_request_witness :
  st_image (sample_state None)
  = Some ("data:image/png;base64" ++ String "," "AAAA")%string
  ∧ no_comma "data:image/png;base64"
  ∧ no_comma "AAAA"
  ∧ ∃ rest,
      startAnalysis offline Returned id fst snd (sample_state None)
      = SetIsAnalyzing true :: SetError None
          :: Call (ServiceCall (analyzeImage_request (Some "AAAA"%string)))
          :: rest.
Proof.
  assert (Hprefix : no_comma "data:image/png;base64").
  { intros Hin. cbn in Hin. intuition discriminate. }
  assert (Hpayload : no_comma "AAAA").
  { intros Hin. cbn in Hin. intuition discriminate. }
  split; [reflexivity|]. split; [exact Hprefix|]. split; [exact Hpayload|].
  exact (proj1 (startAnalysis_request offline Returned id fst snd
                  (sample_state None))
           "data:image/png;base64"%string "AAAA"%string eq_refl Hprefix Hpayload).
Defined.

Lemma startAnalysis_outcome_witness :
  let st := sample_state None in
  let st' := state_after (startAnalysis (answering (text_response "{}")) Returned
                            id fst snd st) st in
  st_image st = Some "data:image/png;base64,AAAA"%string
  ∧ "data:image/png;base64,AAAA"%string ≠ ""%string
  ∧ st_isAnalyzing st' = false
  ∧ st_englishResult st' = Some "{}"%string.
Proof.
  intros st st'.
  assert (Hne : "data:image/png;base64,AAAA"%string ≠ ""%string) by discriminate.
  destruct (startAnalysis_outcome (answering (text_response "{}")) Returned id
              fst snd st "data:image/png;base64,AAAA"%string eq_refl Hne)
    as (Hanalyzing & _ & _ & Hreturned).
  split; [reflexivity|]. split; [exact Hne|]. split; [exact Hanalyzing|].
  exact (proj1 (Hreturned "{}"%string eq_refl)).
Defined.

Lemma handleLanguageChange_outcome_witness :
  let truthy := λ r : string, negb (String.eqb r "") in
  let st := sample_state (Some "{}"%string) in
  let st' := state_after (handleLanguageChange offline Returned id truthy fst snd
                            sample_languages st "fr") st in
  find (λ l : string * string, String.eqb l.1 "fr") sample_languages
  = Some ("fr", "French")%string
  ∧ st_englishResult st = Some "{}"%string
  ∧ truthy "{}"%string = true
  ∧ st_selectedLang st' = ("fr", "French")%string
  ∧ st_translatedResult st' = Some "{}"%string
  ∧ st_error st' = Some "Translation failed. Results will remain in English."%string.
Proof.
  intros truthy st st'.
  destruct (proj2 (handleLanguageChange_outcome offline Returned id truthy fst snd
                     sample_languages st "fr")
              ("fr", "French")%string eq_refl)
    as (Hlang & _ & _ & Htranslate).
  destruct (Htranslate "{}"%string eq_refl eq_refl) as (_ & _ & Hthrown).
  destruct (Hthrown (Rejection "Failed to fetch") eq_refl) as [Hresult Herror].
  do 3 (split; [reflexivity|]).
  split; [exact Hlang|]. split; [exact Hresult | exact Herror].
Defined.

Lemma handleLanguageChange_english_witness :
  let truthy := λ r : string, negb (String.eqb r "") in
  let st := sample_state (Some "{}"%string) in
  find (λ l : string * string, String.eqb l.1 "en") sample_languages
  = Some ("en", "English")%string
  ∧ spells "English" "english"
  ∧ st_englishResult st = Some "{}"%string
  ∧ truthy "{}"%string = true
  ∧ handleLanguageChange offline Returned id truthy fst snd sample_languages st
      "en"
    = [SetSelectedLang ("en", "English")%string; SetIsTranslating true;
       SetError None; SetTranslatedResult "{}"%string; SetIsTranslating false].
Proof.
  intros truthy st.
  assert (Hspells : spells "English" "english").
  { unfold spells. cbn [list_ascii_of_string].
    constructor; [right; reflexivity|].
    repeat (constructor; [left; reflexivity|]). constructor. }
  split; [reflexivity|]. split; [exact Hspells|].
  do 2 (split; [reflexivity|]).
  exact (handleLanguageChange_english offline Returned id truthy fst snd
           sample_languages st "en" ("en", "English")%string "{}"%string
           eq_refl Hspells eq_refl eq_refl).
Defined.
